(** * Verification of the DQN trainer (DQN_PyTorch.py)

    A shallow embedding of [class DQN]: the value network, the update
    step [train_step] and the checkpoint lifecycle of [__init__] and
    [save_ckpt].  Tensors hold single-precision floats; a call that can
    raise returns a [result]; the calls into PyTorch ([Conv2d],
    [Linear], [load_state_dict], [no_grad], ...) are modelled by their
    documented behaviour, and the arithmetic of [backward] and of the
    Adam step is a parameter of the development. *)

From Stdlib Require Import ZArith List Bool String Ascii Lia.
From Stdlib Require Import SpecFloat.
From stdpp Require Import gmap strings.

Import ListNotations.

(** ** Single-precision floats

    Every tensor of the source is converted with [.float()], so every
    number is an IEEE 754 binary32 value.  The arithmetic is the one of
    [SpecFloat] at precision 24 and maximal exponent 128 (round to
    nearest, ties to even). *)
Module F32.

Definition prec : Z := 24.
Definition emax : Z := 128.

Definition f32 : Type := spec_float.

Definition add : f32 -> f32 -> f32 := SFadd prec emax.
Definition sub : f32 -> f32 -> f32 := SFsub prec emax.
Definition mul : f32 -> f32 -> f32 := SFmul prec emax.
Definition div : f32 -> f32 -> f32 := SFdiv prec emax.

(** The comparisons of IEEE 754: a NaN compares false with everything,
    and the two zeros are equal. *)
Definition eqb : f32 -> f32 -> bool := SFeqb.
Definition ltb : f32 -> f32 -> bool := SFltb.
Definition leb : f32 -> f32 -> bool := SFleb.

Definition zero : f32 := S754_zero false.
Definition one : f32 := S754_finite false 8388608 (-23).
Definition nan : f32 := S754_nan.
Definition pinf : f32 := S754_infinity false.

(** An integer converted to single precision (rounded when it has more
    than 24 significant bits). *)
Definition of_Z (z : Z) : f32 := binary_normalize prec emax z 0 false.
Definition of_nat (n : nat) : f32 := of_Z (Z.of_nat n).

Definition is_nan (x : f32) : bool :=
  match x with S754_nan => true | _ => false end.

(** A finite binary32 value: a zero, or a mantissa and an exponent in
    the format's canonical form. *)
Definition is_finite (x : f32) : bool :=
  match x with
  | S754_zero _ => true
  | S754_finite _ m e => bounded prec emax m e
  | _ => false
  end.

(** Not a NaN, and the sign bit is clear. *)
Definition nonneg (x : f32) : bool :=
  match x with
  | S754_zero s | S754_infinity s | S754_finite s _ _ => negb s
  | S754_nan => false
  end.

(** The maximum of [torch.max]: a NaN operand gives NaN. *)
Definition max (x y : f32) : f32 :=
  if is_nan x || is_nan y then nan else if ltb x y then y else x.

(** [nn.ReLU]: the positive part, a NaN stays a NaN. *)
Definition relu (x : f32) : f32 :=
  if is_nan x then nan else if ltb zero x then x else zero.

End F32.

Import F32.

Arguments add : simpl never.
Arguments sub : simpl never.
Arguments mul : simpl never.
Arguments div : simpl never.
Arguments F32.max : simpl never.
Arguments relu : simpl never.
Arguments of_Z : simpl never.
Arguments of_nat : simpl never.

(** Equality up to the sign of a zero. *)
Definition feq (x y : f32) : Prop :=
  x = y \/ exists s s', x = S754_zero s /\ y = S754_zero s'.

(** ** Exceptions

    The Python exceptions the modelled calls raise; all of them derive
    from [Exception]. *)
Inductive exn : Type :=
| RuntimeError
| IndexError
| ValueError
| FileNotFoundError
| UnpicklingError.

Inductive result (A : Type) : Type :=
| Ok (a : A)
| Raise (e : exn).
Arguments Ok {A} a.
Arguments Raise {A} e.

#[global] Instance result_ret : MRet result := fun A a => Ok a.
#[global] Instance result_bind : MBind result := fun A B f m =>
  match m with Ok a => f a | Raise e => Raise e end.

(** ** Tensors

    A tensor is its shape and its elements in row-major order, the
    layout of a contiguous [torch.Tensor]. *)
Record tensor : Type := Tensor { shape : list nat; data : list f32 }.

Definition numel (s : list nat) : nat := fold_right Nat.mul 1%nat s.

(** The representation invariant of every tensor: as many elements as
    the shape says. *)
Definition wf (t : tensor) : Prop := length (data t) = numel (shape t).

(** The first [n] rows of a matrix with [k] columns. *)
Fixpoint rows (n k : nat) (d : list f32) : list (list f32) :=
  match n with
  | O => []
  | S n' => take k d :: rows n' k (drop k d)
  end.

(** Sums accumulate from [+0], left to right.  The library fixes the
    order of its reductions by kernel; the theorems on the network use
    [forward] as a whole and hold for any order. *)
Definition sum_list (l : list f32) : f32 := fold_left add l zero.

Definition max_list (l : list f32) : option f32 :=
  match l with
  | [] => None
  | x :: l' => Some (fold_left F32.max l' x)
  end.

Definition shape_eqb (s1 s2 : list nat) : bool := bool_decide (s1 = s2).

(** *** Broadcasting *)

(** The broadcast of two shapes, both given last dimension first. *)
Fixpoint broadcast_rev (s1 s2 : list nat) : option (list nat) :=
  match s1, s2 with
  | [], s | s, [] => Some s
  | a :: s1', b :: s2' =>
      if (a =? b)%nat then cons a <$> broadcast_rev s1' s2'
      else if (a =? 1)%nat then cons b <$> broadcast_rev s1' s2'
      else if (b =? 1)%nat then cons a <$> broadcast_rev s1' s2'
      else None
  end.

Definition broadcast_shapes (s1 s2 : list nat) : option (list nat) :=
  reverse <$> broadcast_rev (reverse s1) (reverse s2).

(** The elements of a tensor of shape [src] expanded to shape [dst];
    the two shapes have the same rank, and a dimension of [src] is the
    one of [dst] or 1. *)
Fixpoint expand_to (src dst : list nat) (d : list f32) : list f32 :=
  match src, dst with
  | n :: src', m :: dst' =>
      if (n =? m)%nat
      then flat_map (expand_to src' dst') (rows n (numel src') d)
      else flat_map (fun _ => expand_to src' dst' d) (seq 0 m)
  | _, _ => d
  end.

Definition expand (src dst : list nat) (d : list f32) : list f32 :=
  expand_to (repeat 1%nat (length dst - length src) ++ src) dst d.

(** An elementwise binary operation, its operands broadcast. *)
Definition binop (f : f32 -> f32 -> f32) (a b : tensor) : result tensor :=
  match broadcast_shapes (shape a) (shape b) with
  | None => Raise RuntimeError
  | Some s =>
      Ok (Tensor s (zip_with f (expand (shape a) s (data a))
                               (expand (shape b) s (data b))))
  end.

(** An elementwise operation with a Python scalar. *)
Definition pointwise (f : f32 -> f32) (a : tensor) : tensor :=
  Tensor (shape a) (map f (data a)).

(** *** The tensor operations of the source *)

(** [x.permute(0, 3, 1, 2)]: [batch, H, W, C] to [batch, C, H, W]. *)
Definition permute_0_3_1_2 (x : tensor) : result tensor :=
  match shape x with
  | [b; h; w; c] =>
      Ok (Tensor [b; c; h; w]
            (flat_map (fun bi =>
             flat_map (fun ci =>
             flat_map (fun hi =>
             map (fun wi => nth (((bi * h + hi) * w + wi) * c + ci) (data x) zero)
                 (seq 0 w)) (seq 0 h)) (seq 0 c)) (seq 0 b)))
  | _ => Raise RuntimeError
  end.

(** The input of a convolution at row [y] and column [x] of the image
    padded by one zero on every side. *)
Definition padded (d : list f32) (c h w bi ci y x : nat) : f32 :=
  if (1 <=? y)%nat && (y <=? h)%nat && (1 <=? x)%nat && (x <=? w)%nat
  then nth (((bi * c + ci) * h + (y - 1)) * w + (x - 1)) d zero
  else zero.

(** The dot product, accumulated from [+0], left to right. *)
Definition dot (xs ws : list f32) : f32 := sum_list (zip_with mul xs ws).

(** The 3 by 3 window of every channel around one output position. *)
Definition patch (d : list f32) (c h w bi y x : nat) : list f32 :=
  flat_map (fun ci =>
  flat_map (fun dy =>
  map (fun dx => padded d c h w bi ci (y + dy) (x + dx))
      (seq 0 3)) (seq 0 3)) (seq 0 c).

(** [nn.Conv2d(c, o, kernel_size=3, stride=1, padding=1)] on a batch
    of images: the products of one output element are summed channel by
    channel, kernel row by kernel row, and the bias is added last.  An
    image without rows or without columns is refused: padded, it is
    smaller than the kernel. *)
Definition conv2d (x wt bias : tensor) : result tensor :=
  match shape x, shape wt, shape bias with
  | [b; c; h; w], [o; c'; 3; 3], [o'] =>
      if (c =? c')%nat && (o =? o')%nat && (0 <? h)%nat && (0 <? w)%nat then
        Ok (Tensor [b; o; h; w]
              (flat_map (fun bi =>
                 let patches :=
                   flat_map (fun y => map (patch (data x) c h w bi y) (seq 0 w))
                            (seq 0 h) in
                 flat_map (fun '(kernel, bias_o) =>
                             map (fun p => add (dot p kernel) bias_o) patches)
                          (zip (rows o (c * 9) (data wt)) (data bias)))
                 (seq 0 b)))
      else Raise RuntimeError
  | _, _, _ => Raise RuntimeError
  end.

Definition relu_t (x : tensor) : tensor := pointwise relu x.

(** [torch.flatten(x, 1)]. *)
Definition flatten_1 (x : tensor) : result tensor :=
  match shape x with
  | b :: d :: rest => Ok (Tensor [b; numel (d :: rest)] (data x))
  | _ => Raise IndexError
  end.

(** [nn.Linear(i, o)]: [x @ wt.T + bias]. *)
Definition linear (x wt bias : tensor) : result tensor :=
  match shape x, shape wt, shape bias with
  | [n; i], [o; i'], [o'] =>
      if (i =? i')%nat && (o =? o')%nat then
        Ok (Tensor [n; o]
              (flat_map (fun xr =>
                 zip_with (fun wr bias_o => add (dot xr wr) bias_o)
                          (rows o i (data wt)) (data bias))
                 (rows n i (data x))))
      else Raise RuntimeError
  | _, _, _ => Raise RuntimeError
  end.

(** [torch.max(x, dim=1)[0]] of a matrix. *)
Definition max_dim1 (x : tensor) : result tensor :=
  match shape x with
  | [n; k] =>
      match k with
      | O => Raise IndexError
      | S _ =>
          Ok (Tensor [n] (map (fun r => default nan (max_list r))
                              (rows n k (data x))))
      end
  | _ => Raise IndexError
  end.

(** [torch.sum(x, dim=1)]. *)
Definition sum_dim1 (x : tensor) : result tensor :=
  match shape x with
  | n :: k :: rest =>
      let inner := numel rest in
      Ok (Tensor (n :: rest)
            (flat_map (fun bi =>
               map (fun r =>
                 sum_list (map (fun ki => nth ((bi * k + ki) * inner + r) (data x) zero)
                               (seq 0 k)))
                 (seq 0 inner))
               (seq 0 n)))
  | _ => Raise IndexError
  end.

(** [nn.MSELoss()]: the mean of the squared differences, a tensor with
    no dimension. *)
Definition mse_loss (input target : tensor) : result tensor :=
  d ← binop sub input target;
  let sq := map (fun x => mul x x) (data d) in
  Ok (Tensor [] [div (sum_list sq) (of_nat (length sq))]).

(** ** Autograd

    PyTorch records, for every tensor computed while gradient mode is
    on from an operand that requires grad, the operation and its
    operands; [backward] differentiates along that record and nothing
    else.  A tensor computed under [torch.no_grad()] carries no record
    and enters later operations as a constant. *)
Inductive opcode : Type :=
| OPermute
| OConv2d
| ORelu
| OFlatten
| OLinear
| OMaxDim1
| OSumDim1
| ORsub (c : f32)       (* c - x *)
| OMulScalar (c : f32)  (* x * c *)
| OMul
| OAdd
| OMseLoss.

Definition apply (o : opcode) (args : list tensor) : result tensor :=
  match o, args with
  | OPermute, [x] => permute_0_3_1_2 x
  | OConv2d, [x; w; b] => conv2d x w b
  | ORelu, [x] => Ok (relu_t x)
  | OFlatten, [x] => flatten_1 x
  | OLinear, [x; w; b] => linear x w b
  | OMaxDim1, [x] => max_dim1 x
  | OSumDim1, [x] => sum_dim1 x
  | ORsub c, [x] => Ok (pointwise (fun v => sub c v) x)
  | OMulScalar c, [x] => Ok (pointwise (fun v => mul v c) x)
  | OMul, [x; y] => binop mul x y
  | OAdd, [x; y] => binop add x y
  | OMseLoss, [x; y] => mse_loss x y
  | _, _ => Raise RuntimeError
  end.

(** The recorded history of a tensor: a parameter of the network (a
    leaf that requires grad), a constant, or an operation. *)
#[warnings="-register-all"]
Inductive node : Type :=
| NParam (name : string)
| NConst (t : tensor)
| NOp (o : opcode) (args : list node).

(** A tensor with its history; [None] when it does not require grad. *)
Record var : Type := Var { value : tensor; grad_fn : option node }.

Definition constant (t : tensor) : var := Var t None.
Definition parameter (name : string) (t : tensor) : var := Var t (Some (NParam name)).

Definition requires_grad (v : var) : bool :=
  match grad_fn v with Some _ => true | None => false end.

Definition node_of (v : var) : node :=
  match grad_fn v with Some n => n | None => NConst (value v) end.

(** Computations that read the gradient mode and may raise. *)
Definition torch (A : Type) : Type := bool -> result A.

#[global] Instance torch_ret : MRet torch := fun A a _ => Ok a.
#[global] Instance torch_bind : MBind torch := fun A B f m g =>
  match m g with Ok a => f a g | Raise e => Raise e end.

(** [with torch.no_grad(): c]. *)
Definition no_grad {A} (c : torch A) : torch A := fun _ => c false.

(** One tensor operation: its value, and its record when gradient mode
    is on and an operand requires grad. *)
Definition op (o : opcode) (args : list var) : torch var := fun g =>
  v ← apply o (map value args);
  Ok (Var v (if g && existsb requires_grad args
             then Some (NOp o (map node_of args)) else None)).

(** ** The network *)

Record config : Type := Config {
  width : nat;
  height : nat;
  lr : f32;
  discount : f32;
  load_file : option string
}.

(** The parameters of the four layers. *)
Record net_params : Type := Net {
  conv1_weight : tensor;
  conv1_bias : tensor;
  conv2_weight : tensor;
  conv2_bias : tensor;
  fc3_weight : tensor;
  fc3_bias : tensor;
  fc4_weight : tensor;
  fc4_bias : tensor
}.

(** The shapes [__init__] gives the layers. *)
Definition arch (p : config) (n : net_params) : Prop :=
  shape (conv1_weight n) = [16; 6; 3; 3] /\ shape (conv1_bias n) = [16] /\
  shape (conv2_weight n) = [32; 16; 3; 3] /\ shape (conv2_bias n) = [32] /\
  shape (fc3_weight n) = [256; 32 * width p * height p] /\
  shape (fc3_bias n) = [256] /\
  shape (fc4_weight n) = [4; 256] /\ shape (fc4_bias n) = [4].

(** [DQN.forward]. *)
Definition forward (n : net_params) (x : var) : torch var :=
  x ← op OConv2d [x; parameter "conv1.weight" (conv1_weight n);
                     parameter "conv1.bias" (conv1_bias n)];
  x ← op ORelu [x];
  x ← op OConv2d [x; parameter "conv2.weight" (conv2_weight n);
                     parameter "conv2.bias" (conv2_bias n)];
  x ← op ORelu [x];
  x ← op OFlatten [x];
  x ← op OLinear [x; parameter "fc3.weight" (fc3_weight n);
                     parameter "fc3.bias" (fc3_bias n)];
  x ← op ORelu [x];
  op OLinear [x; parameter "fc4.weight" (fc4_weight n);
                 parameter "fc4.bias" (fc4_bias n)].

(** Whether a call returned. *)
Definition is_ok {A} (r : result A) : bool :=
  match r with Ok _ => true | Raise _ => false end.

#[global] Instance result_fmap : FMap result := fun A B f m =>
  match m with Ok a => Ok (f a) | Raise e => Raise e end.

(** The output of the network on a batch of observations. *)
Definition forward_value (n : net_params) (x : tensor) : result tensor :=
  value <$> forward n (constant x) false.

(** The representation invariant of the network of a trainer: the
    shapes of the architecture, every tensor with as many elements as
    its shape says. *)
Definition well_formed (p : config) (n : net_params) : Prop :=
  arch p n /\
  wf (conv1_weight n) /\ wf (conv1_bias n) /\
  wf (conv2_weight n) /\ wf (conv2_bias n) /\
  wf (fc3_weight n) /\ wf (fc3_bias n) /\
  wf (fc4_weight n) /\ wf (fc4_bias n).

(** The batch contract: [B] transitions on an [h] by [w] grid of six
    channels, channel last, with one-dimensional terminal flags and
    rewards and an action vector of length 4 per transition. *)
Definition batch_of (B h w : nat) (bat_s bat_a bat_t bat_n bat_r : tensor) : Prop :=
  shape bat_s = [B; h; w; 6] /\ wf bat_s /\
  shape bat_a = [B; 4] /\ wf bat_a /\
  shape bat_t = [B] /\ wf bat_t /\
  shape bat_n = [B; h; w; 6] /\ wf bat_n /\
  shape bat_r = [B] /\ wf bat_r.

(** A one-hot vector: 1 at index [j], 0 elsewhere. *)
Definition one_hot (j : nat) (a : list f32) : Prop :=
  (j < length a)%nat /\ a = <[j := one]> (replicate (length a) zero).

(** ** Checkpoint files *)

(** [self.state_dict()]: the parameter tensors keyed by layer name.
    The activations and the loss module hold no tensor, and the
    optimizer is not a module. *)
Definition state_dict (n : net_params) : gmap string tensor :=
  list_to_map
    [("conv1.weight", conv1_weight n); ("conv1.bias", conv1_bias n);
     ("conv2.weight", conv2_weight n); ("conv2.bias", conv2_bias n);
     ("fc3.weight", fc3_weight n); ("fc3.bias", fc3_bias n);
     ("fc4.weight", fc4_weight n); ("fc4.bias", fc4_bias n)].

Definition param_names : gset string :=
  list_to_set ["conv1.weight"; "conv1.bias"; "conv2.weight"; "conv2.bias";
               "fc3.weight"; "fc3.bias"; "fc4.weight"; "fc4.bias"].

(** What a path of the file system holds: a pickled state dictionary,
    or anything [torch.load] cannot turn into one. *)
Inductive file : Type :=
| Checkpoint (sd : gmap string tensor)
| Unreadable.

(** [torch.load(path)]. *)
Definition torch_load (fs : gmap string file) (path : string)
  : result (gmap string tensor) :=
  match fs !! path with
  | Some (Checkpoint sd) => Ok sd
  | Some Unreadable => Raise UnpicklingError
  | None => Raise FileNotFoundError
  end.

(** [torch.save(obj, path)]. *)
Definition torch_save (sd : gmap string tensor) (path : string)
    (fs : gmap string file) : gmap string file :=
  <[path := Checkpoint sd]> fs.

(** One parameter of [load_state_dict]: it is overwritten in place when
    the dictionary has a tensor of its shape under its name; otherwise
    it is kept and the key is reported. *)
Definition load_param (sd : gmap string tensor) (name : string) (cur : tensor)
  : tensor * bool :=
  match sd !! name with
  | Some t => if shape_eqb (shape t) (shape cur) then (t, true) else (cur, false)
  | None => (cur, false)
  end.

(** [Module.load_state_dict(sd)], strict: every parameter is visited
    and the matching ones are copied; the missing, mismatched and
    unexpected keys are reported by one [RuntimeError] raised after the
    copies.  The result is the parameters after the call and whether it
    returned. *)
Definition load_state_dict (n : net_params) (sd : gmap string tensor)
  : net_params * result unit :=
  let '(c1w, k1) := load_param sd "conv1.weight" (conv1_weight n) in
  let '(c1b, k2) := load_param sd "conv1.bias" (conv1_bias n) in
  let '(c2w, k3) := load_param sd "conv2.weight" (conv2_weight n) in
  let '(c2b, k4) := load_param sd "conv2.bias" (conv2_bias n) in
  let '(f3w, k5) := load_param sd "fc3.weight" (fc3_weight n) in
  let '(f3b, k6) := load_param sd "fc3.bias" (fc3_bias n) in
  let '(f4w, k7) := load_param sd "fc4.weight" (fc4_weight n) in
  let '(f4b, k8) := load_param sd "fc4.bias" (fc4_bias n) in
  (Net c1w c1b c2w c2b f3w f3b f4w f4b,
   if k1 && k2 && k3 && k4 && k5 && k6 && k7 && k8
      && bool_decide (dom sd ⊆ param_names)
   then Ok tt else Raise RuntimeError).

(** ** Recorded histories *)

(** The recorded history of the output of [forward] on an input with
    history [x], and of the loss of [train_step] on a state, an action
    and a target that are constants. *)
Definition forward_graph (x : node) : node :=
  NOp OLinear
    [NOp ORelu
       [NOp OLinear
          [NOp OFlatten
             [NOp ORelu
                [NOp OConv2d
                   [NOp ORelu
                      [NOp OConv2d [x; NParam "conv1.weight"; NParam "conv1.bias"]];
                    NParam "conv2.weight"; NParam "conv2.bias"]]];
           NParam "fc3.weight"; NParam "fc3.bias"]];
     NParam "fc4.weight"; NParam "fc4.bias"].

Definition loss_graph (state action target : tensor) : node :=
  NOp OMseLoss
    [NOp OSumDim1 [NOp OMul [forward_graph (NConst state); NConst action]];
     NConst target].

(** The loss as a function of the parameters, the target being a
    given tensor. *)
Definition loss_of (state action target : tensor) (n : net_params) : result tensor :=
  q ← forward_value n state;
  m ← binop mul q action;
  p ← sum_dim1 m;
  mse_loss p target.

(** The value of a recorded history for given parameters: what
    [backward] differentiates, as a function of the parameters. *)
Fixpoint eval (n : net_params) (g : node) : result tensor :=
  match g with
  | NParam name =>
      match state_dict n !! name with
      | Some t => Ok t
      | None => Raise RuntimeError
      end
  | NConst t => Ok t
  | NOp o args =>
      vs ← (fix go (l : list node) : result (list tensor) :=
              match l with
              | [] => Ok []
              | a :: l' => v ← eval n a; vs ← go l'; Ok (v :: vs)
              end) args;
      apply o vs
  end.

(** ** Strings *)

(** [s.split(sep)] for a one-character separator. *)
Fixpoint split (sep : ascii) (s : string) : list string :=
  match s with
  | EmptyString => [EmptyString]
  | String c s' =>
      if Ascii.eqb c sep then EmptyString :: split sep s'
      else match split sep s' with
           | h :: t => String c h :: t
           | [] => [String c EmptyString]
           end
  end.

(** The fields of [split] joined by the separator. *)
Fixpoint join (sep : ascii) (l : list string) : string :=
  match l with
  | [] => EmptyString
  | [h] => h
  | h :: t => h +:+ String sep (join sep t)
  end.

(** [l[-2]]. *)
Definition second_to_last {A} (l : list A) : result A :=
  match reverse l with
  | _ :: x :: _ => Ok x
  | _ => Raise IndexError
  end.

(** *** Text and code points

    A [str] is held as its UTF-8 encoding, the bytes a file name has
    on disk and a string literal denotes here.  [split] on an ASCII
    separator cuts the encoding where it cuts the text.  [int] works on
    the code points. *)

Definition continuation (b : N) : bool := ((0x80 <=? b) && (b <=? 0xBF))%N.

(** The code points of a [str]: the UTF-8 sequences decoded, a byte
    that belongs to none standing for the lone surrogate
    [U+DC00 + byte], as in [os.fsdecode]. *)
Fixpoint code_points (s : string) : list N :=
  match s with
  | EmptyString => []
  | String c0 s1 =>
      let b0 := N_of_ascii c0 in
      let escaped (_ : unit) := (0xDC00 + b0)%N :: code_points s1 in
      if (b0 <? 0x80)%N then b0 :: code_points s1 else
      match s1 with
      | EmptyString => escaped tt
      | String c1 s2 =>
          let b1 := N_of_ascii c1 in
          if ((0xC2 <=? b0) && (b0 <=? 0xDF))%N then
            if continuation b1
            then ((b0 - 0xC0) * 0x40 + (b1 - 0x80))%N :: code_points s2
            else escaped tt
          else
          match s2 with
          | EmptyString => escaped tt
          | String c2 s3 =>
              let b2 := N_of_ascii c2 in
              if ((0xE0 <=? b0) && (b0 <=? 0xEF))%N then
                let c := ((b0 - 0xE0) * 0x1000 + (b1 - 0x80) * 0x40 + (b2 - 0x80))%N in
                if continuation b1 && continuation b2 && (0x800 <=? c)%N
                   && negb ((0xD800 <=? c) && (c <=? 0xDFFF))%N
                then c :: code_points s3
                else escaped tt
              else
              match s3 with
              | EmptyString => escaped tt
              | String c3 s4 =>
                  let b3 := N_of_ascii c3 in
                  let c := ((b0 - 0xF0) * 0x40000 + (b1 - 0x80) * 0x1000
                            + (b2 - 0x80) * 0x40 + (b3 - 0x80))%N in
                  if ((0xF0 <=? b0) && (b0 <=? 0xF4))%N
                     && continuation b1 && continuation b2 && continuation b3
                     && ((0x10000 <=? c) && (c <=? 0x10FFFF))%N
                  then c :: code_points s4
                  else escaped tt
              end
          end
      end
  end.

(** *** The interpreter

    What [int] and [str] take from the interpreter that runs the
    program: the decimal digits of its Unicode database
    ([unicodedata.decimal]: the value of a code point that is a decimal
    digit) and the limit on the number of digits of a converted integer
    ([sys.get_int_max_str_digits()]; 0 when there is no limit, as in the
    interpreters that have no such setting). *)
Class Interpreter : Type := Build_Interpreter {
  decimal : N -> option N;
  int_max_str_digits : nat
}.

(** The decimal digits of Unicode 14.0: the code point of the zero of
    every run of the ten digits 0 to 9. *)
Definition unicode_14_zeros : list N :=
  [0x30; 0x660; 0x6F0; 0x7C0; 0x966; 0x9E6; 0xA66; 0xAE6; 0xB66; 0xBE6;
   0xC66; 0xCE6; 0xD66; 0xDE6; 0xE50; 0xED0; 0xF20; 0x1040; 0x1090; 0x17E0;
   0x1810; 0x1946; 0x19D0; 0x1A80; 0x1A90; 0x1B50; 0x1BB0; 0x1C40; 0x1C50;
   0xA620; 0xA8D0; 0xA900; 0xA9D0; 0xA9F0; 0xAA50; 0xABF0; 0xFF10; 0x104A0;
   0x10D30; 0x11066; 0x110F0; 0x11136; 0x111D0; 0x112F0; 0x11450; 0x114D0;
   0x11650; 0x116C0; 0x11730; 0x118E0; 0x11950; 0x11C50; 0x11D50; 0x11DA0;
   0x16A60; 0x16AC0; 0x16B50; 0x1D7CE; 0x1D7D8; 0x1D7E2; 0x1D7EC; 0x1D7F6;
   0x1E140; 0x1E2F0; 0x1E950; 0x1FBF0]%N.

Definition unicode_14_decimal (ch : N) : option N :=
  (fun z => ch - z)%N <$> List.find (fun z => (z <=? ch) && (ch <? z + 10))%N
                                    unicode_14_zeros.

(** CPython 3.11: Unicode 14.0, at most 4300 digits. *)
Definition cpython_3_11 : Interpreter := Build_Interpreter unicode_14_decimal 4300.

Section Conversions.

Context {interpreter : Interpreter}.

(** The white space [int] strips from an ASCII text ([Py_ISSPACE]):
    tab, line feed, vertical tab, form feed, carriage return, space. *)
Definition Py_ISSPACE (c : N) : bool := ((9 <=? c) && (c <=? 13) || (c =? 32))%N.

(** The white space beyond the ASCII range ([Py_UNICODE_ISSPACE] on a
    code point from 127 on). *)
Definition Py_UNICODE_ISSPACE (ch : N) : bool :=
  bool_decide (ch ∈ [0x85; 0xA0; 0x1680; 0x2028; 0x2029; 0x202F; 0x205F; 0x3000]%N)
  || ((0x2000 <=? ch) && (ch <=? 0x200A))%N.

(** What [int] does to a text before it parses it
    ([_PyUnicode_TransformDecimalAndSpaceToASCII]): an ASCII text is
    taken as it is; in any other text a code point below 127 is kept,
    white space becomes a space, a decimal digit becomes its ASCII
    digit, and anything else a question mark, on which the parse fails
    wherever it stands. *)
Definition to_ascii (text : list N) : list N :=
  if forallb (fun ch => ch <? 128)%N text then text
  else map (fun ch =>
              if (ch <? 127)%N then ch
              else if Py_UNICODE_ISSPACE ch then 32%N
              else match decimal ch with
                   | Some d => (48 + d)%N
                   | None => 63%N
                   end) text.

Definition is_digit (c : N) : bool := ((48 <=? c) && (c <=? 57))%N.

Definition digit_of (c : N) : option Z :=
  if is_digit c then Some (Z.of_N (c - 48)) else None.

Fixpoint lstrip (s : list N) : list N :=
  match s with
  | c :: s' => if Py_ISSPACE c then lstrip s' else s
  | [] => s
  end.

(** Decimal digits, with single underscores between digits, up to
    trailing white space. *)
Fixpoint digits (acc : Z) (after_digit : bool) (s : list N) : option Z :=
  match s with
  | [] => if after_digit then Some acc else None
  | c :: s' =>
      match digit_of c with
      | Some d => digits (10 * acc + d) true s'
      | None =>
          if (c =? 95)%N then
            if after_digit then digits acc false s' else None
          else if Py_ISSPACE c && after_digit then
            match lstrip s' with [] => Some acc | _ => None end
          else None
      end
  end.

(** Whether a conversion of [n] digits exceeds the limit of the
    interpreter; up to 640 digits are always converted. *)
Definition too_long (n : nat) : bool :=
  ((640 <? n) && (0 <? int_max_str_digits) && (int_max_str_digits <? n))%nat.

(** The sign in front of the digits, and what follows it. *)
Definition signed (t : list N) : Z * list N :=
  match t with
  | 45%N :: t' => ((-1)%Z, t')
  | 43%N :: t' => (1%Z, t')
  | _ => (1%Z, t)
  end.

(** [int(s)] of a [str]: white space, a sign, the digits, white
    space; anything else, or too many digits, is a [ValueError]. *)
Definition int (s : string) : result Z :=
  let '(sign, t) := signed (lstrip (to_ascii (code_points s))) in
  match digits 0 false t with
  | Some n =>
      if too_long (length (List.filter is_digit t)) then Raise ValueError
      else Ok (sign * n)%Z
  | None => Raise ValueError
  end.

End Conversions.

(** [os.path.basename(path)]. *)
Definition basename (path : string) : string :=
  default EmptyString (last (split "/" path)).

(** ** The trainer *)

Section Trainer.

(** The state of [optim.Adam] and the effect of
    [optimizer.zero_grad(); loss.backward(); optimizer.step()]: the
    update of the parameters and of the optimizer's state computed from
    the recorded history of the loss.  Their arithmetic is the
    library's; the development holds for every such function. *)
Variable opt_state : Type.
Variable optimizer_step : opt_state -> net_params -> node -> net_params * opt_state.

(** The interpreter that runs the program. *)
Context {interpreter : Interpreter}.

(** An instance of [class DQN]. *)
Record DQN : Type := Build_DQN {
  params : config;
  net : net_params;
  optimizer : opt_state;
  global_step : Z
}.

(** The [try] block of [__init__] (lines 62 to 65): the object after
    the block, and whether the block ran to its end. *)
Definition load_checkpoint (fs : gmap string file) (path : string) (self : DQN)
  : DQN * result unit :=
  match torch_load fs path with
  | Raise e => (self, Raise e)
  | Ok sd =>
      let '(n, r) := load_state_dict (net self) sd in
      let self := Build_DQN (params self) n (optimizer self) (global_step self) in
      match r with
      | Raise e => (self, Raise e)
      | Ok _ =>
          match second_to_last (split "_" path) with
          | Raise e => (self, Raise e)
          | Ok step_str =>
              match int step_str with
              | Raise e => (self, Raise e)
              | Ok n' =>
                  (Build_DQN (params self) (net self) (optimizer self) n', Ok tt)
              end
          end
      end
  end.

(** [DQN.__init__] from line 56 on: [init] and [opt] are the freshly
    initialised parameters and optimizer built by lines 21 to 53.  The
    [except] clause only prints. *)
Definition __init__ (p : config) (fs : gmap string file)
    (init : net_params) (opt : opt_state) : DQN :=
  let self := Build_DQN p init opt 0 in
  match load_file p with
  | Some path =>
      if bool_decide (is_Some (fs !! path))
      then fst (load_checkpoint fs path self)
      else self
  | None => self
  end.

(** The local variables of [train_step] when the loss has been
    computed (line 138). *)
Record locals : Type := Locals {
  q_next : var;
  q_t : var;
  yj : var;
  q_pred_all_actions : var;
  q_pred : var;
  loss : var
}.

(** Lines 98 to 138 of [train_step]; the arguments are the batch
    already converted to single precision. *)
Definition train_step_locals (self : DQN) (bat_s bat_a bat_t bat_n bat_r : tensor)
  : torch locals :=
  let bat_s := constant bat_s in
  let bat_a := constant bat_a in
  let bat_t := constant bat_t in
  let bat_n := constant bat_n in
  let bat_r := constant bat_r in
  bat_s ← op OPermute [bat_s];
  bat_n ← op OPermute [bat_n];
  '(q_next, q_t, yj) ← no_grad (
    q_next ← forward (net self) bat_n;
    q_t ← op OMaxDim1 [q_next];
    yj ← (a ← op (ORsub one) [bat_t];
          b ← op (OMulScalar (discount (params self))) [a];
          c ← op OMul [b; q_t];
          op OAdd [bat_r; c]);
    mret (q_next, q_t, yj));
  q_pred_all_actions ← forward (net self) bat_s;
  q_pred ← (m ← op OMul [q_pred_all_actions; bat_a]; op OSumDim1 [m]);
  loss ← op OMseLoss [q_pred; yj];
  mret (Locals q_next q_t yj q_pred_all_actions q_pred loss).

(** [t.item()]. *)
Definition item (t : tensor) : result f32 :=
  match data t with
  | [x] => Ok x
  | _ => Raise RuntimeError
  end.

(** [DQN.train_step]: the object after the call and the returned pair.
    Nothing is assigned before the last operation that can raise, so a
    call that raises leaves the object as it was. *)
Definition train_step (self : DQN) (bat_s bat_a bat_t bat_n bat_r : tensor)
  : result (DQN * (Z * f32)) :=
  l ← train_step_locals self bat_s bat_a bat_t bat_n bat_r true;
  match grad_fn (loss l) with
  | None => Raise RuntimeError
  | Some g =>
      let '(n, o) := optimizer_step (optimizer self) (net self) g in
      let self' := Build_DQN (params self) n o (global_step self + 1) in
      v ← item (value (loss l));
      Ok (self', (global_step self', v))
  end.

(** One sampled minibatch: the five arrays passed to [train_step]. *)
Record batch : Type := Batch {
  states : tensor;
  actions : tensor;
  terminals : tensor;
  next_states : tensor;
  rewards : tensor
}.

Definition update (self : DQN) (b : batch) : result (DQN * (Z * f32)) :=
  train_step self (states b) (actions b) (terminals b) (next_states b) (rewards b).

(** The training loop: [train_step] on one batch after the other; the
    object and the returned pair after every call, unless a call
    raises. *)
Fixpoint train_steps (self : DQN) (bs : list batch)
  : result (list (DQN * (Z * f32))) :=
  match bs with
  | [] => Ok []
  | b :: bs' =>
      r ← update self b;
      rest ← train_steps (fst r) bs';
      Ok (r :: rest)
  end.

(** The object before call [i] of a run of the loop. *)
Definition before (self : DQN) (run : list (DQN * (Z * f32))) (i : nat) : DQN :=
  match i with
  | O => self
  | S j => default self (fst <$> run !! j)
  end.

(** [DQN.save_ckpt]. *)
Definition save_ckpt (self : DQN) (filename : string) (fs : gmap string file)
  : gmap string file :=
  torch_save (state_dict (net self)) filename fs.

End Trainer.

Arguments Build_DQN {opt_state}.
Arguments params {opt_state}.
Arguments net {opt_state}.
Arguments optimizer {opt_state}.
Arguments global_step {opt_state}.
Arguments load_checkpoint {opt_state interpreter}.
Arguments __init__ {opt_state interpreter}.
Arguments train_step_locals {opt_state}.
Arguments train_step {opt_state}.
Arguments save_ckpt {opt_state}.
Arguments update {opt_state}.
Arguments train_steps {opt_state}.
Arguments before {opt_state}.
(** ** Step counts in file names *)

From Stdlib Require DecimalString DecimalNat DecimalPos DecimalZ.

Section Naming.

Context {interpreter : Interpreter}.

(** [str(z)] of a Python integer: its decimal digits without leading
    zeros, after a minus sign when it is negative; a [ValueError] when
    the digits exceed the limit of the interpreter.  The training
    script writes the step count into the name of a checkpoint this
    way, and [__init__] reads it back with [int]. *)
Definition str (z : Z) : result string :=
  let digits := DecimalString.NilZero.string_of_uint (N.to_uint (Z.abs_N z)) in
  let text := if (z <? 0)%Z then String "-" digits else digits in
  if ((640 <? String.length text) && (0 <? int_max_str_digits)
      && (int_max_str_digits <? String.length digits))%nat
  then Raise ValueError
  else Ok text.

End Naming.

(** * Keyboard agents (keyboardAgents.py) *)

Module Keyboard.

(** The constants of [game.Directions] an agent returns: five distinct
    strings, declared in [game.py]. *)
Inductive direction : Type := NORTH | SOUTH | EAST | WEST | STOP.

#[global] Instance direction_eq_dec : EqDecision direction.
Proof. solve_decision. Defined.

(** [x in l]. *)
Definition mem {A} `{EqDecision A} (x : A) (l : list A) : bool :=
  bool_decide (x ∈ l).

(** The class attributes of a keyboard agent: its five keys, and the
    [getMove] its class defines. *)
Inductive class : Type := KeyboardAgent | KeyboardAgent2.

Definition WEST_KEY (c : class) : string :=
  match c with KeyboardAgent => "a" | KeyboardAgent2 => "j" end.
Definition EAST_KEY (c : class) : string :=
  match c with KeyboardAgent => "d" | KeyboardAgent2 => "l" end.
Definition NORTH_KEY (c : class) : string :=
  match c with KeyboardAgent => "w" | KeyboardAgent2 => "i" end.
Definition SOUTH_KEY (c : class) : string :=
  match c with KeyboardAgent => "s" | KeyboardAgent2 => "k" end.
Definition STOP_KEY (c : class) : string :=
  match c with KeyboardAgent => "q" | KeyboardAgent2 => "u" end.

(** The instance attributes of an agent. *)
Record agent : Type := Agent {
  cls : class;
  index : nat;
  lastMove : direction;
  keys : list string
}.

(** [KeyboardAgent.__init__] and the inherited one of
    [KeyboardAgent2]. *)
Definition __init__ (c : class) (index : nat) : agent := Agent c index STOP [].

(** [getMove] of the two classes: the four tests run in the order west,
    east, north, south, each overwriting the move of the one before. *)
Definition getMove (self : agent) (legal : list direction) : direction :=
  match cls self with
  | KeyboardAgent =>
      let move := STOP in
      let move :=
        if (mem (WEST_KEY KeyboardAgent) (keys self) || mem "Left" (keys self))
           && mem WEST legal then WEST else move in
      let move :=
        if (mem (EAST_KEY KeyboardAgent) (keys self) || mem "Right" (keys self))
           && mem EAST legal then EAST else move in
      let move :=
        if (mem (NORTH_KEY KeyboardAgent) (keys self) || mem "Up" (keys self))
           && mem NORTH legal then NORTH else move in
      let move :=
        if (mem (SOUTH_KEY KeyboardAgent) (keys self) || mem "Down" (keys self))
           && mem SOUTH legal then SOUTH else move in
      move
  | KeyboardAgent2 =>
      let move := STOP in
      let move :=
        if mem (WEST_KEY KeyboardAgent2) (keys self) && mem WEST legal
        then WEST else move in
      let move :=
        if mem (EAST_KEY KeyboardAgent2) (keys self) && mem EAST legal
        then EAST else move in
      let move :=
        if mem (NORTH_KEY KeyboardAgent2) (keys self) && mem NORTH legal
        then NORTH else move in
      let move :=
        if mem (SOUTH_KEY KeyboardAgent2) (keys self) && mem SOUTH legal
        then SOUTH else move in
      move
  end.

(** [random.choice(seq)]: the element at the index the generator draws
    below the length; an empty sequence raises [IndexError]. *)
Definition random_choice {A} (draw : nat) (l : list A) : result A :=
  match l !! (draw `mod` length l)%nat with
  | Some x => Ok x
  | None => Raise IndexError
  end.

(** Lines 33 to 35 of [getAction], [if keys: self.keys = keys]: the
    keys of the agent are replaced when some key arrived. *)
Definition with_keys (self : agent) (keys : list string) : agent :=
  match keys with
  | [] => self
  | _ => Agent (cls self) (index self) (lastMove self) keys
  end.

(** [KeyboardAgent.getAction]: [waiting] and [pressed] are what
    [keys_waiting()] and [keys_pressed()] return, [legal] is
    [state.getLegalActions(self.index)], and [draw] is the number the
    random generator would draw.  The result is the agent after the
    call and the move returned. *)
Definition getAction (self : agent) (waiting pressed : list string)
    (legal : list direction) (draw : nat) : result (agent * direction) :=
  let self := with_keys self (waiting ++ pressed) in
  let move := getMove self legal in
  let move :=
    if bool_decide (move = STOP) && mem (lastMove self) legal
    then lastMove self else move in
  let move :=
    if mem (STOP_KEY (cls self)) (keys self) && mem STOP legal
    then STOP else move in
  move ← (if negb (mem move legal) then random_choice draw legal else Ok move);
  Ok (Agent (cls self) (index self) move (keys self), move).

(** The direction keys of an agent that are held: the key of its
    class, and for the first player the arrow key as well. *)
Definition held (self : agent) (d : direction) : bool :=
  let arrow (name : string) :=
    match cls self with
    | KeyboardAgent => mem name (keys self)
    | KeyboardAgent2 => false
    end in
  match d with
  | WEST => mem (WEST_KEY (cls self)) (keys self) || arrow "Left"
  | EAST => mem (EAST_KEY (cls self)) (keys self) || arrow "Right"
  | NORTH => mem (NORTH_KEY (cls self)) (keys self) || arrow "Up"
  | SOUTH => mem (SOUTH_KEY (cls self)) (keys self) || arrow "Down"
  | STOP => mem (STOP_KEY (cls self)) (keys self)
  end.

End Keyboard.

(** * The text display (textDisplay.py) *)

Module TextDisplay.

(** What a call does, in order: [print(state)],
    [time.sleep(SLEEP_TIME)], and the call of [_printMoveInfo], which
    prints one line, or nothing when its [try] block raises. *)
Inductive event (S : Type) : Type :=
| Print (state : S)
| Sleep
| MoveInfo (turn : Z) (state : S).
Arguments Print {S} state.
Arguments Sleep {S}.
Arguments MoveInfo {S} turn state.

(** The exceptions of a call: the [ZeroDivisionError] of [%], and
    what [time.sleep] raises: [ValueError] on a negative number or a
    NaN, [OverflowError] on a number too large, [TypeError] on what is
    no number. *)
Inductive exception : Type :=
| ZeroDivisionError
| ValueError
| OverflowError
| TypeError.

(** The attributes [turn] and [agentCounter] of a [PacmanGraphics]. *)
Record PacmanGraphics : Type := Build_PacmanGraphics {
  turn : Z;
  agentCounter : Z
}.

(** A call returns, or raises: the object and the events are then the
    ones at the statement that raised. *)
Inductive outcome (S : Type) : Type :=
| Returns (a : PacmanGraphics * list (event S))
| Raises (e : exception) (self : PacmanGraphics) (out : list (event S)).
Arguments Returns {S} a.
Arguments Raises {S} e self out.

Section Display.

(** The game state is an object of [pacman.py]; the display reads
    [len(state.agentStates)] and the attributes [_win] and [_lose]
    ([False] when absent). *)
Context {S : Type}.
Variable agentStates : S -> nat.
Variable _win _lose : S -> bool.

(** The module globals [DRAW_EVERY] (1 in the source) and
    [DISPLAY_MOVES] ([False] in the source); other modules may assign
    them. *)
Variable DRAW_EVERY : Z.
Variable DISPLAY_MOVES : bool.

(** What [time.sleep(SLEEP_TIME)] does with the value the module
    global [SLEEP_TIME] holds (0 in the source; [PacmanGraphics(speed)]
    and other modules assign it): it returns ([None]), or raises. *)
Variable sleep : option exception.

(** Whether the game is over:
    [getattr(state, "_win", False) or getattr(state, "_lose", False)]. *)
Definition final (state : S) : bool := _win state || _lose state.

(** [PacmanGraphics.draw]: [print(state)]. *)
Definition draw (state : S) : list (event S) := [Print state].

(** [PacmanGraphics.pause]: [time.sleep(SLEEP_TIME)]; the exception
    when it raises. *)
Definition pause : option exception := sleep.

(** [PacmanGraphics.initialize]: the counters are reset after the
    pause. *)
Definition initialize (self : PacmanGraphics) (state : S) : outcome S :=
  let out := draw state in
  match pause with
  | Some e => Raises e self out
  | None => Returns (Build_PacmanGraphics 0 0, out ++ [Sleep])
  end.

(** [PacmanGraphics.update]: the display after the call and what the
    call wrote. *)
Definition update (self : PacmanGraphics) (state : S) : outcome S :=
  let numAgents := Z.of_nat (agentStates state) in
  if (numAgents =? 0)%Z then Raises ZeroDivisionError self [] else
  let self :=
    Build_PacmanGraphics (turn self) ((agentCounter self + 1) `mod` numAgents) in
  let finish (self : PacmanGraphics) (out : list (event S)) :=
    Returns (self, out ++ if final state then draw state else []) in
  if (agentCounter self =? 0)%Z then
    let self := Build_PacmanGraphics (turn self + 1) (agentCounter self) in
    let out := if DISPLAY_MOVES then [MoveInfo (turn self) state] else [] in
    if (DRAW_EVERY =? 0)%Z then Raises ZeroDivisionError self out else
    if (turn self `mod` DRAW_EVERY =? 0)%Z then
      let out := out ++ draw state in
      match pause with
      | Some e => Raises e self out
      | None => finish self (out ++ [Sleep])
      end
    else finish self out
  else finish self [].

(** The game loop: [update] after every move; the display after the
    last call and everything written, up to the call that raises. *)
Fixpoint updates (self : PacmanGraphics) (states : list S) : outcome S :=
  match states with
  | [] => Returns (self, [])
  | state :: rest =>
      match update self state with
      | Raises e self' out => Raises e self' out
      | Returns (self', out) =>
          match updates self' rest with
          | Raises e self'' out' => Raises e self'' (out ++ out')
          | Returns (self'', out') => Returns (self'', out ++ out')
          end
      end
  end.

End Display.

(** The boards printed among the events of a run. *)
Definition is_print {S} (e : event S) : bool :=
  match e with Print _ => true | _ => false end.

Definition boards {S} (out : list (event S)) : nat :=
  length (List.filter is_print out).

End TextDisplay.

(** * Maze layouts (layout.py) *)

Module Layout.

Definition pos : Type := (nat * nat)%type.

(** ** The grid of [game.py]

    [Grid] is a class of [game.py].  The layout uses its constructor
    [Grid(width, height, initialValue)], the access [g[x][y]] and
    [asList()]: a list of [width] columns of [height] cells,
    enumerated column by column. *)
Definition Grid : Type := list (list bool).

Definition new_grid (width height : nat) (initialValue : bool) : Grid :=
  replicate width (replicate height initialValue).

(** [g[x][y]] for [x] and [y] in range. *)
Definition get (g : Grid) (x y : nat) : option bool := g !! x ≫= (.!! y).

(** [g[x][y] = v] for [x] and [y] in range. *)
Definition set (g : Grid) (x y : nat) (v : bool) : Grid :=
  alter (fun column => <[y := v]> column) x g.

(** The representation invariant: [w] columns of [h] cells. *)
Definition sized (w h : nat) (g : Grid) : Prop :=
  length g = w /\ Forall (fun column => length column = h) g.

Definition asList (g : Grid) : list pos :=
  flat_map (fun x =>
    flat_map (fun y => if default false (get g x y) then [(x, y)] else [])
             (seq 0 (length (default [] (g !! x)))))
    (seq 0 (length g)).

(** ** The attributes of a layout *)

(** The attributes [processLayoutChar] assigns, [agentPositions]
    still holding the pairs of an agent number and a position. *)
Record attributes : Type := Attributes {
  walls : Grid;
  food : Grid;
  capsules : list pos;
  agents : list (nat * pos);
  numGhosts : nat
}.

Record Layout : Type := Build_Layout {
  width : nat;
  height : nat;
  attrs : attributes;
  agentPositions : list (bool * pos);
  layoutText : list string;
  totalFood : nat
}.

(** [for a in l: body], the body raising or returning the next state. *)
Fixpoint for_each {A St : Type} (l : list A) (body : A -> St -> result St) (st : St)
  : result St :=
  match l with
  | [] => Ok st
  | a :: l' => st' ← body a st; for_each l' body st'
  end.

(** [Layout.processLayoutChar]. *)
Definition processLayoutChar (x y : nat) (char : ascii) (self : attributes)
  : attributes :=
  let '(Attributes walls food capsules agents numGhosts) := self in
  if Ascii.eqb char "%" then
    Attributes (set walls x y true) food capsules agents numGhosts
  else if Ascii.eqb char "." then
    Attributes walls (set food x y true) capsules agents numGhosts
  else if Ascii.eqb char "o" then
    Attributes walls food (capsules ++ [(x, y)]) agents numGhosts
  else if Ascii.eqb char "P" then
    Attributes walls food capsules (agents ++ [(0%nat, (x, y))]) numGhosts
  else if Ascii.eqb char "G" then
    Attributes walls food capsules (agents ++ [(1%nat, (x, y))]) (numGhosts + 1)
  else if bool_decide (char ∈ ["1"; "2"; "3"; "4"]%char) then
    Attributes walls food capsules
      (agents ++ [((nat_of_ascii char - 48)%nat, (x, y))]) (numGhosts + 1)
  else self.

(** [layoutText[row][x]]: a row or a column out of range raises
    [IndexError]. *)
Definition char_at (layoutText : list string) (row x : nat) : result ascii :=
  match layoutText !! row ≫= String.get x with
  | Some c => Ok c
  | None => Raise IndexError
  end.

(** The order of Python on the tuples [(number, (x, y))]. *)
Definition agent_leb (a b : nat * pos) : bool :=
  let '(i, (x, y)) := a in
  let '(j, (x', y')) := b in
  (i <? j)%nat
  || (i =? j)%nat && ((x <? x')%nat || (x =? x')%nat && (y <=? y')%nat).

(** [list.sort()] on such tuples: the order is total and two tuples
    that compare equal are the same, so the sorted list is the one an
    insertion sort builds. *)
Fixpoint insert_agent (a : nat * pos) (l : list (nat * pos)) : list (nat * pos) :=
  match l with
  | [] => [a]
  | b :: l' => if agent_leb a b then a :: l else b :: insert_agent a l'
  end.

Definition sort_agents (l : list (nat * pos)) : list (nat * pos) :=
  foldr insert_agent [] l.

(** The two loops of [Layout.processLayoutText]. *)
Definition process_cells (layoutText : list string) (width height : nat)
    (self : attributes) : result attributes :=
  let maxY := (height - 1)%nat in
  for_each (seq 0 height) (fun y =>
    for_each (seq 0 width) (fun x self =>
      char ← char_at layoutText (maxY - y) x;
      Ok (processLayoutChar x y char self))) self.

(** [Layout.processLayoutText]: the attributes after the loops, and
    the sorted agent positions turned into pairs [(isPacman, pos)]. *)
Definition processLayoutText (layoutText : list string) (width height : nat)
    (self : attributes) : result (attributes * list (bool * pos)) :=
  self ← process_cells layoutText width height self;
  Ok (self, map (fun '(i, p) => (bool_decide (i = 0%nat), p))
                (sort_agents (agents self))).

(** [Layout.__init__]. *)
Definition __init__ (layoutText : list string) : result Layout :=
  match layoutText with
  | [] => Raise IndexError
  | first :: _ =>
      let width := String.length first in
      let height := length layoutText in
      let self :=
        Attributes (new_grid width height false) (new_grid width height false)
                   [] [] 0 in
      '(self, agentPositions) ← processLayoutText layoutText width height self;
      Ok (Build_Layout width height self agentPositions layoutText
                       (length (asList (food self))))
  end.

(** [Layout.getNumGhosts]. *)
Definition getNumGhosts (self : Layout) : nat := numGhosts (attrs self).

(** [max(poses, key=key)]: the first element whose key is the
    largest. *)
Definition max_by {A} (key : A -> Z) (l : list A) : result A :=
  match l with
  | [] => Raise ValueError
  | a :: l' =>
      Ok (fold_left (fun best b => if (key best <? key b)%Z then b else best) l' a)
  end.

(** [Layout.getFurthestCorner]; [manhattanDistance] is the function of
    [util.py]. *)
Definition corners (self : Layout) : list (Z * Z) :=
  let w := Z.of_nat (width self) in
  let h := Z.of_nat (height self) in
  [(1, 1); (1, h - 2); (w - 2, 1); (w - 2, h - 2)]%Z.

Definition getFurthestCorner (manhattanDistance : Z * Z -> Z * Z -> Z)
    (self : Layout) (pacPos : Z * Z) : result (Z * Z) :=
  max_by (fun p => manhattanDistance p pacPos) (corners self).

(** ** The text seen from the grid *)

(** The cells in the order the loops of [processLayoutText] visit
    them: row by row from [y = 0], each row from [x = 0]. *)
Definition cells (width height : nat) : list pos :=
  flat_map (fun y => map (fun x => (x, y)) (seq 0 width)) (seq 0 height).

(** The character of cell [(x, y)]: the lines of the text are given
    top to bottom, the rows of the grid are numbered bottom to top. *)
Definition cell (layoutText : list string) (x y : nat) : option ascii :=
  layoutText !! (length layoutText - 1 - y)%nat ≫= String.get x.

(** The agent number a character stands for. *)
Definition agent_number (char : ascii) : option nat :=
  if Ascii.eqb char "P" then Some 0%nat
  else if Ascii.eqb char "G" then Some 1%nat
  else if bool_decide (char ∈ ["1"; "2"; "3"; "4"]%char)
       then Some (nat_of_ascii char - 48)%nat
  else None.

(** The positions of a grid of [w] columns of [h] cells. *)
Definition in_range (w h : nat) (p : pos) : Prop := (p.1 < w)%nat /\ (p.2 < h)%nat.

(** The attributes [__init__] starts from, and the pair of
    [agentPositions] a sorted tuple becomes. *)
Definition empty (width height : nat) : attributes :=
  Attributes (new_grid width height false) (new_grid width height false) [] [] 0.

Definition flagged (a : nat * pos) : bool * pos := (bool_decide (a.1 = 0%nat), a.2).

(** The effect of the body of the loops on cell [p]. *)
Definition visit (layoutText : list string) (self : attributes) (p : pos)
  : attributes :=
  match cell layoutText p.1 p.2 with
  | Some char => processLayoutChar p.1 p.2 char self
  | None => self
  end.

(** The entry of [agentPositions] a cell gives, if it gives one. *)
Definition agent_at (layoutText : list string) (p : pos) : list (nat * pos) :=
  match cell layoutText p.1 p.2 ≫= agent_number with
  | Some i => [(i, p)]
  | None => []
  end.

(** The order of Python on the tuples, as a relation, and the lists
    in ascending order. *)
Definition agent_le (a b : nat * pos) : Prop := agent_leb a b = true.

Fixpoint ascending (l : list (nat * pos)) : Prop :=
  match l with
  | [] => True
  | a :: l' => Forall (agent_le a) l' /\ ascending l'
  end.

(** An entry of [agentPositions] that is a ghost. *)
Definition is_ghost (a : nat * pos) : bool := negb (a.1 =? 0)%nat.

(** The layout [__init__] builds from a text whose lines are at
    least as long as the first: the fold of [visit] over the cells. *)
Definition built (layoutText : list string) (w : nat) : Layout :=
  let h := length layoutText in
  let self := fold_left (visit layoutText) (cells w h) (empty w h) in
  Build_Layout w h self (map flagged (sort_agents (agents self))) layoutText
               (length (asList (food self))).

(** A layout of three lines: the bottom line holds Pacman and a
    capsule, the middle line a dot and a ghost. *)
Definition sample_text : list string := ["%%%%"; "%.G%"; "%Po%"].

End Layout.

(** ** Sample networks, batches and files *)

(** [torch.full(s, x)]. *)
Definition full (s : list nat) (x : f32) : tensor := Tensor s (repeat x (numel s)).

(** The network of a [width] by [height] grid with every weight [w] and
    every bias [b]. *)
Definition uniform_net (width height : nat) (w b : f32) : net_params :=
  Net (full [16; 6; 3; 3] w) (full [16] b)
      (full [32; 16; 3; 3] w) (full [32] b)
      (full [256; 32 * width * height] w) (full [256] b)
      (full [4; 256] w) (full [4] b).

Definition half : f32 := S754_finite false 8388608 (-24).

(** The largest finite single-precision number. *)
Definition max_float : f32 := S754_finite false 16777215 104.

Definition sample_config (load : option string) : config :=
  Config 1 1 half half load.

(** An optimizer step that leaves the parameters as they are. *)
Definition no_update (o : unit) (n : net_params) (g : node) : net_params * unit :=
  (n, o).

(** A file system that holds one checkpoint. *)
Definition one_checkpoint (path : string) (n : net_params) : gmap string file :=
  {[ path := Checkpoint (state_dict n) ]}.

(** A trainer of a 1 by 1 grid with every weight 0 and every bias 1/2:
    its four outputs are 1/2 on every observation. *)
Definition sample_trainer : DQN unit :=
  Build_DQN (sample_config None) (uniform_net 1 1 zero half) tt 0.

(** A trainer of a 1 by 1 grid with every weight 1 and every bias 0. *)
Definition unit_weight_trainer : DQN unit :=
  Build_DQN (sample_config None) (uniform_net 1 1 one zero) tt 0.

(** Two transitions on the 1 by 1 grid, the first one terminal. *)
Definition sample_batch : batch :=
  Batch (full [2; 1; 1; 6] zero)
        (Tensor [2; 4] [one; zero; zero; zero; zero; zero; one; zero])
        (Tensor [2] [one; zero])
        (full [2; 1; 1; 6] zero)
        (Tensor [2] [of_Z 5; of_Z 7]).

(** One terminal transition whose observations hold the largest finite
    number: the first convolution overflows. *)
Definition overflowing_batch : batch :=
  Batch (full [1; 1; 1; 6] max_float)
        (Tensor [1; 4] [one; zero; zero; zero])
        (Tensor [1] [one])
        (full [1; 1; 1; 6] max_float)
        (Tensor [1] [of_Z 5]).

Definition locals_of (self : DQN unit) (b : batch) : result locals :=
  train_step_locals self (states b) (actions b) (terminals b)
                    (next_states b) (rewards b) true.

(** * Key handling (graphicsUtils.py) *)

Module Keys.

(** The dictionaries [_keysdown] and [_keyswaiting] map key symbols to
    1: such a dictionary is the list of its keys in insertion order. *)
Definition dict : Type := list string.

(** [d[k] = 1]: a new key is added at the end. *)
Definition assign (d : dict) (k : string) : dict :=
  if bool_decide (k ∈ d) then d else d ++ [k].

(** [d.pop(k, None)]. *)
Definition pop (d : dict) (k : string) : dict :=
  List.filter (fun k' => negb (String.eqb k' k)) d.

(** The module globals of the key handling; [_got_release] is [None]
    or [True]. *)
Record state : Type := State {
  _keysdown : dict;
  _keyswaiting : dict;
  _got_release : bool
}.

Definition _keypress (st : state) (keysym : string) : state :=
  State (assign (_keysdown st) keysym) (assign (_keyswaiting st) keysym) false.

Definition _keyrelease (st : state) (keysym : string) : state :=
  State (pop (_keysdown st) keysym) (_keyswaiting st) true.

Definition _clear_keys (st : state) : state := State [] [] false.

(** The events of the window: a key goes down or up, the window gains
    or loses the focus, or anything else (a click, a redraw). *)
Inductive event : Type :=
| KeyPress (keysym : string)
| KeyRelease (keysym : string)
| Focus
| Other.

#[global] Instance event_eq_dec : EqDecision event.
Proof. solve_decision. Defined.

(** The handler [begin_graphics] binds to an event. *)
Definition dispatch (st : state) (ev : event) : state :=
  match ev with
  | KeyPress k => _keypress st k
  | KeyRelease k => _keyrelease st k
  | Focus => _clear_keys st
  | Other => st
  end.

(** [_root_window.dooneevent(DONT_WAIT)]: the first pending event, if
    there is one, is handled. *)
Definition dooneevent (st : state) (pending : list event) : state * list event :=
  match pending with
  | [] => (st, [])
  | ev :: pending' => (dispatch st ev, pending')
  end.

(** [keys_pressed()]: the keys returned, the globals and the pending
    events after the call; [root_window] tells whether a window is
    open. *)
Definition keys_pressed (root_window : bool) (st : state) (pending : list event)
  : list string * state * list event :=
  let '(st, pending) :=
    if root_window then
      let '(st, pending) := dooneevent st pending in
      if _got_release st then dooneevent st pending else (st, pending)
    else (st, pending) in
  (_keysdown st, st, pending).

(** [keys_waiting()]. *)
Definition keys_waiting (st : state) : list string * state :=
  (_keyswaiting st, State (_keysdown st) [] (_got_release st)).

(** Whether key [k] is down after an event, [b] telling whether it was
    down before; and whether it waits to be reported. *)
Definition down_after (k : string) (b : bool) (ev : event) : bool :=
  match ev with
  | KeyPress k' => if bool_decide (k' = k) then true else b
  | KeyRelease k' => if bool_decide (k' = k) then false else b
  | Focus => false
  | Other => b
  end.

Definition waiting_after (k : string) (b : bool) (ev : event) : bool :=
  match ev with
  | KeyPress k' => if bool_decide (k' = k) then true else b
  | KeyRelease _ => b
  | Focus => false
  | Other => b
  end.

End Keys.

(** * Facts and theorems *)

(** ** Single-precision arithmetic *)

Section F32_facts.

Lemma one_is_finite : is_finite one = true.
Proof. reflexivity. Qed.

Lemma sub_one_one : sub one one = zero.
Proof. reflexivity. Qed.

Lemma sub_one_zero : sub one zero = one.
Proof. reflexivity. Qed.

(** Multiplying a finite value by a zero gives a zero. *)
Lemma mul_zero_l (s : bool) (x : f32) :
  is_finite x = true -> exists s', mul (S754_zero s) x = S754_zero s'.
Proof. unfold mul. destruct x; simpl; intros H; try discriminate; eauto. Qed.

Lemma mul_zero_r (s : bool) (x : f32) :
  is_finite x = true -> exists s', mul x (S754_zero s) = S754_zero s'.
Proof. unfold mul. destruct x; simpl; intros H; try discriminate; eauto. Qed.

(** Adding a zero to a value that is not a NaN leaves it numerically
    unchanged. *)
Lemma add_zero_r (s : bool) (x : f32) :
  is_nan x = false -> eqb (add x (S754_zero s)) x = true.
Proof.
  unfold add. destruct x as [sx|sx| |sx m e]; simpl; intros H; try discriminate.
  - destruct sx, s; reflexivity.
  - destruct sx; reflexivity.
  - unfold eqb, SFeqb; simpl. destruct sx; rewrite Z.compare_refl;
      rewrite ?Pos.compare_cont_refl; reflexivity.
Qed.

(** Multiplying a finite value by one gives the value itself. *)
Lemma mul_one_r (x : f32) : is_finite x = true -> mul x one = x.
Proof.
  unfold mul. destruct x as [s|s| |s m e]; simpl; intros H; try discriminate.
  - destruct s; reflexivity.
  - unfold bounded, canonical_mantissa in H.
    apply andb_true_iff in H as [Hc He].
    apply Z.eqb_eq in Hc.
    rewrite xorb_false_r.
    replace (m * 8388608)%positive
      with (m~0~0~0~0~0~0~0~0~0~0~0~0~0~0~0~0~0~0~0~0~0~0~0)%positive
      by (rewrite Pos.mul_comm; reflexivity).
    unfold binary_round_aux, shr_fexp.
    cbn [Zdigits2 digits2_pos].
    rewrite !Pos2Z.inj_succ.
    match goal with
    | |- context [fexp prec emax ?a] =>
        replace a with (Z.pos (digits2_pos m) + e)%Z by lia
    end.
    rewrite Hc.
    replace (e - (e + -23))%Z with 23%Z by lia.
    cbn [shr shr_record_of_loc SpecFloat.iter_pos shr_1 shr_m loc_of_shr_record
         round_nearest_even Zdigits2 orb].
    replace (e + -23 + 23)%Z with e by lia.
    rewrite Hc, Z.sub_diag. cbn [shr shr_m].
    rewrite He. reflexivity.
Qed.

(** The target of a terminal row: the reward, when the discount and the
    next-state value are finite. *)
Lemma terminal_target (r gamma q : f32) :
  is_finite gamma = true -> is_finite q = true -> is_nan r = false ->
  eqb (add r (mul (mul (sub one one) gamma) q)) r = true.
Proof.
  intros Hg Hq Hr. rewrite sub_one_one. unfold zero.
  destruct (mul_zero_l false gamma Hg) as [s1 ->].
  destruct (mul_zero_l s1 q Hq) as [s2 ->].
  by apply add_zero_r.
Qed.

Lemma eqb_refl (x : f32) : is_nan x = false -> eqb x x = true.
Proof.
  destruct x as [s|s| |s m e]; intros H; try discriminate.
  - reflexivity.
  - by destruct s.
  - unfold eqb, SFeqb. simpl.
    destruct s; rewrite Z.compare_refl, Pos.compare_cont_refl; reflexivity.
Qed.

Lemma feq_eqb (x y : f32) : feq x y -> is_nan y = false -> eqb x y = true.
Proof.
  intros [->|(s & s' & -> & ->)] Hy; [by apply eqb_refl|reflexivity].
Qed.

Lemma feq_add_zero (x y : f32) (s : bool) :
  feq x y -> is_nan y = false -> feq (add x (S754_zero s)) y.
Proof.
  intros [->|(s1 & s2 & -> & ->)] Hy.
  - destruct y as [sy|sy| |sy m e]; try discriminate.
    + right. destruct sy, s; eauto.
    + by left.
    + by left.
  - right. destruct s1, s; eauto.
Qed.

Lemma feq_zero_add (s : bool) (y : f32) :
  is_nan y = false -> feq (add (S754_zero s) y) y.
Proof.
  intros Hy. destruct y as [sy|sy| |sy m e]; try discriminate.
  - right. destruct s, sy; eauto.
  - by left.
  - by left.
Qed.

Lemma add_zeros (s s' : bool) : exists s'', add (S754_zero s) (S754_zero s') = S754_zero s''.
Proof. destruct s, s'; eauto. Qed.

Lemma is_finite_not_nan (x : f32) : is_finite x = true -> is_nan x = false.
Proof. by destruct x. Qed.

(** The sum of the products of four finite values with a one-hot
    vector is the value at the index of the 1. *)
Lemma one_hot_sum (q0 q1 q2 q3 : f32) (a : list f32) (j : nat) :
  one_hot j a -> length a = 4%nat ->
  is_finite q0 = true -> is_finite q1 = true ->
  is_finite q2 = true -> is_finite q3 = true ->
  exists a0 a1 a2 a3 q,
    a = [a0; a1; a2; a3] /\ [q0; q1; q2; q3] !! j = Some q /\
    feq (fold_left add [mul q0 a0; mul q1 a1; mul q2 a2; mul q3 a3] zero) q.
Proof.
  intros [Hj Ha] Hlen H0 H1 H2 H3. rewrite Hlen in Ha, Hj.
  destruct (mul_zero_r false q0 H0) as [s0 E0].
  destruct (mul_zero_r false q1 H1) as [s1 E1].
  destruct (mul_zero_r false q2 H2) as [s2 E2].
  destruct (mul_zero_r false q3 H3) as [s3 E3].
  pose proof (is_finite_not_nan _ H0). pose proof (is_finite_not_nan _ H1).
  pose proof (is_finite_not_nan _ H2). pose proof (is_finite_not_nan _ H3).
  destruct j as [|[|[|[|j]]]]; [| | | |lia]; subst a; simpl;
    do 5 eexists; (split; [reflexivity|]); (split; [reflexivity|]);
    fold zero; unfold zero;
    rewrite ?E0, ?E1, ?E2, ?E3, ?mul_one_r by done.
  - by repeat apply feq_add_zero; [apply feq_zero_add|..].
  - destruct (add_zeros false s0) as [t0 ->].
    by repeat apply feq_add_zero; [apply feq_zero_add|..].
  - destruct (add_zeros false s0) as [t0 ->].
    destruct (add_zeros t0 s1) as [t1 ->].
    by repeat apply feq_add_zero; [apply feq_zero_add|..].
  - destruct (add_zeros false s0) as [t0 ->].
    destruct (add_zeros t0 s1) as [t1 ->].
    destruct (add_zeros t1 s2) as [t2 ->].
    by apply feq_zero_add.
Qed.

(** *** Signs of rounded results *)

Lemma shr_1_nonneg (mrs : shr_record) :
  (0 <= shr_m mrs)%Z -> (0 <= shr_m (shr_1 mrs))%Z.
Proof.
  destruct mrs as [m r s]. simpl. intros Hm.
  destruct m as [|[p|p|]|p]; simpl; lia.
Qed.

Lemma iter_pos_invariant {A} (P : A -> Prop) (f : A -> A) :
  (forall x, P x -> P (f x)) ->
  forall n x, P x -> P (SpecFloat.iter_pos f n x).
Proof.
  intros Hf. induction n as [n IH|n IH|]; intros x Hx; simpl; auto.
Qed.

Lemma shr_nonneg (mrs : shr_record) (e n : Z) :
  (0 <= shr_m mrs)%Z -> (0 <= shr_m (shr mrs e n).1)%Z.
Proof.
  intros Hm. destruct n as [|p|p]; simpl; try done.
  by apply (iter_pos_invariant (fun r => 0 <= shr_m r)%Z shr_1 shr_1_nonneg).
Qed.

Lemma shr_record_of_loc_m (m : Z) (l : location) :
  shr_m (shr_record_of_loc m l) = m.
Proof. by destruct l as [|[]]. Qed.

Lemma round_nearest_even_ge (m : Z) (l : location) :
  (m <= round_nearest_even m l <= m + 1)%Z.
Proof. destruct l as [|[]]; simpl; try lia. destruct (Z.even m); lia. Qed.

(** The sign of a float, [None] for a NaN. *)
Lemma binary_round_aux_sign (s : bool) (m e : Z) (l : location) :
  (0 <= m)%Z ->
  let x := binary_round_aux prec emax s m e l in
  is_nan x = false /\ nonneg x = negb s.
Proof.
  intros Hm. unfold binary_round_aux, shr_fexp.
  destruct (shr (shr_record_of_loc m l) e _) as [mrs' e'] eqn:E1.
  assert (H1 : (0 <= shr_m mrs')%Z).
  { replace mrs' with (shr (shr_record_of_loc m l) e
      (fexp prec emax (Zdigits2 m + e) - e)).1 by (by rewrite E1).
    apply shr_nonneg. by rewrite shr_record_of_loc_m. }
  destruct (shr (shr_record_of_loc (round_nearest_even _ _) loc_Exact) e' _)
    as [mrs'' e''] eqn:E2.
  assert (H2 : (0 <= shr_m mrs'')%Z).
  { match type of E2 with shr ?r ?e ?n = _ =>
      replace mrs'' with (shr r e n).1 by (by rewrite E2) end.
    apply shr_nonneg. simpl.
    pose proof (round_nearest_even_ge (shr_m mrs') (loc_of_shr_record mrs')). lia. }
  simpl. destruct (shr_m mrs'') as [|p|p]; [done| |lia].
  by destruct (e'' <=? emax - prec)%Z.
Qed.

Lemma binary_round_sign (s : bool) (m : positive) (e : Z) :
  let x := binary_round prec emax s m e in
  is_nan x = false /\ nonneg x = negb s.
Proof.
  unfold binary_round. destruct (shl_align m e _) as [mz ez].
  by apply binary_round_aux_sign.
Qed.

Lemma binary_normalize_not_nan (m e : Z) (sz : bool) :
  is_nan (binary_normalize prec emax m e sz) = false.
Proof.
  destruct m as [|p|p]; simpl; [done|apply binary_round_sign..].
Qed.

Lemma add_nonneg (x y : f32) :
  nonneg x = true -> nonneg y = true -> nonneg (add x y) = true.
Proof.
  unfold add.
  destruct x as [sx|sx| |sx mx ex], y as [sy|sy| |sy my ey]; simpl;
    intros Hx Hy; try discriminate;
    try (destruct sx; [discriminate|]); try (destruct sy; [discriminate|]);
    try reflexivity.
  unfold cond_Zopp. rewrite <- Pos2Z.inj_add. apply (binary_round_sign false).
Qed.

Lemma sum_list_nonneg (l : list f32) :
  Forall (fun x => nonneg x = true) l -> nonneg (sum_list l) = true.
Proof.
  unfold sum_list. assert (H0 : nonneg zero = true) by done.
  revert H0. generalize zero. induction l as [|x l IH]; intros acc Hacc Hl; [done|].
  inversion Hl; subst. simpl. apply IH; [|done]. by apply add_nonneg.
Qed.

Lemma sub_finite_not_nan (x y : f32) :
  is_finite x = true -> is_finite y = true -> is_nan (sub x y) = false.
Proof.
  unfold sub.
  destruct x as [sx|sx| |sx mx ex], y as [sy|sy| |sy my ey]; simpl;
    intros Hx Hy; try discriminate; try reflexivity.
  - by destruct sx, sy.
  - apply binary_normalize_not_nan.
Qed.

(** A square is not negative. *)
Lemma mul_self_nonneg (x : f32) : is_nan x = false -> nonneg (mul x x) = true.
Proof.
  unfold mul. destruct x as [s|s| |s m e]; simpl; intros H; try discriminate.
  - by destruct s.
  - by destruct s.
  - rewrite xorb_nilpotent. by apply (binary_round_aux_sign false).
Qed.

Lemma div_nonneg (x : f32) (m : positive) (e : Z) :
  nonneg x = true -> nonneg (div x (S754_finite false m e)) = true.
Proof.
  unfold div. destruct x as [sx|sx| |sx mx ex]; simpl; intros Hx; try done.
  - by destruct sx.
  - by destruct sx.
  - destruct sx; [done|]. simpl.
    destruct (SFdiv_core_binary _ _ _ _ _ _) as [[mz ez] lz] eqn:E.
    apply (binary_round_aux_sign false).
    unfold SFdiv_core_binary in E.
    match type of E with context [Z.div_eucl ?a ?b] =>
      pose proof (Z_div_mod a b ltac:(lia)) as Hdm;
      assert (Ha : (0 <= a)%Z) by
        (destruct (_ - _ - _)%Z; [lia|apply Z.shiftl_nonneg; lia|lia]);
      destruct (Z.div_eucl a b) as [q r] end.
    injection E as <- _ _. nia.
Qed.

Lemma nonneg_leb (x : f32) : nonneg x = true -> leb zero x = true.
Proof. destruct x as [s|s| |s m e]; try done; by destruct s. Qed.

(** Equal finite values have a zero difference. *)
Lemma sub_eq_zero (x y : f32) :
  eqb x y = true -> is_finite x = true -> exists s, sub x y = S754_zero s.
Proof.
  unfold eqb, SFeqb, sub.
  destruct x as [sx|sx| |sx mx ex], y as [sy|sy| |sy my ey]; simpl;
    intros He Hx; try discriminate;
    try (destruct sx; discriminate); try (destruct sy; discriminate).
  - destruct sx, sy; eauto.
  - assert (sx = sy /\ ex = ey /\ mx = my) as (-> & -> & ->).
    { destruct sx, sy; try discriminate;
        destruct (ex ?= ey)%Z eqn:Ee; try discriminate;
        apply Z.compare_eq in Ee;
        destruct (Pos.compare_cont Eq mx my) eqn:Em; try discriminate;
        apply Pos.compare_eq in Em; done. }
    rewrite Z.sub_diag. simpl. eauto.
Qed.

(** *** Integers converted to single precision *)

Lemma digits2_pos_iter_xO (p k : positive) :
  digits2_pos (Pos.iter xO p k) = (digits2_pos p + k)%positive.
Proof.
  induction k as [|k IH] using Pos.peano_ind.
  - simpl. lia.
  - rewrite Pos.iter_succ. simpl. rewrite IH. lia.
Qed.

Lemma shr_1_digits (mrs : shr_record) :
  (0 <= shr_m mrs)%Z ->
  Zdigits2 (shr_m (shr_1 mrs)) = Z.max 0 (Zdigits2 (shr_m mrs) - 1).
Proof.
  destruct mrs as [m r s]. simpl. intros Hm.
  destruct m as [|[p|p|]|p]; simpl; lia.
Qed.

Lemma iter_shr_1_digits (k : positive) (mrs : shr_record) :
  (0 <= shr_m mrs)%Z ->
  (0 <= shr_m (SpecFloat.iter_pos shr_1 k mrs))%Z /\
  Zdigits2 (shr_m (SpecFloat.iter_pos shr_1 k mrs))
    = Z.max 0 (Zdigits2 (shr_m mrs) - Z.pos k).
Proof.
  revert mrs. induction k as [k IH|k IH|]; intros mrs Hm; simpl.
  - pose proof (shr_1_nonneg mrs Hm) as H1.
    pose proof (shr_1_digits mrs Hm) as D1.
    destruct (IH _ H1) as [H2 D2]. destruct (IH _ H2) as [H3 D3].
    split; [done|]. rewrite D3, D2, D1. lia.
  - destruct (IH _ Hm) as [H2 D2]. destruct (IH _ H2) as [H3 D3].
    split; [done|]. rewrite D3, D2. lia.
  - split; [by apply shr_1_nonneg|]. by apply shr_1_digits.
Qed.

Lemma digits2_pos_lower (p : positive) :
  (2 ^ (Z.pos (digits2_pos p) - 1) <= Z.pos p)%Z.
Proof.
  induction p as [p IH|p IH|]; simpl; [| |done].
  - rewrite Pos2Z.inj_succ.
    replace (Z.succ (Z.pos (digits2_pos p)) - 1)%Z
      with (Z.succ (Z.pos (digits2_pos p) - 1)) by lia.
    rewrite Z.pow_succ_r by lia. lia.
  - rewrite Pos2Z.inj_succ.
    replace (Z.succ (Z.pos (digits2_pos p)) - 1)%Z
      with (Z.succ (Z.pos (digits2_pos p) - 1)) by lia.
    rewrite Z.pow_succ_r by lia. lia.
Qed.

Lemma digits2_pos_bound (p : positive) (k : Z) :
  (0 <= k)%Z -> (Z.pos p < 2 ^ k)%Z -> (Z.pos (digits2_pos p) <= k)%Z.
Proof.
  intros Hk Hp. pose proof (digits2_pos_lower p) as Hl.
  destruct (Z.le_gt_cases (Z.pos (digits2_pos p)) k) as [|Hgt]; [done|].
  assert (2 ^ k <= 2 ^ (Z.pos (digits2_pos p) - 1))%Z
    by (apply Z.pow_le_mono_r; lia).
  lia.
Qed.

Lemma digits2_pos_succ (p : positive) :
  (Z.pos (digits2_pos (Pos.succ p)) <= Z.pos (digits2_pos p) + 1)%Z.
Proof.
  induction p as [p IH|p IH|]; simpl; rewrite ?Pos2Z.inj_succ; lia.
Qed.

Lemma digits2_pos_succ_ge (p : positive) :
  (Z.pos (digits2_pos p) <= Z.pos (digits2_pos (Pos.succ p)))%Z.
Proof.
  induction p as [p IH|p IH|]; simpl; rewrite ?Pos2Z.inj_succ; lia.
Qed.

(** Rounding a mantissa that is already in canonical position. *)
Lemma binary_round_aux_exact (s : bool) (m : positive) (e : Z) :
  fexp prec emax (Z.pos (digits2_pos m) + e) = e ->
  (e <= emax - prec)%Z ->
  binary_round_aux prec emax s (Z.pos m) e loc_Exact = S754_finite s m e.
Proof.
  intros Hc He. unfold binary_round_aux, shr_fexp. simpl Zdigits2.
  rewrite Hc, Z.sub_diag. simpl. rewrite Hc, Z.sub_diag. simpl.
  by rewrite (proj2 (Z.leb_le _ _) He).
Qed.

Lemma binary_round_pos_finite (p : positive) :
  (Z.pos (digits2_pos p) <= 127)%Z ->
  exists m e, binary_round prec emax false p 0 = S754_finite false m e.
Proof.
  intros Hd. unfold binary_round.
  set (d := Z.pos (digits2_pos p)) in *.
  assert (Hf : fexp prec emax (d + 0) = (d - 24)%Z)
    by (unfold fexp, emin, prec, emax; lia).
  rewrite Hf. unfold shl_align.
  destruct (d - 24 - 0)%Z as [|k|k] eqn:E.
  - (* exactly 24 digits *)
    exists p, 0%Z. apply binary_round_aux_exact.
    + fold d. rewrite Hf. lia.
    + unfold emax, prec. lia.
  - (* more than 24 digits: shifted right by [k] *)
    unfold binary_round_aux, shr_fexp. simpl Zdigits2. fold d.
    rewrite Hf. replace (d - 24 - 0)%Z with (Z.pos k) by lia.
    change (shr (shr_record_of_loc (Z.pos p) loc_Exact) 0 (Z.pos k))
      with (SpecFloat.iter_pos shr_1 k
              {| shr_m := Z.pos p; shr_r := false; shr_s := false |},
            (0 + Z.pos k)%Z).
    cbv beta iota.
    set (mrs := SpecFloat.iter_pos shr_1 k _).
    destruct (iter_shr_1_digits k {| shr_m := Z.pos p; shr_r := false; shr_s := false |}
                ltac:(simpl; lia)) as [H1 D1].
    fold mrs in H1, D1. simpl in D1. fold d in D1.
    destruct (shr_m mrs) as [|p1|p1] eqn:Em; [simpl in D1; lia| |lia].
    simpl in D1.
    pose proof (round_nearest_even_ge (Z.pos p1) (loc_of_shr_record mrs)) as Hr.
    destruct (round_nearest_even (Z.pos p1) (loc_of_shr_record mrs))
      as [|p2|p2] eqn:Er; [lia| |lia].
    assert (Hp2 : (24 <= Z.pos (digits2_pos p2) <= 25)%Z).
    { assert (p2 = p1 \/ p2 = Pos.succ p1) as [->| ->] by lia; [lia|].
      pose proof (digits2_pos_succ p1). pose proof (digits2_pos_succ_ge p1). lia. }
    simpl Zdigits2.
    assert (Hf2 : (fexp prec emax (Z.pos (digits2_pos p2) + (0 + Z.pos k))
                   - (0 + Z.pos k) = Z.pos (digits2_pos p2) - 24)%Z)
      by (unfold fexp, emin, prec, emax; lia).
    rewrite Hf2.
    destruct (Z.pos (digits2_pos p2) - 24)%Z as [|k2|k2] eqn:E2; [| |lia].
    + simpl. rewrite (proj2 (Z.leb_le _ _)) by (unfold emax, prec; lia). eauto.
    + assert (k2 = 1%positive) as -> by lia. simpl.
      destruct p2 as [q|q|]; simpl in *; [| |lia];
        rewrite (proj2 (Z.leb_le _ _)) by (unfold emax, prec; lia); eauto.
  - (* fewer than 24 digits: shifted left by [k] *)
    exists (Pos.iter xO p k), (d - 24)%Z. apply binary_round_aux_exact.
    + rewrite digits2_pos_iter_xO, Pos2Z.inj_add. fold d.
      unfold fexp, emin, prec, emax. lia.
    + unfold emax, prec. lia.
Qed.

(** A batch size converted to single precision is a positive finite
    number. *)
Lemma of_nat_finite (n : nat) :
  (0 < n)%nat -> (Z.of_nat n < 2 ^ 63)%Z ->
  exists m e, of_nat n = S754_finite false m e.
Proof.
  intros Hn Hlt. unfold of_nat, of_Z.
  destruct (Z.of_nat n) as [|p|p] eqn:E; [lia| |lia].
  simpl. apply binary_round_pos_finite.
  pose proof (digits2_pos_bound p 63 ltac:(lia) Hlt). lia.
Qed.

Lemma sum_list_zeros (l : list f32) :
  Forall (fun x => x = zero) l -> sum_list l = zero.
Proof.
  unfold sum_list. induction l as [|x l IH]; intros Hl; [done|].
  inversion Hl; subst. simpl. by apply IH.
Qed.

Lemma square_zero (s : bool) : mul (S754_zero s) (S754_zero s) = zero.
Proof. by destruct s. Qed.

Lemma div_zero_finite (m : positive) (e : Z) : div zero (S754_finite false m e) = zero.
Proof. reflexivity. Qed.

End F32_facts.

(** ** State dictionaries *)

Section State_dict.

Lemma state_dict_dom (n : net_params) : dom (state_dict n) = param_names.
Proof.
  unfold state_dict, param_names. simpl.
  rewrite !dom_insert_L, dom_empty_L. reflexivity.
Qed.

Lemma state_dict_lookup_other (n : net_params) (k : string) :
  k ∉ param_names -> state_dict n !! k = None.
Proof. intros H. apply not_elem_of_dom. by rewrite state_dict_dom. Qed.

Lemma load_param_true sd name cur t :
  load_param sd name cur = (t, true) -> sd !! name = Some t /\ shape t = shape cur.
Proof.
  unfold load_param. destruct (sd !! name) as [t0|]; [|discriminate].
  unfold shape_eqb. case_bool_decide; intros [= <-]; auto.
Qed.

Lemma load_param_same sd name cur t :
  sd !! name = Some t -> shape t = shape cur -> load_param sd name cur = (t, true).
Proof.
  intros Hl Hs. unfold load_param, shape_eqb. rewrite Hl.
  rewrite bool_decide_eq_true_2 by done. done.
Qed.

(** A load that returns has copied the whole dictionary. *)
Lemma load_state_dict_ok (n n' : net_params) (sd : gmap string tensor) :
  load_state_dict n sd = (n', Ok tt) -> state_dict n' = sd.
Proof.
  unfold load_state_dict.
  destruct (load_param sd "conv1.weight" _) as [c1w k1] eqn:H1.
  destruct (load_param sd "conv1.bias" _) as [c1b k2] eqn:H2.
  destruct (load_param sd "conv2.weight" _) as [c2w k3] eqn:H3.
  destruct (load_param sd "conv2.bias" _) as [c2b k4] eqn:H4.
  destruct (load_param sd "fc3.weight" _) as [f3w k5] eqn:H5.
  destruct (load_param sd "fc3.bias" _) as [f3b k6] eqn:H6.
  destruct (load_param sd "fc4.weight" _) as [f4w k7] eqn:H7.
  destruct (load_param sd "fc4.bias" _) as [f4b k8] eqn:H8.
  destruct k1, k2, k3, k4, k5, k6, k7, k8; simpl; try (intros [= ]; fail).
  case_bool_decide as Hdom; intros [= <-].
  apply load_param_true in H1 as [H1 _], H2 as [H2 _], H3 as [H3 _], H4 as [H4 _],
    H5 as [H5 _], H6 as [H6 _], H7 as [H7 _], H8 as [H8 _].
  apply map_eq; intros k.
  destruct (decide (k ∈ param_names)) as [Hk|Hk].
  - unfold param_names in Hk. simpl in Hk.
    rewrite !elem_of_union, !elem_of_singleton, elem_of_empty in Hk.
    unfold state_dict; simpl.
    destruct Hk as [->|[->|[->|[->|[->|[->|[->|[->|[]]]]]]]]]; simplify_map_eq; done.
  - rewrite state_dict_lookup_other by done.
    symmetry. apply not_elem_of_dom. set_solver.
Qed.

(** Loading the state dictionary of a network into a network of the
    same shapes returns and gives that network. *)
Lemma load_state_dict_same_shapes (n0 n : net_params) :
  shape (conv1_weight n) = shape (conv1_weight n0) ->
  shape (conv1_bias n) = shape (conv1_bias n0) ->
  shape (conv2_weight n) = shape (conv2_weight n0) ->
  shape (conv2_bias n) = shape (conv2_bias n0) ->
  shape (fc3_weight n) = shape (fc3_weight n0) ->
  shape (fc3_bias n) = shape (fc3_bias n0) ->
  shape (fc4_weight n) = shape (fc4_weight n0) ->
  shape (fc4_bias n) = shape (fc4_bias n0) ->
  load_state_dict n0 (state_dict n) = (n, Ok tt).
Proof.
  intros. unfold load_state_dict.
  rewrite (load_param_same _ "conv1.weight" _ (conv1_weight n)),
    (load_param_same _ "conv1.bias" _ (conv1_bias n)),
    (load_param_same _ "conv2.weight" _ (conv2_weight n)),
    (load_param_same _ "conv2.bias" _ (conv2_bias n)),
    (load_param_same _ "fc3.weight" _ (fc3_weight n)),
    (load_param_same _ "fc3.bias" _ (fc3_bias n)),
    (load_param_same _ "fc4.weight" _ (fc4_weight n)),
    (load_param_same _ "fc4.bias" _ (fc4_bias n))
    by (done || (unfold state_dict; simpl; by simplify_map_eq)).
  rewrite state_dict_dom, bool_decide_eq_true_2 by done.
  destruct n; reflexivity.
Qed.

Lemma arch_same_shapes (p p' : config) (n n' : net_params) :
  arch p n -> arch p' n' -> width p' = width p -> height p' = height p ->
  load_state_dict n' (state_dict n) = (n, Ok tt).
Proof.
  unfold arch. intros (?&?&?&?&?&?&?&?) (?&?&?&?&?&?&?&?) Hw Hh.
  apply load_state_dict_same_shapes; congruence.
Qed.

End State_dict.

(** ** Path names *)

Section Paths.

Lemma append_nil (t : string) : EmptyString +:+ t = t.
Proof. reflexivity. Qed.

Lemma append_cons (c : ascii) (s t : string) : String c s +:+ t = String c (s +:+ t).
Proof. reflexivity. Qed.

Lemma append_assoc (s t u : string) : s +:+ (t +:+ u) = (s +:+ t) +:+ u.
Proof. induction s as [|c s IH]; [done|]. by rewrite !append_cons, IH. Qed.

Lemma split_nonempty sep s : split sep s <> [].
Proof.
  destruct s as [|c s]; simpl; [done|].
  destruct (Ascii.eqb c sep); [done|].
  destruct (split sep s); done.
Qed.

Lemma join_split sep s : join sep (split sep s) = s.
Proof.
  induction s as [|c s IH]; simpl; [done|].
  destruct (Ascii.eqb c sep) eqn:E.
  - apply Ascii.eqb_eq in E as ->.
    destruct (split sep s) eqn:Es; [by apply split_nonempty in Es|].
    simpl in *. by rewrite IH.
  - destruct (split sep s) as [|h t] eqn:Es; [by apply split_nonempty in Es|].
    rewrite <- IH. destruct t; reflexivity.
Qed.

Lemma join_last sep (l : list string) (x : string) :
  last l = Some x -> exists pre, join sep l = pre +:+ x.
Proof.
  induction l as [|h t IH]; [done|].
  destruct t as [|h' t].
  - intros [= ->]. by exists EmptyString.
  - intros Hl. destruct (IH Hl) as [pre Hpre].
    exists (h +:+ String sep pre).
    change (join sep (h :: h' :: t)) with (h +:+ String sep (join sep (h' :: t))).
    rewrite Hpre, <- append_assoc. by rewrite append_cons.
Qed.

(** Every path ends with its base name. *)
Lemma basename_suffix (path : string) : exists dir, path = dir +:+ basename path.
Proof.
  unfold basename.
  destruct (last (split "/" path)) as [b|] eqn:Hl.
  - destruct (join_last "/" _ _ Hl) as [pre Hpre].
    exists pre. simpl. by rewrite <- Hpre, join_split.
  - apply last_None in Hl. by apply split_nonempty in Hl.
Qed.

Lemma second_to_last_cons {A} (x : A) (l : list A) :
  (2 <= length l)%nat -> second_to_last (x :: l) = second_to_last l.
Proof.
  intros Hl. unfold second_to_last. rewrite reverse_cons.
  destruct (reverse l) as [|a [|b r]] eqn:E; simpl.
  - apply (f_equal length) in E. rewrite length_reverse in E. simpl in E. lia.
  - apply (f_equal length) in E. rewrite length_reverse in E. simpl in E. lia.
  - reflexivity.
Qed.

(** Text in front of a string with at least three fields leaves the
    second-to-last field as it is. *)
Lemma split_prefix_fields sep (pre s : string) :
  (3 <= length (split sep s))%nat ->
  (3 <= length (split sep (pre +:+ s)))%nat /\
  second_to_last (split sep (pre +:+ s)) = second_to_last (split sep s).
Proof.
  intros Hs. induction pre as [|c pre [IHl IH]]; [done|].
  rewrite append_cons. simpl.
  destruct (Ascii.eqb c sep).
  - split; [simpl; lia|]. rewrite second_to_last_cons by lia. done.
  - destruct (split sep (pre +:+ s)) as [|h t] eqn:E; [simpl in IHl; lia|].
    split; [done|]. simpl in IHl.
    rewrite <- IH, !second_to_last_cons by lia. done.
Qed.

(** The field the constructor parses is the one of the base name as
    soon as the base name has two underscores. *)
Lemma path_step_field (path : string) :
  (3 <= length (split "_" (basename path)))%nat ->
  second_to_last (split "_" path) = second_to_last (split "_" (basename path)).
Proof.
  intros H. destruct (basename_suffix path) as [dir Hd].
  rewrite Hd at 1. by apply split_prefix_fields.
Qed.

End Paths.

(** ** The checkpoint lifecycle *)

Section Lifecycle.

Context {opt_state : Type} {interpreter : Interpreter}.
Implicit Types (self : DQN opt_state) (p : config) (fs : gmap string file).
Implicit Types (init : net_params) (opt : opt_state) (path : string).

Lemma init_no_load_file p fs init opt :
  load_file p = None -> __init__ p fs init opt = Build_DQN p init opt 0.
Proof. unfold __init__. by intros ->. Qed.

Lemma init_missing_file p fs init opt path :
  load_file p = Some path -> fs !! path = None ->
  __init__ p fs init opt = Build_DQN p init opt 0.
Proof.
  unfold __init__. intros -> Hfs. rewrite Hfs.
  rewrite bool_decide_eq_false_2; [done|]. by intros [? [=]].
Qed.

(** The constructor on a path that exists is the [try] block. *)
Lemma init_existing_file p fs init opt path f :
  load_file p = Some path -> fs !! path = Some f ->
  __init__ p fs init opt = fst (load_checkpoint fs path (Build_DQN p init opt 0)).
Proof.
  unfold __init__. intros -> Hfs. rewrite Hfs.
  by rewrite bool_decide_eq_true_2 by eauto.
Qed.

(** X2: a file that [torch.load] rejects leaves the object fresh: step
    0 and the initial parameters. *)
Lemma init_unreadable_file p fs init opt path :
  load_file p = Some path -> fs !! path = Some Unreadable ->
  __init__ p fs init opt = Build_DQN p init opt 0.
Proof.
  intros Hp Hfs. rewrite (init_existing_file _ _ _ _ _ _ Hp Hfs).
  unfold load_checkpoint, torch_load. by rewrite Hfs.
Qed.

(** The constructor after a load that returned: the step is the parsed
    field, or stays 0 when there is no such field or it is no integer. *)
Lemma init_loaded p fs init opt path sd n :
  load_file p = Some path -> fs !! path = Some (Checkpoint sd) ->
  load_state_dict init sd = (n, Ok tt) ->
  __init__ p fs init opt =
    Build_DQN p n opt
      (match second_to_last (split "_" path) ≫= int with
       | Ok k => k
       | Raise _ => 0
       end).
Proof.
  intros Hp Hfs Hl. rewrite (init_existing_file _ _ _ _ _ _ Hp Hfs).
  unfold load_checkpoint, torch_load. rewrite Hfs. simpl. rewrite Hl. simpl.
  destruct (second_to_last (split "_" path)) as [field|]; simpl; [|done].
  destruct (int field); done.
Qed.


End Lifecycle.

Section Lifecycle_theorems.

Context {opt_state : Type} {interpreter : Interpreter}.
Implicit Types (self : DQN opt_state) (p : config) (fs : gmap string file).
Implicit Types (init : net_params) (opt : opt_state) (path : string).

(** C5: saving a checkpoint and loading it into a freshly constructed
    network of the same width and height gives a network whose forward
    pass returns the same outputs on every input; the saved file holds
    the state dictionary of the network, whose keys are exactly the
    eight parameter tensors (no optimizer state, no step count). *)
Theorem checkpoint_round_trip self p fs init opt path :
  arch (params self) (net self) -> arch p init ->
  width p = width (params self) -> height p = height (params self) ->
  load_file p = Some path ->
  let fs' := save_ckpt self path fs in
  let self' := __init__ p fs' init opt in
  fs' !! path = Some (Checkpoint (state_dict (net self))) /\
  dom (state_dict (net self)) = param_names /\
  net self' = net self /\
  forall x g, forward (net self') x g = forward (net self) x g.
Proof.
  intros Ha Ha' Hw Hh Hp fs' self'.
  assert (Hfs : fs' !! path = Some (Checkpoint (state_dict (net self))))
    by apply lookup_insert_eq.
  assert (Hn : net self' = net self).
  { unfold self'.
    rewrite (init_loaded _ _ _ _ _ _ (net self) Hp Hfs); [done|].
    by apply (arch_same_shapes (params self) p). }
  split; [done|]. split; [apply state_dict_dom|]. split; [done|].
  intros x g. by rewrite Hn.
Qed.

(** C6, as amended: when the checkpoint loads and the base name of the
    path has at least two underscores, the second-to-last
    underscore-delimited field of the base name, parsed as a decimal
    integer, becomes the step count; a base name
    [model-smallGrid_10000_100] gives 10000. *)
Theorem init_resumes_step p fs init opt path sd n :
  load_file p = Some path -> fs !! path = Some (Checkpoint sd) ->
  load_state_dict init sd = (n, Ok tt) ->
  (forall field k,
     (3 <= length (split "_" (basename path)))%nat ->
     second_to_last (split "_" (basename path)) = Ok field ->
     int field = Ok k ->
     __init__ p fs init opt = Build_DQN p n opt k) /\
  (basename path = "model-smallGrid_10000_100" ->
   __init__ p fs init opt = Build_DQN p n opt 10000).
Proof.
  intros Hp Hfs Hl.
  assert (Hgen : forall field k,
     (3 <= length (split "_" (basename path)))%nat ->
     second_to_last (split "_" (basename path)) = Ok field ->
     int field = Ok k ->
     __init__ p fs init opt = Build_DQN p n opt k).
  { intros field k Hlen Hf Hk.
    rewrite (init_loaded _ _ _ _ _ _ _ Hp Hfs Hl).
    rewrite path_step_field, Hf by done. simpl. by rewrite Hk. }
  split; [done|].
  intros Hb. apply (Hgen "10000"); rewrite ?Hb; vm_compute; first [lia|done].
Qed.



End Lifecycle_theorems.

(** *** The lifecycle on sample files *)

Section Lifecycle_examples.

(** The files are read by CPython 3.11. *)
#[local] Existing Instance cpython_3_11.

Lemma uniform_net_arch (width height : nat) (w b : f32) (lr discount : f32)
    (load : option string) :
  arch (Config width height lr discount load) (uniform_net width height w b).
Proof. unfold arch. simpl. repeat split; reflexivity. Defined.

Lemma uniform_net_loads (width height : nat) (w b w' b' : f32) :
  load_state_dict (uniform_net width height w' b')
                  (state_dict (uniform_net width height w b))
  = (uniform_net width height w b, Ok tt).
Proof. apply load_state_dict_same_shapes; reflexivity. Defined.

Lemma checkpoint_round_trip_witness :
  let self := Build_DQN (sample_config None) (uniform_net 1 1 one half) tt 7 in
  let fs' := save_ckpt self "saves/model_7_0" ∅ in
  net (__init__ (sample_config (Some "saves/model_7_0")) fs'
                (uniform_net 1 1 zero zero) tt)
  = uniform_net 1 1 one half.
Proof.
  intros self fs'.
  apply (checkpoint_round_trip self (sample_config (Some "saves/model_7_0")) ∅
           (uniform_net 1 1 zero zero) tt "saves/model_7_0");
    first [apply uniform_net_arch | reflexivity].
Defined.

Lemma init_resumes_step_witness :
  __init__ (sample_config (Some "saves/model-smallGrid_10000_100"))
           (one_checkpoint "saves/model-smallGrid_10000_100" (uniform_net 1 1 one half))
           (uniform_net 1 1 zero zero) tt
  = Build_DQN (sample_config (Some "saves/model-smallGrid_10000_100"))
              (uniform_net 1 1 one half) tt 10000.
Proof.
  apply (init_resumes_step _ _ _ tt "saves/model-smallGrid_10000_100"
           (state_dict (uniform_net 1 1 one half))).
  - reflexivity.
  - apply lookup_singleton_eq.
  - apply uniform_net_loads.
  - reflexivity.
Defined.

(** C6 as stated fails: for the base name [100_x] the second-to-last
    field of the base name is [100], but the constructor splits the
    whole path, reads [saves/100] and leaves the step at 0. *)
Lemma init_step_of_short_base_name :
  let path := "saves/100_x" in
  let self := __init__ (sample_config (Some path))
                (one_checkpoint path (uniform_net 1 1 one half))
                (uniform_net 1 1 zero zero) tt in
  second_to_last (split "_" (basename path)) ≫= int = Ok 100%Z /\
  net self = uniform_net 1 1 one half /\
  global_step self = 0%Z.
Proof.
  intros path self. split; [reflexivity|].
  unfold self.
  rewrite (init_loaded _ _ _ _ path (state_dict (uniform_net 1 1 one half))
             (uniform_net 1 1 one half));
    [split; reflexivity | reflexivity | apply lookup_singleton_eq
    | apply uniform_net_loads].
Qed.



(** C8 fails on a checkpoint of another architecture: a checkpoint
    saved for a 2 by 1 grid is loaded by a trainer of a 1 by 1 grid;
    [load_state_dict] raises for the mismatched [fc3.weight], the step
    stays 0, and the other seven tensors of the checkpoint have
    replaced the initial ones. *)
Example init_mismatched_checkpoint :
  let saved := uniform_net 2 1 one one in
  let fresh := uniform_net 1 1 zero zero in
  let path := "saves/model_500_3" in
  let self := __init__ (sample_config (Some path)) (one_checkpoint path saved) fresh tt in
  snd (load_state_dict fresh (state_dict saved)) = Raise RuntimeError /\
  global_step self = 0%Z /\
  net self = Net (conv1_weight saved) (conv1_bias saved)
                 (conv2_weight saved) (conv2_bias saved)
                 (fc3_weight fresh) (fc3_bias saved)
                 (fc4_weight saved) (fc4_bias saved) /\
  net self <> fresh.
Proof.
  intros saved fresh path self.
  assert (Hl : load_state_dict fresh (state_dict saved)
               = (Net (conv1_weight saved) (conv1_bias saved)
                      (conv2_weight saved) (conv2_bias saved)
                      (fc3_weight fresh) (fc3_bias saved)
                      (fc4_weight saved) (fc4_bias saved), Raise RuntimeError)).
  { unfold load_state_dict.
    rewrite (load_param_same _ "conv1.weight" _ (conv1_weight saved)),
      (load_param_same _ "conv1.bias" _ (conv1_bias saved)),
      (load_param_same _ "conv2.weight" _ (conv2_weight saved)),
      (load_param_same _ "conv2.bias" _ (conv2_bias saved)),
      (load_param_same _ "fc3.bias" _ (fc3_bias saved)),
      (load_param_same _ "fc4.weight" _ (fc4_weight saved)),
      (load_param_same _ "fc4.bias" _ (fc4_bias saved))
      by (done || (unfold state_dict; simpl; by simplify_map_eq)).
    reflexivity. }
  split; [by rewrite Hl|].
  assert (Hs : self = Build_DQN (sample_config (Some path))
                 (fst (load_state_dict fresh (state_dict saved))) tt 0).
  { unfold self.
    rewrite (init_existing_file _ _ _ _ path (Checkpoint (state_dict saved)))
      by (reflexivity || apply lookup_singleton_eq).
    unfold load_checkpoint, torch_load, one_checkpoint.
    rewrite lookup_singleton_eq. simpl. by rewrite Hl. }
  rewrite Hs, Hl. simpl. split; [done|]. split; [done|]. discriminate.
Qed.


Lemma init_unreadable_file_witness :
  __init__ (sample_config (Some "saves/model_5_1")) {[ "saves/model_5_1" := Unreadable ]}
           (uniform_net 1 1 zero zero) tt
  = Build_DQN (sample_config (Some "saves/model_5_1")) (uniform_net 1 1 zero zero) tt 0.
Proof.
  apply (init_unreadable_file _ _ _ tt "saves/model_5_1").
  - reflexivity.
  - apply lookup_singleton_eq.
Defined.

End Lifecycle_examples.

(** ** The step counter *)

Section Steps.

Context {opt_state : Type}.
Variable optimizer_step : opt_state -> net_params -> node -> net_params * opt_state.
Implicit Types (self : DQN opt_state) (b : batch).

(** The scalar of a loss. *)
Lemma train_step_inv self bat_s bat_a bat_t bat_n bat_r self' g v :
  train_step optimizer_step self bat_s bat_a bat_t bat_n bat_r = Ok (self', (g, v)) ->
  exists l graph,
    train_step_locals self bat_s bat_a bat_t bat_n bat_r true = Ok l /\
    grad_fn (loss l) = Some graph /\
    item (value (loss l)) = Ok v /\
    self' = Build_DQN (params self)
              (fst (optimizer_step (optimizer self) (net self) graph))
              (snd (optimizer_step (optimizer self) (net self) graph))
              (global_step self + 1) /\
    g = (global_step self + 1)%Z.
Proof.
  unfold train_step.
  destruct (train_step_locals _ _ _ _ _ _ _) as [l|] eqn:El; simpl; [|done].
  destruct (grad_fn (loss l)) as [graph|] eqn:Eg; [|done].
  destruct (optimizer_step _ _ graph) as [n o] eqn:Eo.
  destruct (item _) as [x|] eqn:Ei; simpl; [|done].
  intros [= <- <- <-]. exists l, graph. by rewrite Eo.
Qed.

Lemma train_steps_before self (bs : list batch) run i :
  train_steps optimizer_step self bs = Ok run ->
  (i <= length bs)%nat ->
  length run = length bs /\
  global_step (before self run i) = (global_step self + Z.of_nat i)%Z.
Proof.
  revert self run i. induction bs as [|b bs IH]; intros self run i; simpl.
  - intros [= <-] Hi. assert (i = 0%nat) as -> by lia. simpl. split; [done|lia].
  - destruct (update optimizer_step self b) as [[self1 [g v]]|] eqn:E1; simpl; [|done].
    destruct (train_steps optimizer_step self1 bs) as [rest|] eqn:E2; simpl; [|done].
    intros [= <-] Hi.
    destruct (IH self1 rest (Nat.pred i) E2 ltac:(lia)) as [Hlen Hstep].
    split; [simpl; lia|].
    apply train_step_inv in E1 as (l & graph & _ & _ & _ & -> & _).
    destruct i as [|[|j]]; simpl in *; [lia|lia|].
    destruct (rest !! j) as [[sj rj]|] eqn:Ej; simpl in *; [lia|].
    apply lookup_ge_None in Ej. lia.
Qed.

Lemma train_steps_lookup self (bs : list batch) run i s g v :
  train_steps optimizer_step self bs = Ok run ->
  run !! i = Some (s, (g, v)) ->
  exists b, bs !! i = Some b /\
    update optimizer_step (before self run i) b = Ok (s, (g, v)).
Proof.
  revert self run i. induction bs as [|b bs IH]; intros self run i; simpl.
  - by intros [= <-].
  - destruct (update optimizer_step self b) as [[self1 r1]|] eqn:E1; simpl; [|done].
    destruct (train_steps optimizer_step self1 bs) as [rest|] eqn:E2; simpl; [|done].
    intros [= <-]. destruct i as [|i]; simpl.
    + intros [= -> ->]. by exists b.
    + intros Hi. destruct (IH self1 rest i E2 Hi) as (b' & Hb' & Hu).
      exists b'. split; [done|].
      destruct i as [|j]; simpl in *; [done|].
      destruct (rest !! j) as [[sj rj]|] eqn:Ej; simpl in *; [done|].
      apply lookup_lt_Some in Hi. apply lookup_ge_None in Ej. lia.
Qed.

(** C4: every call of a run of successful updates returns the step
    count before the call plus one, which is the count of the object
    after the call, together with the scalar of the loss computed in
    that call; after [K] calls the count is the initial one plus [K],
    and it never decreases along the run. *)
Theorem global_step_counts_updates self (bs : list batch) run :
  train_steps optimizer_step self bs = Ok run ->
  length run = length bs /\
  global_step (before self run (length bs))
    = (global_step self + Z.of_nat (length bs))%Z /\
  (forall i s g v, run !! i = Some (s, (g, v)) ->
     g = (global_step (before self run i) + 1)%Z /\
     global_step s = g /\
     exists b l, bs !! i = Some b /\
       train_step_locals (before self run i) (states b) (actions b)
         (terminals b) (next_states b) (rewards b) true = Ok l /\
       item (value (loss l)) = Ok v) /\
  (forall i j, (i <= j <= length bs)%nat ->
     (global_step (before self run i) <= global_step (before self run j))%Z).
Proof.
  intros Hrun.
  split; [apply (train_steps_before self bs run 0 Hrun); lia|].
  split; [apply (train_steps_before self bs run _ Hrun); lia|].
  split.
  - intros i s g v Hi.
    destruct (train_steps_lookup _ _ _ _ _ _ _ Hrun Hi) as (b & Hb & Hu).
    apply train_step_inv in Hu as (l & graph & Hl & _ & Hv & -> & ->).
    split; [done|]. split; [done|]. by exists b, l.
  - intros i j Hij.
    destruct (train_steps_before self bs run i Hrun ltac:(lia)) as [_ ->].
    destruct (train_steps_before self bs run j Hrun ltac:(lia)) as [_ ->].
    lia.
Qed.

End Steps.

(** ** Tensor operations *)

Section Tensor_facts.

Lemma op_inv o args g v :
  op o args g = Ok v ->
  apply o (map value args) = Ok (value v) /\
  grad_fn v = if g && existsb requires_grad args
              then Some (NOp o (map node_of args)) else None.
Proof.
  unfold op. destruct (apply o (map value args)) as [t|]; simpl; [|done].
  by intros [= <-].
Qed.

Lemma bind_inv {A B} (m : torch A) (f : A -> torch B) g b :
  (m ≫= f) g = Ok b -> exists a, m g = Ok a /\ f a g = Ok b.
Proof.
  unfold mbind, torch_bind. destruct (m g) as [a|]; [|done]. eauto.
Qed.

Lemma map_fmap {A B} (f : A -> B) (l : list A) : map f l = f <$> l.
Proof. reflexivity. Qed.

Lemma lookup_map {A B} (f : A -> B) (l : list A) (i : nat) :
  map f l !! i = f <$> l !! i.
Proof. by rewrite map_fmap, list_lookup_fmap. Qed.

Lemma rows_length n k d : length (rows n k d) = n.
Proof. revert d. induction n as [|n IH]; intros d; simpl; [done|]. by rewrite IH. Qed.

Lemma rows_lookup n k d i :
  (i < n)%nat -> rows n k d !! i = Some (take k (drop (i * k) d)).
Proof.
  revert d i. induction n as [|n IH]; intros d i Hi; [lia|].
  destruct i as [|i]; simpl; [done|].
  rewrite IH by lia. by rewrite drop_drop.
Qed.

(** Mapping a function that fixes the rows over the rows of a matrix
    gives the matrix back. *)
Lemma flat_map_rows (f : list f32 -> list f32) n k d :
  (forall r, length r = k -> f r = r) ->
  length d = (n * k)%nat ->
  flat_map f (rows n k d) = d.
Proof.
  intros Hf. revert d. induction n as [|n IH]; intros d Hd; simpl.
  - by destruct d.
  - rewrite Hf by (rewrite length_take; lia).
    rewrite IH by (rewrite length_drop; lia).
    apply take_drop.
Qed.

Lemma expand_to_same s d : length d = numel s -> expand_to s s d = d.
Proof.
  revert d. induction s as [|n s IH]; intros d Hd; simpl; [done|].
  rewrite Nat.eqb_refl. apply flat_map_rows; [apply IH|done].
Qed.

Lemma expand_same s d : length d = numel s -> expand s s d = d.
Proof.
  intros Hd. unfold expand. rewrite Nat.sub_diag. simpl. by apply expand_to_same.
Qed.

Lemma broadcast_rev_same s : broadcast_rev s s = Some s.
Proof.
  induction s as [|a s IH]; simpl; [done|].
  rewrite Nat.eqb_refl, IH. by destruct s.
Qed.

Lemma broadcast_shapes_same s : broadcast_shapes s s = Some s.
Proof.
  unfold broadcast_shapes. rewrite broadcast_rev_same. simpl.
  by rewrite reverse_involutive.
Qed.

(** An elementwise operation on two tensors of one shape. *)
Lemma binop_same_shape f a b :
  shape b = shape a -> wf a -> wf b ->
  binop f a b = Ok (Tensor (shape a) (zip_with f (data a) (data b))).
Proof.
  unfold binop, wf. intros -> Ha Hb.
  rewrite broadcast_shapes_same, !expand_same by done. done.
Qed.

Lemma pointwise_wf f a : wf a -> wf (pointwise f a).
Proof. unfold wf, pointwise. simpl. by rewrite length_map. Qed.

Lemma permute_inv x y :
  permute_0_3_1_2 x = Ok y ->
  exists b h w c, shape x = [b; h; w; c] /\ shape y = [b; c; h; w].
Proof.
  unfold permute_0_3_1_2. intros H.
  repeat case_match; simplify_eq. eauto 10.
Qed.

Lemma conv2d_inv x wt bias y :
  conv2d x wt bias = Ok y ->
  exists b c h w o, shape x = [b; c; h; w] /\ shape y = [b; o; h; w].
Proof.
  unfold conv2d. intros H.
  repeat case_match; simplify_eq. eauto 10.
Qed.

Lemma flatten_inv x y :
  flatten_1 x = Ok y ->
  exists b d rest, shape x = b :: d :: rest /\ shape y = [b; numel (d :: rest)].
Proof.
  unfold flatten_1. intros H.
  repeat case_match; simplify_eq. eauto 10.
Qed.

Lemma linear_inv x wt bias y :
  linear x wt bias = Ok y ->
  exists n i o, shape x = [n; i] /\ shape wt = [o; i] /\ shape bias = [o] /\
    y = Tensor [n; o]
          (flat_map (fun xr =>
             zip_with (fun wr bias_o => add (dot xr wr) bias_o)
                      (rows o i (data wt)) (data bias))
             (rows n i (data x))).
Proof.
  unfold linear. intros H.
  repeat case_match; simplify_eq.
  match goal with H : _ && _ = true |- _ =>
    apply andb_true_iff in H as [?%Nat.eqb_eq ?%Nat.eqb_eq] end.
  subst. eauto 10.
Qed.

Lemma flat_map_length_const {A B} (f : A -> list B) (l : list A) (k : nat) :
  (forall x, length (f x) = k) -> length (flat_map f l) = (length l * k)%nat.
Proof.
  intros Hf. induction l as [|x l IH]; simpl; [done|].
  rewrite length_app, Hf, IH. lia.
Qed.

(** The output of a linear layer with a well-formed bias is
    well-formed. *)
Lemma linear_wf x wt bias y :
  linear x wt bias = Ok y -> wf bias -> wf y.
Proof.
  intros H Hb. apply linear_inv in H as (n & i & o & Hx & Hw & Hbs & ->).
  unfold wf in *. rewrite Hbs in Hb. simpl in *.
  rewrite (flat_map_length_const _ _ o).
  - rewrite rows_length. lia.
  - intros xr. rewrite length_zip_with, rows_length. lia.
Qed.

(** The value of an operation depends on the values of its operands
    only, not on their history or on the gradient mode. *)
Lemma op_value_ext o args args' g g' v :
  op o args g = Ok v -> map value args' = map value args ->
  exists v', op o args' g' = Ok v' /\ value v' = value v.
Proof.
  intros [Hv _]%op_inv Hargs. unfold op. rewrite Hargs, Hv. simpl. eauto.
Qed.

(** Replays an operation on a first operand of the same value. *)
Ltac replay H x' y E V :=
  match type of H with
  | op ?o (_ :: ?rest) _ = Ok _ =>
      destruct (op_value_ext o _ (x' :: rest) _ false _ H) as (y & E & V);
      [simpl; congruence|]
  end.

Lemma forward_inv n x g y :
  forward n x g = Ok y ->
  exists b c h w o i,
    shape (value x) = [b; c; h; w] /\ shape (fc4_weight n) = [o; i] /\
    shape (value y) = [b; o] /\ (wf (fc4_bias n) -> wf (value y)).
Proof.
  unfold forward. intros H.
  apply bind_inv in H as (x1 & [H1 _]%op_inv & H).
  apply bind_inv in H as (x2 & [H2 _]%op_inv & H).
  apply bind_inv in H as (x3 & [H3 _]%op_inv & H).
  apply bind_inv in H as (x4 & [H4 _]%op_inv & H).
  apply bind_inv in H as (x5 & [H5 _]%op_inv & H).
  apply bind_inv in H as (x6 & [H6 _]%op_inv & H).
  apply bind_inv in H as (x7 & [H7 _]%op_inv & H).
  apply op_inv in H as [H8 _]. simpl in *.
  apply conv2d_inv in H1 as (b & c & h & w & o1 & Hx & Hs1).
  injection H2 as H2. rewrite <- H2 in H3. simpl in H3.
  apply conv2d_inv in H3 as (b' & c' & h' & w' & o2 & Hs1' & Hs3).
  injection H4 as H4. rewrite <- H4 in H5.
  apply flatten_inv in H5 as (b5 & d5 & r5 & Hs4 & Hs5). simpl in Hs4.
  pose proof H6 as (n6 & i6 & o6 & Hs5' & _ & _ & Hx6)%linear_inv.
  injection H7 as H7. rewrite <- H7 in H8.
  pose proof H8 as (n8 & i8 & o8 & Hs7 & Hw8 & _ & Hy)%linear_inv.
  simpl in Hs7. rewrite Hx6 in Hs7. simpl in Hs7.
  exists b, c, h, w, o8, i8.
  split; [done|]. split; [done|]. split.
  - rewrite Hy. simpl in *. congruence.
  - intros Hb. by apply (linear_wf _ _ _ _ H8).
Qed.

Lemma forward_value_of n x g y :
  forward n x g = Ok y -> forward_value n (value x) = Ok (value y).
Proof.
  unfold forward_value, forward. intros H.
  apply bind_inv in H as (x1 & H1 & H).
  apply bind_inv in H as (x2 & H2 & H).
  apply bind_inv in H as (x3 & H3 & H).
  apply bind_inv in H as (x4 & H4 & H).
  apply bind_inv in H as (x5 & H5 & H).
  apply bind_inv in H as (x6 & H6 & H).
  apply bind_inv in H as (x7 & H7 & H).
  replay H1 (constant (value x)) y1 E1 V1.
  replay H2 y1 y2 E2 V2.
  replay H3 y2 y3 E3 V3.
  replay H4 y3 y4 E4 V4.
  replay H5 y4 y5 E5 V5.
  replay H6 y5 y6 E6 V6.
  replay H7 y6 y7 E7 V7.
  replay H y7 y8 E8 V8.
  unfold mbind, torch_bind.
  rewrite E1, E2, E3, E4, E5, E6, E7, E8. simpl. by rewrite V8.
Qed.

Lemma max_dim1_matrix x n k :
  shape x = [n; S k] ->
  max_dim1 x = Ok (Tensor [n] (map (fun r => default nan (max_list r))
                                  (rows n (S k) (data x)))).
Proof. unfold max_dim1. by intros ->. Qed.

Lemma row_of_four n d i :
  length d = (n * 4)%nat -> (i < n)%nat ->
  exists q0 q1 q2 q3, rows n 4 d !! i = Some [q0; q1; q2; q3].
Proof.
  intros Hd Hi. rewrite rows_lookup by done.
  assert (Hl : length (take 4 (drop (i * 4) d)) = 4%nat)
    by (rewrite length_take, length_drop; lia).
  destruct (take 4 (drop (i * 4) d)) as [|q0 [|q1 [|q2 [|q3 [|]]]]];
    try discriminate.
  eauto.
Qed.

Lemma rows_elements n k d i r j :
  rows n k d !! i = Some r -> (j < k)%nat -> d !! (i * k + j)%nat = r !! j.
Proof.
  intros Hr Hj.
  assert (Hi : (i < n)%nat)
    by (apply lookup_lt_Some in Hr; by rewrite rows_length in Hr).
  rewrite rows_lookup in Hr by done. injection Hr as <-.
  by rewrite lookup_take_lt, lookup_drop.
Qed.

Lemma flat_map_singleton {A B} (f : A -> list B) (g : A -> B) (l : list A) :
  (forall x, f x = [g x]) -> flat_map f l = map g l.
Proof. intros H. induction l as [|x l IH]; simpl; [done|]. by rewrite H, IH. Qed.

(** [torch.sum(x, dim=1)] of a matrix with four columns. *)
Lemma sum_dim1_four x n :
  shape x = [n; 4] ->
  sum_dim1 x = Ok (Tensor [n]
    (map (fun i => sum_list [nth (i * 4) (data x) zero; nth (i * 4 + 1) (data x) zero;
                             nth (i * 4 + 2) (data x) zero; nth (i * 4 + 3) (data x) zero])
         (seq 0 n))).
Proof.
  unfold sum_dim1. intros ->. simpl. do 2 f_equal.
  apply flat_map_singleton. intros i.
  by rewrite !Nat.mul_1_r, !Nat.add_0_r.
Qed.

End Tensor_facts.

(** ** The update step *)

Section Update.

Context {opt_state : Type}.
Implicit Types (self : DQN opt_state).

(** The operations of [train_step] in the order of the source, with
    the gradient mode each one runs in. *)
Lemma train_step_locals_inv self bat_s bat_a bat_t bat_n bat_r l :
  train_step_locals self bat_s bat_a bat_t bat_n bat_r true = Ok l ->
  exists bs bn a b c m,
    op OPermute [constant bat_s] true = Ok bs /\
    op OPermute [constant bat_n] true = Ok bn /\
    forward (net self) bn false = Ok (q_next l) /\
    op OMaxDim1 [q_next l] false = Ok (q_t l) /\
    op (ORsub one) [constant bat_t] false = Ok a /\
    op (OMulScalar (discount (params self))) [a] false = Ok b /\
    op OMul [b; q_t l] false = Ok c /\
    op OAdd [constant bat_r; c] false = Ok (yj l) /\
    forward (net self) bs true = Ok (q_pred_all_actions l) /\
    op OMul [q_pred_all_actions l; constant bat_a] true = Ok m /\
    op OSumDim1 [m] true = Ok (q_pred l) /\
    op OMseLoss [q_pred l; yj l] true = Ok (loss l).
Proof.
  unfold train_step_locals. intros H.
  apply bind_inv in H as (bs & Hbs & H).
  apply bind_inv in H as (bn & Hbn & H).
  apply bind_inv in H as ([[qn qt] y] & Hng & H).
  unfold no_grad in Hng.
  apply bind_inv in Hng as (qn' & Hqn & Hng).
  apply bind_inv in Hng as (qt' & Hqt & Hng).
  apply bind_inv in Hng as (y' & Hy & Hng).
  injection Hng as <- <- <-.
  apply bind_inv in Hy as (a & Ha & Hy).
  apply bind_inv in Hy as (b & Hb & Hy).
  apply bind_inv in Hy as (c & Hc & Hy).
  apply bind_inv in H as (qa & Hqa & H).
  apply bind_inv in H as (qp & Hqp & H).
  apply bind_inv in Hqp as (m & Hm & Hqp).
  apply bind_inv in H as (ls & Hls & H).
  injection H as <-. simpl.
  exists bs, bn, a, b, c, m. repeat split; assumption.
Qed.

(** The target of [train_step], row by row. *)
Lemma target_rows self bat_s bat_a bat_t bat_n bat_r l B h w :
  train_step_locals self bat_s bat_a bat_t bat_n bat_r true = Ok l ->
  well_formed (params self) (net self) ->
  batch_of B h w bat_s bat_a bat_t bat_n bat_r ->
  exists bn qn,
    permute_0_3_1_2 bat_n = Ok bn /\
    forward_value (net self) bn = Ok qn /\
    value (q_next l) = qn /\
    shape qn = [B; 4] /\ wf qn /\
    value (yj l) =
      Tensor [B]
        (zip_with add (data bat_r)
           (zip_with mul
              (map (fun v => mul v (discount (params self)))
                   (map (fun v => sub one v) (data bat_t)))
              (map (fun r => default nan (max_list r)) (rows B 4 (data qn))))).
Proof.
  intros Hl (Harch & Hwf) (Hs & Hsw & Ha & Haw & Ht & Htw & Hn & Hnw & Hr & Hrw).
  apply train_step_locals_inv in Hl
    as (bs & bn & a & b & c & m & _ & Hbn & Hqn & Hqt & Hta & Htb & Htc & Hy & _).
  apply op_inv in Hbn as [Hbn _]. simpl in Hbn.
  pose proof Hbn as (b0 & h0 & w0 & c0 & Hn' & Hbns)%permute_inv.
  rewrite Hn in Hn'. injection Hn' as <- <- <- <-.
  pose proof Hqn as (b1 & c1 & h1 & w1 & o & i & Hx & Hw4 & Hqs & Hqw)%forward_inv.
  rewrite Hbns in Hx. injection Hx as <- <- <- <-.
  destruct Harch as (_ & _ & _ & _ & _ & _ & Hf4 & _).
  rewrite Hf4 in Hw4. injection Hw4 as <- <-.
  apply forward_value_of in Hqn.
  exists (value bn), (value (q_next l)).
  split; [done|]. split; [done|]. split; [done|]. split; [done|].
  split; [apply Hqw; tauto|].
  apply op_inv in Hqt as [Hqt _]. simpl in Hqt.
  rewrite (max_dim1_matrix _ B 3 Hqs) in Hqt. injection Hqt as Hqt.
  apply op_inv in Hta as [Hta _]. injection Hta as Hta.
  apply op_inv in Htb as [Htb _]. injection Htb as Htb.
  apply op_inv in Htc as [Htc _]. simpl in Htc.
  apply op_inv in Hy as [Hy _]. simpl in Hy.
  rewrite <- Htb, <- Hta, <- Hqt in Htc.
  rewrite binop_same_shape in Htc; simpl.
  - injection Htc as Htc. rewrite <- Htc in Hy.
    rewrite binop_same_shape in Hy; simpl.
    + injection Hy as Hy. by rewrite <- Hy, Hr.
    + by rewrite Ht.
    + done.
    + unfold wf in *. simpl. rewrite Ht in *. simpl in *.
      rewrite length_zip_with, !length_map, rows_length. lia.
  - by rewrite Ht.
  - by do 2 apply pointwise_wf.
  - unfold wf. simpl. rewrite length_map, rows_length. lia.
Qed.

(** The prediction of [train_step], row by row. *)
Lemma prediction_rows self bat_s bat_a bat_t bat_n bat_r l B h w :
  train_step_locals self bat_s bat_a bat_t bat_n bat_r true = Ok l ->
  well_formed (params self) (net self) ->
  batch_of B h w bat_s bat_a bat_t bat_n bat_r ->
  exists bs qa,
    permute_0_3_1_2 bat_s = Ok bs /\
    forward_value (net self) bs = Ok qa /\
    value (q_pred_all_actions l) = qa /\
    shape qa = [B; 4] /\ wf qa /\
    value (q_pred l) =
      let m := zip_with mul (data qa) (data bat_a) in
      Tensor [B]
        (map (fun i => sum_list [nth (i * 4) m zero; nth (i * 4 + 1) m zero;
                                 nth (i * 4 + 2) m zero; nth (i * 4 + 3) m zero])
             (seq 0 B)).
Proof.
  intros Hl (Harch & Hwf) (Hs & Hsw & Ha & Haw & Ht & Htw & Hn & Hnw & Hr & Hrw).
  apply train_step_locals_inv in Hl
    as (bs & bn & a & b & c & m & Hbs & _ & _ & _ & _ & _ & _ & _ & Hqa & Hm & Hqp & _).
  apply op_inv in Hbs as [Hbs _]. simpl in Hbs.
  pose proof Hbs as (b0 & h0 & w0 & c0 & Hs' & Hbss)%permute_inv.
  rewrite Hs in Hs'. injection Hs' as <- <- <- <-.
  pose proof Hqa as (b1 & c1 & h1 & w1 & o & i & Hx & Hw4 & Hqs & Hqw)%forward_inv.
  rewrite Hbss in Hx. injection Hx as <- <- <- <-.
  destruct Harch as (_ & _ & _ & _ & _ & _ & Hf4 & _).
  rewrite Hf4 in Hw4. injection Hw4 as <- <-.
  apply forward_value_of in Hqa.
  exists (value bs), (value (q_pred_all_actions l)).
  split; [done|]. split; [done|]. split; [done|]. split; [done|].
  assert (Hqw' : wf (value (q_pred_all_actions l))) by (apply Hqw; tauto).
  split; [done|].
  apply op_inv in Hm as [Hm _]. simpl in Hm.
  apply op_inv in Hqp as [Hqp _]. simpl in Hqp.
  rewrite binop_same_shape in Hm by (done || congruence).
  injection Hm as Hm. rewrite <- Hm in Hqp.
  rewrite (sum_dim1_four _ B) in Hqp by (simpl; congruence).
  injection Hqp as Hqp. by rewrite <- Hqp.
Qed.

(** The loss of [train_step]: the mean of the squared differences of
    the predictions and the targets. *)
Lemma loss_value self bat_s bat_a bat_t bat_n bat_r l B h w :
  train_step_locals self bat_s bat_a bat_t bat_n bat_r true = Ok l ->
  well_formed (params self) (net self) ->
  batch_of B h w bat_s bat_a bat_t bat_n bat_r ->
  length (data (value (q_pred l))) = B /\
  length (data (value (yj l))) = B /\
  value (loss l) =
    Tensor [] [div (sum_list (map (fun x => mul x x)
                                (zip_with sub (data (value (q_pred l)))
                                              (data (value (yj l))))))
                   (of_nat B)].
Proof.
  intros Hl Hwf Hb.
  destruct (target_rows _ _ _ _ _ _ _ _ _ _ Hl Hwf Hb)
    as (bn & qn & _ & _ & _ & Hqs & Hqw & Hy).
  destruct (prediction_rows _ _ _ _ _ _ _ _ _ _ Hl Hwf Hb)
    as (bs & qa & _ & _ & _ & _ & _ & Hp).
  destruct Hb as (_ & _ & _ & _ & Ht & Htw & _ & _ & Hr & Hrw).
  unfold wf in Htw, Hrw. rewrite Ht in Htw. rewrite Hr in Hrw. simpl in Htw, Hrw.
  assert (Lp : length (data (value (q_pred l))) = B)
    by (rewrite Hp; simpl; by rewrite length_map, length_seq).
  assert (Ly : length (data (value (yj l))) = B)
    by (rewrite Hy; simpl;
        rewrite !length_zip_with, !length_map, rows_length; lia).
  split; [done|]. split; [done|].
  apply train_step_locals_inv in Hl
    as (? & ? & ? & ? & ? & ? & _ & _ & _ & _ & _ & _ & _ & _ & _ & _ & _ & Hloss).
  apply op_inv in Hloss as [Hloss _]. simpl in Hloss. unfold mse_loss in Hloss.
  rewrite binop_same_shape in Hloss.
  - simpl in Hloss. injection Hloss as <-.
    by rewrite length_map, length_zip_with, Lp, Ly, Nat.min_id.
  - by rewrite Hp, Hy.
  - unfold wf. rewrite Lp, Hp. simpl. lia.
  - unfold wf. rewrite Ly, Hy. simpl. lia.
Qed.

End Update.

(** ** The Bellman target *)

Section Target.

Context {opt_state : Type}.
Implicit Types (self : DQN opt_state).

(** C1, as amended: the target of row [i] is
    [reward + (1 - terminal) * discount * qMax], computed in single
    precision, with [qMax] the maximum of the four outputs of the
    network on the next state; when the terminal flag is 1, the
    discount and [qMax] are finite and the reward is not a NaN, the
    target equals the reward. *)
Theorem bellman_target self bat_s bat_a bat_t bat_n bat_r l B h w :
  train_step_locals self bat_s bat_a bat_t bat_n bat_r true = Ok l ->
  well_formed (params self) (net self) ->
  batch_of B h w bat_s bat_a bat_t bat_n bat_r ->
  exists bn qn,
    permute_0_3_1_2 bat_n = Ok bn /\
    forward_value (net self) bn = Ok qn /\
    forall i, (i < B)%nat ->
      exists r t q0 q1 q2 q3 y,
        data bat_r !! i = Some r /\
        data bat_t !! i = Some t /\
        rows B 4 (data qn) !! i = Some [q0; q1; q2; q3] /\
        data (value (yj l)) !! i = Some y /\
        let q_max := F32.max (F32.max (F32.max q0 q1) q2) q3 in
        y = add r (mul (mul (sub one t) (discount (params self))) q_max) /\
        (t = one -> is_finite (discount (params self)) = true ->
         is_finite q_max = true -> is_nan r = false ->
         eqb y r = true).
Proof.
  intros Hl Hwf Hb.
  destruct (target_rows _ _ _ _ _ _ _ _ _ _ Hl Hwf Hb)
    as (bn & qn & Hbn & Hqn & _ & Hqs & Hqw & Hy).
  destruct Hb as (_ & _ & _ & _ & Ht & Htw & _ & _ & Hr & Hrw).
  exists bn, qn. split; [done|]. split; [done|].
  intros i Hi.
  unfold wf in *. rewrite Ht in Htw. rewrite Hr in Hrw. rewrite Hqs in Hqw.
  simpl in *.
  destruct (lookup_lt_is_Some_2 (data bat_r) i ltac:(lia)) as [r Hri].
  destruct (lookup_lt_is_Some_2 (data bat_t) i ltac:(lia)) as [t Hti].
  destruct (row_of_four B (data qn) i ltac:(lia) Hi) as (q0 & q1 & q2 & q3 & Hq).
  exists r, t, q0, q1, q2, q3.
  eexists. split; [done|]. split; [done|]. split; [done|].
  split.
  { rewrite Hy. simpl.
    rewrite !lookup_zip_with, !lookup_map, Hri, Hti, Hq. reflexivity. }
  simpl. split; [done|].
  intros -> Hg Hq' Hr'. by apply terminal_target.
Qed.

End Target.

(** *** The update step on sample batches *)

Lemma is_ok_Ok {A} (r : result A) : is_ok r = true -> exists a, r = Ok a.
Proof. destruct r as [a|]; [eauto|discriminate]. Defined.

Lemma full_wf (s : list nat) (x : f32) : wf (full s x).
Proof. unfold wf, full. simpl. apply repeat_length. Defined.

Lemma uniform_net_well_formed (width height : nat) (w b : f32) (lr discount : f32)
    (load : option string) :
  well_formed (Config width height lr discount load) (uniform_net width height w b).
Proof.
  split; [apply uniform_net_arch|]. unfold uniform_net. simpl.
  repeat split; apply full_wf.
Defined.

Lemma sample_batch_shapes :
  batch_of 2 1 1 (states sample_batch) (actions sample_batch) (terminals sample_batch)
           (next_states sample_batch) (rewards sample_batch).
Proof. unfold batch_of, wf. simpl. repeat split; reflexivity. Defined.

Lemma sample_locals_ok : is_ok (locals_of sample_trainer sample_batch) = true.
Proof. vm_compute. reflexivity. Defined.

Lemma bellman_target_witness :
  exists l y,
    locals_of sample_trainer sample_batch = Ok l /\
    data (value (yj l)) !! 0%nat = Some y /\
    eqb y (of_Z 5) = true.
Proof.
  destruct (is_ok_Ok _ sample_locals_ok) as [l Hl].
  destruct (bellman_target sample_trainer _ _ _ _ _ l 2 1 1 Hl
              (uniform_net_well_formed 1 1 zero half half half None)
              sample_batch_shapes)
    as (bn & qn & Hbn & Hqn & Hrows).
  destruct (Hrows 0%nat ltac:(lia))
    as (r & t & q0 & q1 & q2 & q3 & y & Hr & Ht & Hq & Hy & Hyv & Hterm).
  exists l, y. split; [exact Hl|]. split; [exact Hy|].
  injection Hr as <-. injection Ht as <-.
  vm_compute in Hbn. injection Hbn as <-.
  vm_compute in Hqn. injection Hqn as <-.
  vm_compute in Hq. injection Hq as <- <- <- <-.
  apply Hterm; reflexivity.
Defined.

(** C1 as stated fails: a terminal transition with reward 5 whose next
    observation holds the largest finite number, on the network of
    unit weights; the outputs overflow to infinity and the target is
    [5 + 0 * discount * inf], a NaN. *)
Lemma terminal_target_is_nan :
  exists l,
    locals_of unit_weight_trainer overflowing_batch = Ok l /\
    forallb is_finite (data (next_states overflowing_batch)) = true /\
    data (terminals overflowing_batch) !! 0%nat = Some one /\
    data (rewards overflowing_batch) !! 0%nat = Some (of_Z 5) /\
    data (value (q_t l)) !! 0%nat = Some pinf /\
    data (value (yj l)) !! 0%nat = Some nan.
Proof.
  eexists. split; [vm_compute; reflexivity|]. vm_compute. repeat split.
Qed.

(** ** The prediction for the action taken *)

Section Prediction.

Context {opt_state : Type}.
Implicit Types (self : DQN opt_state).

(** C2, as amended: the prediction for row [i] is the sum over the four
    actions of the output of the network on the state times the action
    vector; when the action vector is one-hot and the four outputs of
    the row are finite, it equals the output at the index of the 1. *)
Theorem predicted_for_taken self bat_s bat_a bat_t bat_n bat_r l B h w :
  train_step_locals self bat_s bat_a bat_t bat_n bat_r true = Ok l ->
  well_formed (params self) (net self) ->
  batch_of B h w bat_s bat_a bat_t bat_n bat_r ->
  exists bs qa,
    permute_0_3_1_2 bat_s = Ok bs /\
    forward_value (net self) bs = Ok qa /\
    forall i, (i < B)%nat ->
      exists q0 q1 q2 q3 a0 a1 a2 a3 p,
        rows B 4 (data qa) !! i = Some [q0; q1; q2; q3] /\
        rows B 4 (data bat_a) !! i = Some [a0; a1; a2; a3] /\
        data (value (q_pred l)) !! i = Some p /\
        p = sum_list [mul q0 a0; mul q1 a1; mul q2 a2; mul q3 a3] /\
        forall j, one_hot j [a0; a1; a2; a3] ->
          is_finite q0 = true -> is_finite q1 = true ->
          is_finite q2 = true -> is_finite q3 = true ->
          exists q, [q0; q1; q2; q3] !! j = Some q /\ eqb p q = true.
Proof.
  intros Hl Hwf Hb.
  destruct (prediction_rows _ _ _ _ _ _ _ _ _ _ Hl Hwf Hb)
    as (bs & qa & Hbs & Hqa & _ & Hqs & Hqw & Hp).
  destruct Hb as (_ & _ & Ha & Haw & _).
  exists bs, qa. split; [done|]. split; [done|].
  intros i Hi.
  unfold wf in *. rewrite Ha in Haw. rewrite Hqs in Hqw. simpl in *.
  destruct (row_of_four B (data qa) i ltac:(lia) Hi) as (q0 & q1 & q2 & q3 & Hq).
  destruct (row_of_four B (data bat_a) i ltac:(lia) Hi) as (a0 & a1 & a2 & a3 & Hai).
  exists q0, q1, q2, q3, a0, a1, a2, a3.
  eexists. split; [done|]. split; [done|].
  assert (Hm : forall k (q a : f32), (k < 4)%nat ->
            [q0; q1; q2; q3] !! k = Some q -> [a0; a1; a2; a3] !! k = Some a ->
            nth (i * 4 + k) (zip_with mul (data qa) (data bat_a)) zero = mul q a).
  { intros k q a Hk Hqk Hak. apply nth_lookup_Some.
    rewrite lookup_zip_with.
    rewrite (rows_elements _ _ _ _ _ k Hq Hk), (rows_elements _ _ _ _ _ k Hai Hk).
    by rewrite Hqk, Hak. }
  split.
  { rewrite Hp. simpl. rewrite lookup_map, lookup_seq_lt by done. simpl.
    rewrite <- (Nat.add_0_r (i * 4)) at 1.
    rewrite (Hm 0%nat q0 a0), (Hm 1%nat q1 a1), (Hm 2%nat q2 a2), (Hm 3%nat q3 a3)
      by (done || lia).
    reflexivity. }
  split; [done|].
  intros j Hj H0 H1 H2 H3.
  destruct (one_hot_sum q0 q1 q2 q3 _ j Hj eq_refl H0 H1 H2 H3)
    as (a0' & a1' & a2' & a3' & q & Ha' & Hqj & Hfeq).
  injection Ha' as <- <- <- <-.
  exists q. split; [done|].
  apply feq_eqb; [done|].
  apply is_finite_not_nan.
  destruct j as [|[|[|[|j]]]]; simpl in Hqj; by simplify_eq.
Qed.

End Prediction.

Lemma predicted_for_taken_witness :
  exists l p,
    locals_of sample_trainer sample_batch = Ok l /\
    data (value (q_pred l)) !! 0%nat = Some p /\
    eqb p half = true.
Proof.
  destruct (is_ok_Ok _ sample_locals_ok) as [l Hl].
  destruct (predicted_for_taken sample_trainer _ _ _ _ _ l 2 1 1 Hl
              (uniform_net_well_formed 1 1 zero half half half None)
              sample_batch_shapes)
    as (bs & qa & Hbs & Hqa & Hrows).
  destruct (Hrows 0%nat ltac:(lia))
    as (q0 & q1 & q2 & q3 & a0 & a1 & a2 & a3 & p & Hq & Ha & Hp & _ & Hhot).
  exists l, p. split; [exact Hl|]. split; [exact Hp|].
  vm_compute in Hbs. injection Hbs as <-.
  vm_compute in Hqa. injection Hqa as <-.
  vm_compute in Hq. injection Hq as <- <- <- <-.
  vm_compute in Ha. injection Ha as <- <- <- <-.
  destruct (Hhot 0%nat) as (q & Hq & Heq); try reflexivity.
  - split; [simpl; lia|reflexivity].
  - injection Hq as <-. exact Heq.
Defined.

(** C2 as stated fails: with the outputs of a row overflowed to
    infinity, the products with the zeros of the one-hot vector are
    NaN and so is the sum, while the output at the index of the 1 is
    infinite. *)
Lemma prediction_is_nan :
  exists l,
    locals_of unit_weight_trainer overflowing_batch = Ok l /\
    forallb is_finite (data (states overflowing_batch)) = true /\
    one_hot 0 (data (actions overflowing_batch)) /\
    data (value (q_pred_all_actions l)) !! 0%nat = Some pinf /\
    data (value (q_pred l)) !! 0%nat = Some nan /\
    eqb nan pinf = false.
Proof.
  eexists. split; [vm_compute; reflexivity|].
  split; [reflexivity|]. split; [split; [simpl; lia|reflexivity]|].
  vm_compute. repeat split.
Qed.

(** ** The loss *)

Section Loss.

Context {opt_state : Type}.
Variable optimizer_step : opt_state -> net_params -> node -> net_params * opt_state.
Implicit Types (self : DQN opt_state).

(** C9, as amended: the loss returned by [train_step] is the sum of
    the squared differences of the predictions and the targets divided
    by the batch size, in single precision; for a batch that is not
    empty, it is at least 0 when the predictions and the targets are
    finite, and it is 0 when every prediction is finite and equals its
    target. *)
Theorem mse_loss_returned self bat_s bat_a bat_t bat_n bat_r self' g v B h w :
  train_step optimizer_step self bat_s bat_a bat_t bat_n bat_r = Ok (self', (g, v)) ->
  well_formed (params self) (net self) ->
  batch_of B h w bat_s bat_a bat_t bat_n bat_r ->
  exists l,
    train_step_locals self bat_s bat_a bat_t bat_n bat_r true = Ok l /\
    let p := data (value (q_pred l)) in
    let y := data (value (yj l)) in
    length p = B /\ length y = B /\
    v = div (sum_list (map (fun x => mul x x) (zip_with sub p y))) (of_nat B) /\
    ((0 < B)%nat -> (Z.of_nat B < 2 ^ 63)%Z ->
     (Forall (fun x => is_finite x = true) p ->
      Forall (fun x => is_finite x = true) y ->
      leb zero v = true) /\
     (Forall2 (fun a b => is_finite a = true /\ eqb a b = true) p y ->
      v = zero)).
Proof.
  intros Hstep Hwf Hb.
  apply train_step_inv in Hstep as (l & graph & Hl & _ & Hv & _ & _).
  destruct (loss_value _ _ _ _ _ _ _ _ _ _ Hl Hwf Hb) as (Lp & Ly & Hloss).
  exists l. split; [done|]. simpl. split; [done|]. split; [done|].
  rewrite Hloss in Hv. injection Hv as <-. split; [done|].
  intros HB Hlt. destruct (of_nat_finite B HB Hlt) as (m & e & ->).
  split.
  - intros Hp Hy. apply nonneg_leb, div_nonneg, sum_list_nonneg.
    apply Forall_forall. intros x Hx.
    rewrite map_fmap in Hx. apply list_elem_of_fmap in Hx as (d & -> & Hd).
    apply mul_self_nonneg.
    apply elem_of_lookup_zip_with in Hd as (i & a & b & -> & Ha & Hb').
    apply sub_finite_not_nan.
    + by apply (Forall_lookup_1 _ _ _ _ Hp Ha).
    + by apply (Forall_lookup_1 _ _ _ _ Hy Hb').
  - intros Heq. rewrite sum_list_zeros; [done|].
    apply Forall_forall. intros x Hx.
    rewrite map_fmap in Hx. apply list_elem_of_fmap in Hx as (d & -> & Hd).
    apply elem_of_lookup_zip_with in Hd as (i & a & b & -> & Ha & Hb').
    destruct (Forall2_lookup_lr _ _ _ _ _ _ Heq Ha Hb') as [Hfin He].
    destruct (sub_eq_zero a b He Hfin) as [s ->]. apply square_zero.
Qed.

End Loss.

Lemma sample_update_ok : is_ok (update no_update sample_trainer sample_batch) = true.
Proof. vm_compute. reflexivity. Defined.

Lemma mse_loss_returned_witness :
  exists self' g v,
    update no_update sample_trainer sample_batch = Ok (self', (g, v)) /\
    leb zero v = true.
Proof.
  destruct (is_ok_Ok _ sample_update_ok) as [[self' [g v]] Hstep].
  exists self', g, v. split; [exact Hstep|].
  destruct (mse_loss_returned no_update sample_trainer _ _ _ _ _ self' g v 2 1 1 Hstep
              (uniform_net_well_formed 1 1 zero half half half None)
              sample_batch_shapes)
    as (l & Hl & _ & _ & _ & Hpos).
  destruct (Hpos ltac:(lia) ltac:(simpl; lia)) as [Hnonneg _].
  vm_compute in Hl. injection Hl as <-.
  apply Hnonneg; repeat constructor.
Defined.

(** C9 as stated fails: on the overflowing batch the prediction and
    the target are NaN, and so is the returned loss; a NaN is not at
    least 0. *)
Lemma loss_is_nan :
  forallb is_finite (data (states overflowing_batch)) = true /\
  forallb is_finite (data (next_states overflowing_batch)) = true /\
  snd <$> update no_update unit_weight_trainer overflowing_batch = Ok (1%Z, nan) /\
  leb zero nan = false.
Proof. vm_compute. repeat split. Qed.

Lemma sample_run_ok :
  is_ok (train_steps no_update sample_trainer [sample_batch; sample_batch]) = true.
Proof. vm_compute. reflexivity. Defined.

Lemma global_step_counts_updates_witness :
  exists run,
    train_steps no_update sample_trainer [sample_batch; sample_batch] = Ok run /\
    global_step (before sample_trainer run 2) = 2%Z.
Proof.
  destruct (is_ok_Ok _ sample_run_ok) as [run Hrun].
  exists run. split; [exact Hrun|].
  apply (global_step_counts_updates no_update sample_trainer _ run Hrun).
Defined.

(** ** The gradient path *)

Section Gradient.

Context {opt_state : Type}.
Variable optimizer_step : opt_state -> net_params -> node -> net_params * opt_state.
Implicit Types (self : DQN opt_state).

(** With gradient mode on, the output of the network records the eight
    operations of [forward]. *)
Lemma forward_grad_fn n x y :
  forward n x true = Ok y -> grad_fn y = Some (forward_graph (node_of x)).
Proof.
  unfold forward. intros H.
  apply bind_inv in H as (x1 & [_ G1]%op_inv & H).
  apply bind_inv in H as (x2 & [_ G2]%op_inv & H).
  apply bind_inv in H as (x3 & [_ G3]%op_inv & H).
  apply bind_inv in H as (x4 & [_ G4]%op_inv & H).
  apply bind_inv in H as (x5 & [_ G5]%op_inv & H).
  apply bind_inv in H as (x6 & [_ G6]%op_inv & H).
  apply bind_inv in H as (x7 & [_ G7]%op_inv & H).
  apply op_inv in H as [_ G8].
  unfold requires_grad, node_of in *. simpl in *.
  rewrite orb_true_r in G1.
  rewrite G1 in G2; simpl in G2. rewrite G2 in G3; simpl in G3.
  rewrite G3 in G4; simpl in G4. rewrite G4 in G5; simpl in G5.
  rewrite G5 in G6; simpl in G6. rewrite G6 in G7; simpl in G7.
  rewrite G7 in G8; simpl in G8. by rewrite G8.
Qed.

(** With gradient mode off, it records nothing. *)
Lemma forward_no_grad n x y : forward n x false = Ok y -> grad_fn y = None.
Proof.
  unfold forward. intros H.
  repeat (apply bind_inv in H as (? & _ & H)).
  by apply op_inv in H as [_ G].
Qed.

(** The recorded history of a forward pass evaluates to the forward
    pass. *)
Lemma eval_parameters n :
  eval n (NParam "conv1.weight") = Ok (conv1_weight n) /\
  eval n (NParam "conv1.bias") = Ok (conv1_bias n) /\
  eval n (NParam "conv2.weight") = Ok (conv2_weight n) /\
  eval n (NParam "conv2.bias") = Ok (conv2_bias n) /\
  eval n (NParam "fc3.weight") = Ok (fc3_weight n) /\
  eval n (NParam "fc3.bias") = Ok (fc3_bias n) /\
  eval n (NParam "fc4.weight") = Ok (fc4_weight n) /\
  eval n (NParam "fc4.bias") = Ok (fc4_bias n).
Proof. unfold eval, state_dict. simpl. by simplify_map_eq. Qed.

Lemma eval_op1 n o a : eval n (NOp o [a]) = (v ← eval n a; apply o [v]).
Proof. simpl. by destruct (eval n a). Qed.

Lemma eval_op2 n o a b :
  eval n (NOp o [a; b]) = (va ← eval n a; vb ← eval n b; apply o [va; vb]).
Proof. simpl. destruct (eval n a); [|done]. by destruct (eval n b). Qed.

(** A layer: an operation on an input and two parameters. *)
Lemma eval_layer n o a w b tw tb :
  eval n (NParam w) = Ok tw -> eval n (NParam b) = Ok tb ->
  eval n (NOp o [a; NParam w; NParam b]) = (va ← eval n a; apply o [va; tw; tb]).
Proof.
  intros Hw Hb. simpl in *. destruct (eval n a); simpl; [|done].
  destruct (state_dict n !! w); simplify_eq/=.
  by destruct (state_dict n !! b); simplify_eq/=.
Qed.

Lemma op_false o args :
  op o args false = (v ← apply o (map value args); Ok (Var v None)).
Proof. reflexivity. Qed.

Lemma eval_forward_graph n s :
  eval n (forward_graph (NConst s)) = forward_value n s.
Proof.
  destruct (eval_parameters n) as (P1 & P2 & P3 & P4 & P5 & P6 & P7 & P8).
  unfold forward_value, forward, forward_graph.
  rewrite (eval_layer _ _ _ _ _ _ _ P7 P8), eval_op1,
    (eval_layer _ _ _ _ _ _ _ P5 P6), !eval_op1,
    (eval_layer _ _ _ _ _ _ _ P3 P4), eval_op1,
    (eval_layer _ _ _ _ _ _ _ P1 P2).
  unfold fmap, result_fmap, mbind, torch_bind, result_bind.
  change (eval n (NConst s)) with (Ok s : result tensor).
  repeat (rewrite ?op_false; unfold mbind, result_bind;
          cbn [map value constant parameter];
          match goal with
          | |- context [apply ?o ?l] => destruct (apply o l); [|done]
          end).
  done.
Qed.

(** The recorded history of the loss evaluates to the mean squared
    error of the selected outputs against the constant target. *)
Lemma eval_loss_graph n s a y :
  eval n (loss_graph s a y) = loss_of s a y n.
Proof.
  unfold loss_graph, loss_of.
  rewrite eval_op2, eval_op1, eval_op2, eval_forward_graph.
  destruct (forward_value n s) as [q|]; [|done]. simpl.
  destruct (binop mul q a) as [m|]; [|done]. simpl.
  by destruct (sum_dim1 m).
Qed.

(** C3: the target is computed without a record, so the history of the
    loss that [backward] differentiates is the mean squared error of
    the selected outputs of the forward pass on the state against the
    target as a constant; as a function of the parameters it is
    [loss_of] at the fixed target, and the update applied by the
    optimizer is its step on that history. *)
Theorem target_is_constant_in_gradient
    self bat_s bat_a bat_t bat_n bat_r self' g v :
  train_step optimizer_step self bat_s bat_a bat_t bat_n bat_r = Ok (self', (g, v)) ->
  exists l bs,
    train_step_locals self bat_s bat_a bat_t bat_n bat_r true = Ok l /\
    permute_0_3_1_2 bat_s = Ok bs /\
    grad_fn (q_next l) = None /\ grad_fn (q_t l) = None /\ grad_fn (yj l) = None /\
    let target := value (yj l) in
    grad_fn (loss l) = Some (loss_graph bs bat_a target) /\
    (forall n, eval n (loss_graph bs bat_a target) = loss_of bs bat_a target n) /\
    loss_of bs bat_a target (net self) = Ok (value (loss l)) /\
    (net self', optimizer self')
      = optimizer_step (optimizer self) (net self) (loss_graph bs bat_a target).
Proof.
  intros Hstep.
  apply train_step_inv in Hstep as (l & graph & Hl & Hg & _ & -> & _).
  pose proof Hl as (bs & bn & a & b & c & m & Hbs & Hbn & Hqn & Hqt & Ha & Hb & Hc
                    & Hy & Hqa & Hm & Hqp & Hloss)%train_step_locals_inv.
  apply op_inv in Hbs as [Vbs Gbs].
  pose proof (forward_no_grad _ _ _ Hqn) as Gqn.
  apply op_inv in Hqt as [_ Gqt]. apply op_inv in Hy as [_ Gy].
  pose proof (forward_grad_fn _ _ _ Hqa) as Gqa.
  pose proof (forward_value_of _ _ _ _ Hqa) as Vqa.
  apply op_inv in Hm as [Vm Gm]. apply op_inv in Hqp as [Vqp Gqp].
  apply op_inv in Hloss as [Vloss Gloss].
  unfold requires_grad, node_of in Gbs, Gqa, Gm, Gqp, Gloss, Gqt, Gy.
  cbn [apply map value constant] in Vbs, Vm, Vqp, Vloss.
  cbn [existsb map grad_fn value constant andb orb] in Gbs, Gm, Gqp, Gloss, Gqt, Gy.
  rewrite Gbs in Gqa. rewrite Gqa in Gm. rewrite Gm in Gqp.
  rewrite Gqp, Gy in Gloss. cbn [orb] in Gloss.
  rewrite Gloss in Hg. injection Hg as <-.
  exists l, (value bs). split; [done|]. split; [done|].
  split; [done|]. split; [done|]. split; [done|].
  split; [done|]. split; [intros n; apply eval_loss_graph|].
  split.
  - unfold loss_of. rewrite Vqa. cbn [mbind result_bind].
    rewrite Vm. cbn [mbind result_bind]. by rewrite Vqp.
  - simpl. by destruct (optimizer_step _ _ _).
Qed.

End Gradient.

Lemma target_is_constant_in_gradient_witness :
  exists self' g v l,
    update no_update sample_trainer sample_batch = Ok (self', (g, v)) /\
    locals_of sample_trainer sample_batch = Ok l /\
    grad_fn (yj l) = None /\
    exists bs, grad_fn (loss l)
               = Some (loss_graph bs (actions sample_batch) (value (yj l))).
Proof.
  destruct (is_ok_Ok _ sample_update_ok) as [[self' [g v]] Hstep].
  destruct (target_is_constant_in_gradient no_update sample_trainer
              _ _ _ _ _ self' g v Hstep)
    as (l & bs & Hl & _ & _ & _ & Hy & Hg & _).
  exists self', g, v, l. split; [exact Hstep|]. split; [exact Hl|].
  split; [exact Hy|]. exists bs. exact Hg.
Defined.

(** ** The shape contract of [forward] *)

Section Contract.

Lemma bind_ok {A B} (m : torch A) (f : A -> torch B) g a :
  m g = Ok a -> (m ≫= f) g = f a g.
Proof. unfold mbind, torch_bind. by intros ->. Qed.

Lemma bind_raise {A B} (m : torch A) (f : A -> torch B) g e :
  m g = Raise e -> (m ≫= f) g = Raise e.
Proof. unfold mbind, torch_bind. by intros ->. Qed.

Lemma op_ok o args g t :
  apply o (map value args) = Ok t -> exists v, op o args g = Ok v /\ value v = t.
Proof. unfold op. intros ->. simpl. eauto. Qed.

Lemma op_raise o args g e :
  apply o (map value args) = Raise e -> op o args g = Raise e.
Proof. unfold op. by intros ->. Qed.

Lemma permute_ok x b h w c :
  shape x = [b; h; w; c] ->
  exists y, permute_0_3_1_2 x = Ok y /\ shape y = [b; c; h; w].
Proof. unfold permute_0_3_1_2. intros ->. eauto. Qed.

Lemma conv2d_ok x wt bias b c h w o :
  shape x = [b; c; h; w] -> shape wt = [o; c; 3; 3] -> shape bias = [o] ->
  (0 < h)%nat -> (0 < w)%nat ->
  exists y, conv2d x wt bias = Ok y /\ shape y = [b; o; h; w].
Proof.
  unfold conv2d. intros -> -> -> Hh%Nat.ltb_lt Hw%Nat.ltb_lt.
  rewrite !Nat.eqb_refl, Hh, Hw. cbn [andb]. eauto.
Qed.

Lemma conv2d_empty x wt bias b c c' h w o o' :
  shape x = [b; c; h; w] -> shape wt = [o; c'; 3; 3] -> shape bias = [o'] ->
  h = 0%nat \/ w = 0%nat -> conv2d x wt bias = Raise RuntimeError.
Proof.
  unfold conv2d. intros -> -> -> [-> | ->]; cbn [Nat.ltb Nat.leb];
    by rewrite ?andb_false_r.
Qed.

Lemma conv2d_channels x wt bias b c c' h w o :
  shape x = [b; c; h; w] -> shape wt = [o; c'; 3; 3] -> shape bias = [o] ->
  c <> c' -> conv2d x wt bias = Raise RuntimeError.
Proof.
  unfold conv2d. intros -> -> -> Hc.
  apply Nat.eqb_neq in Hc. by rewrite Hc.
Qed.

Lemma linear_ok x wt bias n i o :
  shape x = [n; i] -> shape wt = [o; i] -> shape bias = [o] ->
  exists y, linear x wt bias = Ok y /\ shape y = [n; o].
Proof.
  unfold linear. intros -> -> ->. rewrite !Nat.eqb_refl. cbn [andb]. eauto.
Qed.

Lemma linear_features x wt bias n i i' o :
  shape x = [n; i] -> shape wt = [o; i'] -> shape bias = [o] ->
  i <> i' -> linear x wt bias = Raise RuntimeError.
Proof.
  unfold linear. intros -> -> -> Hi.
  apply Nat.eqb_neq in Hi. by rewrite Hi.
Qed.

(** The two convolutions and the flattening of [forward]: they accept
    every batch of six-channel images that are not empty and keep its
    height and width. *)
Lemma forward_features p n x g B h w :
  arch p n -> shape (value x) = [B; 6; h; w] ->
  (0 < h)%nat -> (0 < w)%nat ->
  exists x5 : var,
    shape (value x5) = [B; 32 * (h * w)] /\
    forall k : var -> torch var,
      (x1 ← op OConv2d [x; parameter "conv1.weight" (conv1_weight n);
                           parameter "conv1.bias" (conv1_bias n)];
       x2 ← op ORelu [x1];
       x3 ← op OConv2d [x2; parameter "conv2.weight" (conv2_weight n);
                            parameter "conv2.bias" (conv2_bias n)];
       x4 ← op ORelu [x3];
       x5 ← op OFlatten [x4];
       k x5) g = k x5 g.
Proof.
  intros (A1 & A2 & A3 & A4 & _) Hx Hh Hw.
  destruct (conv2d_ok _ _ _ _ _ _ _ _ Hx A1 A2 Hh Hw) as (t1 & E1 & S1).
  destruct (op_ok OConv2d [x; parameter "conv1.weight" (conv1_weight n);
                              parameter "conv1.bias" (conv1_bias n)] g t1 E1)
    as (x1 & O1 & V1).
  destruct (op_ok ORelu [x1] g (relu_t (value x1)) eq_refl) as (x2 & O2 & V2).
  assert (S2 : shape (value x2) = [B; 16; h; w]) by (by rewrite V2, V1).
  destruct (conv2d_ok _ _ _ _ _ _ _ _ S2 A3 A4 Hh Hw) as (t3 & E3 & S3).
  destruct (op_ok OConv2d [x2; parameter "conv2.weight" (conv2_weight n);
                               parameter "conv2.bias" (conv2_bias n)] g t3 E3)
    as (x3 & O3 & V3).
  destruct (op_ok ORelu [x3] g (relu_t (value x3)) eq_refl) as (x4 & O4 & V4).
  assert (S4 : shape (value x4) = [B; 32; h; w]) by (by rewrite V4, V3).
  assert (E5 : flatten_1 (value x4)
               = Ok (Tensor [B; numel [32; h; w]] (data (value x4))))
    by (unfold flatten_1; by rewrite S4).
  destruct (op_ok OFlatten [x4] g _ E5) as (x5 & O5 & V5).
  exists x5. split.
  - rewrite V5. simpl. do 2 f_equal. lia.
  - intros k.
    rewrite (bind_ok _ _ _ _ O1), (bind_ok _ _ _ _ O2), (bind_ok _ _ _ _ O3),
      (bind_ok _ _ _ _ O4), (bind_ok _ _ _ _ O5).
    reflexivity.
Qed.

(** [forward] returns on every batch of six-channel images that are
    not empty and have as many cells as the grid of the
    configuration. *)
Lemma forward_ok p n x g B h w :
  arch p n -> shape (value x) = [B; 6; h; w] ->
  (0 < h)%nat -> (0 < w)%nat ->
  (h * w = width p * height p)%nat ->
  exists y, forward n x g = Ok y /\ shape (value y) = [B; 4].
Proof.
  intros Harch Hx Hh Hw Hhw.
  destruct (forward_features p n x g B h w Harch Hx Hh Hw) as (x5 & S5 & Hk).
  destruct Harch as (_ & _ & _ & _ & A5 & A6 & A7 & A8).
  assert (S5' : shape (value x5) = [B; 32 * width p * height p])
    by (rewrite S5; do 2 f_equal; lia).
  destruct (linear_ok _ _ _ _ _ _ S5' A5 A6) as (t6 & E6 & S6).
  destruct (op_ok OLinear [x5; parameter "fc3.weight" (fc3_weight n);
                               parameter "fc3.bias" (fc3_bias n)] g t6 E6)
    as (x6 & O6 & V6).
  destruct (op_ok ORelu [x6] g (relu_t (value x6)) eq_refl) as (x7 & O7 & V7).
  assert (S7 : shape (value x7) = [B; 256]) by (by rewrite V7, V6).
  destruct (linear_ok _ _ _ _ _ _ S7 A7 A8) as (t8 & E8 & S8).
  destruct (op_ok OLinear [x7; parameter "fc4.weight" (fc4_weight n);
                               parameter "fc4.bias" (fc4_bias n)] g t8 E8)
    as (y & O8 & V8).
  exists y. split; [|by rewrite V8].
  unfold forward. rewrite Hk.
  by rewrite (bind_ok _ _ _ _ O6), (bind_ok _ _ _ _ O7).
Qed.

(** X3: on a batch of [B] images of six channels that are not empty
    and whose height times width is the number of cells of the
    configured grid, [forward] returns a matrix of [B] rows of four
    action values. *)
Theorem forward_returns_action_values p n x B h w :
  well_formed p n -> shape x = [B; 6; h; w] ->
  (0 < h)%nat -> (0 < w)%nat ->
  (h * w = width p * height p)%nat ->
  exists q, forward_value n x = Ok q /\ shape q = [B; 4] /\
            length (data q) = (B * 4)%nat.
Proof.
  intros [Harch Hwf] Hx Hh Hw Hhw.
  destruct (forward_ok p n (constant x) false B h w Harch Hx Hh Hw Hhw) as (y & Hy & Sy).
  exists (value y). unfold forward_value. rewrite Hy. split; [done|]. split; [done|].
  apply forward_inv in Hy as (b & c & h' & w' & o & i & _ & _ & Sy' & Hwfy).
  assert (Hq : wf (value y)) by (apply Hwfy; tauto).
  unfold wf in Hq. rewrite Hq, Sy. simpl. lia.
Qed.

(** An image without rows or columns is refused by the first
    convolution. *)
Lemma forward_empty p n (x : var) g B c h w :
  arch p n -> shape (value x) = [B; c; h; w] -> h = 0%nat \/ w = 0%nat ->
  forward n x g = Raise RuntimeError.
Proof.
  intros (A1 & A2 & _) Hx Hempty.
  unfold forward. rewrite (bind_raise _ _ _ RuntimeError); [done|].
  apply op_raise. cbn [map value parameter apply].
  by apply (conv2d_empty _ _ _ _ _ _ _ _ _ _ Hx A1 A2).
Qed.

Lemma forward_wrong_shape p n x B c h w :
  arch p n -> shape x = [B; c; h; w] ->
  c <> 6%nat \/ (h * w <> width p * height p)%nat ->
  forward_value n x = Raise RuntimeError.
Proof.
  intros Harch Hx Hbad. unfold forward_value.
  destruct (decide (h = 0%nat \/ w = 0%nat)) as [Hempty|Hfull].
  { by rewrite (forward_empty p n (constant x) false B c h w Harch Hx Hempty). }
  destruct (decide (c = 6%nat)) as [->|Hc].
  - destruct Hbad as [|Hhw]; [done|].
    destruct (forward_features p n (constant x) false B h w Harch Hx) as (x5 & S5 & Hk);
      [lia|lia|].
    destruct Harch as (_ & _ & _ & _ & A5 & A6 & _).
    unfold forward. rewrite Hk.
    rewrite (bind_raise _ _ _ RuntimeError); [done|].
    apply op_raise. cbn [map value parameter apply].
    apply (linear_features _ _ _ _ _ _ _ S5 A5 A6). lia.
  - destruct Harch as (A1 & A2 & _).
    unfold forward. rewrite (bind_raise _ _ _ RuntimeError); [done|].
    apply op_raise. cbn [map value parameter constant apply].
    by apply (conv2d_channels _ _ _ _ _ _ _ _ _ Hx A1 A2).
Qed.

(** X4: a batch of images with another number of channels than six, or
    with another number of cells than the configured grid, makes
    [forward] raise a [RuntimeError]. *)
Theorem forward_rejects_other_shapes p n x B c h w :
  arch p n -> shape x = [B; c; h; w] ->
  c <> 6%nat \/ (h * w <> width p * height p)%nat ->
  forward_value n x = Raise RuntimeError.
Proof. apply forward_wrong_shape. Qed.

End Contract.

(** ** The batch contract of [train_step] *)

Section Update_contract.

Context {opt_state : Type}.
Variable optimizer_step : opt_state -> net_params -> node -> net_params * opt_state.
Implicit Types (self : DQN opt_state).

Lemma binop_ok f a b :
  shape b = shape a -> exists t, binop f a b = Ok t /\ shape t = shape a.
Proof.
  unfold binop. intros ->. rewrite broadcast_shapes_same. eauto.
Qed.

Lemma no_grad_ok {A} (c : torch A) g a : c false = Ok a -> no_grad c g = Ok a.
Proof. done. Qed.

Lemma no_grad_raise {A} (c : torch A) g e : c false = Raise e -> no_grad c g = Raise e.
Proof. done. Qed.

(** The discounted term of the target, [(1 - bat_t) * discount * q_t]:
    its operations return on terminal flags of the length of the
    batch. *)
Lemma target_product self (bn bat_t : var) B h w :
  arch (params self) (net self) ->
  shape (value bn) = [B; 6; h; w] ->
  (0 < h)%nat -> (0 < w)%nat ->
  (h * w = width (params self) * height (params self))%nat ->
  shape (value bat_t) = [B] ->
  exists q_next q_t a b c,
    forward (net self) bn false = Ok q_next /\
    op OMaxDim1 [q_next] false = Ok q_t /\
    op (ORsub one) [bat_t] false = Ok a /\
    op (OMulScalar (discount (params self))) [a] false = Ok b /\
    op OMul [b; q_t] false = Ok c /\
    shape (value c) = [B].
Proof.
  intros Harch Hbn Hh Hw Hhw Ht.
  destruct (forward_ok _ _ bn false B h w Harch Hbn Hh Hw Hhw) as (qn & Eqn & Sqn).
  destruct (op_ok OMaxDim1 [qn] false _ (max_dim1_matrix _ B 3 Sqn)) as (qt & Eqt & Vqt).
  destruct (op_ok (ORsub one) [bat_t] false _ eq_refl) as (a & Ea & Va).
  destruct (op_ok (OMulScalar (discount (params self))) [a] false _ eq_refl)
    as (b & Eb & Vb).
  assert (Sb : shape (value b) = [B]) by (by rewrite Vb, Va).
  assert (Sqt : shape (value qt) = [B]) by (by rewrite Vqt).
  destruct (binop_ok mul (value b) (value qt)) as (tc & Etc & Stc); [congruence|].
  destruct (op_ok OMul [b; qt] false tc Etc) as (c & Ec & Vc).
  exists qn, qt, a, b, c. repeat split; try done. rewrite Vc. congruence.
Qed.

(** The target block of [train_step] returns on terminal flags and
    rewards of the length of the batch. *)
Lemma target_ok self (bn bat_t bat_r : var) B h w :
  arch (params self) (net self) ->
  shape (value bn) = [B; 6; h; w] ->
  (0 < h)%nat -> (0 < w)%nat ->
  (h * w = width (params self) * height (params self))%nat ->
  shape (value bat_t) = [B] -> shape (value bat_r) = [B] ->
  exists q_next q_t yj,
    (q_next ← forward (net self) bn;
     q_t ← op OMaxDim1 [q_next];
     yj ← (a ← op (ORsub one) [bat_t];
           b ← op (OMulScalar (discount (params self))) [a];
           c ← op OMul [b; q_t];
           op OAdd [bat_r; c]);
     mret (q_next, q_t, yj)) false = Ok (q_next, q_t, yj) /\
    shape (value yj) = [B].
Proof.
  intros Harch Hbn Hh Hw Hhw Ht Hr.
  destruct (target_product self bn bat_t B h w Harch Hbn Hh Hw Hhw Ht)
    as (qn & qt & a & b & c & Eqn & Eqt & Ea & Eb & Ec & Sc).
  destruct (binop_ok add (value bat_r) (value c)) as (ty & Ety & Sty); [congruence|].
  destruct (op_ok OAdd [bat_r; c] false ty Ety) as (y & Ey & Vy).
  exists qn, qt, y. split; [|rewrite Vy; congruence].
  rewrite (bind_ok _ _ _ _ Eqn), (bind_ok _ _ _ _ Eqt).
  erewrite (bind_ok (_ ≫= _)); [reflexivity|].
  by rewrite (bind_ok _ _ _ _ Ea), (bind_ok _ _ _ _ Eb), (bind_ok _ _ _ _ Ec).
Qed.

(** Lines 98 to 138 return on every batch of the contract whose images
    are not empty and have as many cells as the configured grid. *)
Lemma train_step_locals_ok self bat_s bat_a bat_t bat_n bat_r B h w :
  arch (params self) (net self) ->
  batch_of B h w bat_s bat_a bat_t bat_n bat_r ->
  (0 < h)%nat -> (0 < w)%nat ->
  (h * w = width (params self) * height (params self))%nat ->
  exists l, train_step_locals self bat_s bat_a bat_t bat_n bat_r true = Ok l.
Proof.
  intros Harch (Hs & _ & Ha & _ & Ht & _ & Hn & _ & Hr & _) Hh Hw Hhw.
  destruct (permute_ok _ _ _ _ _ Hs) as (ts & Ets & Sts).
  destruct (op_ok OPermute [constant bat_s] true ts Ets) as (bs & Ebs & Vbs).
  destruct (permute_ok _ _ _ _ _ Hn) as (tn & Etn & Stn).
  destruct (op_ok OPermute [constant bat_n] true tn Etn) as (bn & Ebn & Vbn).
  destruct (target_ok self bn (constant bat_t) (constant bat_r) B h w Harch)
    as (qn & qt & y & Ey & Sy); [by rewrite Vbn|done|done|done|done|done|].
  destruct (forward_ok _ _ bs true B h w Harch) as (qa & Eqa & Sqa);
    [by rewrite Vbs|done|done|done|].
  destruct (binop_ok mul (value qa) bat_a) as (tm & Etm & Stm); [congruence|].
  destruct (op_ok OMul [qa; constant bat_a] true tm Etm) as (m & Em & Vm).
  assert (Sm : shape (value m) = [B; 4]) by (rewrite Vm; congruence).
  destruct (op_ok OSumDim1 [m] true _ (sum_dim1_four _ B Sm)) as (qp & Eqp & Vqp).
  assert (Sqp : shape (value qp) = [B]) by (by rewrite Vqp).
  destruct (binop_ok sub (value qp) (value y)) as (td & Etd & Std); [congruence|].
  eassert (Etl : mse_loss (value qp) (value y) = Ok _)
    by (unfold mse_loss; rewrite Etd; reflexivity).
  destruct (op_ok OMseLoss [qp; y] true _ Etl) as (ls & Els & Vls).
  exists (Locals qn qt y qa qp ls).
  unfold train_step_locals. cbv zeta.
  rewrite (bind_ok _ _ _ _ Ebs), (bind_ok _ _ _ _ Ebn).
  rewrite (bind_ok _ _ _ _ (no_grad_ok _ true _ Ey)).
  rewrite (bind_ok _ _ _ _ Eqa).
  erewrite (bind_ok (_ ≫= _));
    [|rewrite (bind_ok _ _ _ _ Em); exact Eqp].
  by rewrite (bind_ok _ _ _ _ Els).
Qed.

(** The loss of [train_step] has a recorded history and one element. *)
Lemma loss_is_a_scalar_with_history self bat_s bat_a bat_t bat_n bat_r l :
  train_step_locals self bat_s bat_a bat_t bat_n bat_r true = Ok l ->
  (exists g, grad_fn (loss l) = Some g) /\
  (exists v, item (value (loss l)) = Ok v).
Proof.
  intros Hl.
  apply train_step_locals_inv in Hl
    as (bs & bn & a & b & c & m & _ & _ & _ & _ & _ & _ & _ & _ & Hqa & Hm & Hqp & Hloss).
  pose proof (forward_grad_fn _ _ _ Hqa) as Gqa.
  apply op_inv in Hm as [_ Gm]. apply op_inv in Hqp as [_ Gqp].
  apply op_inv in Hloss as [Vloss Gloss].
  unfold requires_grad in Gm, Gqp, Gloss.
  cbn [existsb andb] in Gm, Gqp, Gloss.
  rewrite Gqa in Gm. cbn [orb] in Gm.
  rewrite Gm in Gqp. cbn [orb] in Gqp.
  rewrite Gqp in Gloss. cbn [orb] in Gloss.
  split; [eauto|].
  cbn [apply map] in Vloss. unfold mse_loss in Vloss.
  destruct (binop sub (value (q_pred l)) (value (yj l))) as [d|]; [|done].
  simpl in Vloss. injection Vloss as <-. simpl. eauto.
Qed.

(** [train_step] on a batch of the contract: the object it leaves. *)
Lemma train_step_ok self bat_s bat_a bat_t bat_n bat_r B h w :
  arch (params self) (net self) ->
  batch_of B h w bat_s bat_a bat_t bat_n bat_r ->
  (0 < h)%nat -> (0 < w)%nat ->
  (h * w = width (params self) * height (params self))%nat ->
  exists g v,
    train_step optimizer_step self bat_s bat_a bat_t bat_n bat_r
      = Ok (Build_DQN (params self)
              (fst (optimizer_step (optimizer self) (net self) g))
              (snd (optimizer_step (optimizer self) (net self) g))
              (global_step self + 1),
            ((global_step self + 1)%Z, v)).
Proof.
  intros Harch Hb Hh Hw Hhw.
  destruct (train_step_locals_ok self _ _ _ _ _ B h w Harch Hb Hh Hw Hhw) as [l Hl].
  destruct (loss_is_a_scalar_with_history _ _ _ _ _ _ _ Hl) as [[g Hg] [v Hv]].
  exists g, v. unfold train_step. rewrite Hl. simpl. rewrite Hg.
  destruct (optimizer_step (optimizer self) (net self) g) as [n o] eqn:Eo.
  by rewrite Hv.
Qed.

(** X5: on every batch of the contract ([B] transitions on images
    that are not empty and have as many cells as the configured grid),
    [train_step] returns: it raises nothing, counts one step and keeps
    the configuration. *)
Theorem train_step_returns self bat_s bat_a bat_t bat_n bat_r B h w :
  arch (params self) (net self) ->
  batch_of B h w bat_s bat_a bat_t bat_n bat_r ->
  (0 < h)%nat -> (0 < w)%nat ->
  (h * w = width (params self) * height (params self))%nat ->
  exists self' v,
    train_step optimizer_step self bat_s bat_a bat_t bat_n bat_r
      = Ok (self', ((global_step self + 1)%Z, v)) /\
    params self' = params self /\
    global_step self' = (global_step self + 1)%Z.
Proof.
  intros Harch Hb Hh Hw Hhw.
  destruct (train_step_ok self _ _ _ _ _ B h w Harch Hb Hh Hw Hhw) as (g & v & ->).
  eauto.
Qed.

(** X27: when the optimizer keeps the shapes of the parameters, the
    training loop returns on every sequence of batches of the
    contract, and after [K] batches the step count is the initial one
    plus [K]. *)
Theorem training_loop_returns self (bs : list batch) h w :
  (forall o n g, arch (params self) n ->
                 arch (params self) (fst (optimizer_step o n g))) ->
  arch (params self) (net self) ->
  (0 < h)%nat -> (0 < w)%nat ->
  (h * w = width (params self) * height (params self))%nat ->
  Forall (fun b => exists B, batch_of B h w (states b) (actions b) (terminals b)
                                      (next_states b) (rewards b)) bs ->
  exists run,
    train_steps optimizer_step self bs = Ok run /\
    length run = length bs /\
    global_step (before self run (length bs))
      = (global_step self + Z.of_nat (length bs))%Z.
Proof.
  intros Hopt Harch Hh Hw Hhw Hbs.
  assert (Hrun : exists run, train_steps optimizer_step self bs = Ok run).
  { revert self Hopt Harch Hhw.
    induction Hbs as [|b bs [B Hb] _ IH]; intros self Hopt Harch Hhw; [by exists []|].
    destruct (train_step_ok self _ _ _ _ _ B h w Harch Hb Hh Hw Hhw) as (g & v & E).
    cbn [train_steps]. unfold update. rewrite E. cbn [mbind result_bind fst].
    match goal with |- context [train_steps _ ?s bs] =>
      destruct (IH s) as [rest ->]; [done|by apply Hopt|done|] end.
    simpl. eauto. }
  destruct Hrun as [run Hrun]. exists run. split; [done|].
  by apply (train_steps_before optimizer_step self bs run (length bs) Hrun).
Qed.

(** X6: rewards of another length than the batch (neither of the two
    lengths being 1, which broadcasts) make [train_step] raise a
    [RuntimeError]: the sum [bat_r + ...] of line 123 has no common
    shape (on images without rows or columns the forward pass of line
    117 raises it before). *)
Theorem train_step_rejects_reward_length
    self bat_s bat_a bat_t bat_n bat_r B B' h w :
  arch (params self) (net self) ->
  shape bat_s = [B; h; w; 6] -> shape bat_n = [B; h; w; 6] ->
  shape bat_t = [B] -> shape bat_r = [B'] ->
  (h * w = width (params self) * height (params self))%nat ->
  B' <> B -> B' <> 1%nat -> B <> 1%nat ->
  train_step optimizer_step self bat_s bat_a bat_t bat_n bat_r = Raise RuntimeError.
Proof.
  intros Harch Hs Hn Ht Hr Hhw HB HB1 H1.
  destruct (permute_ok _ _ _ _ _ Hs) as (ts & Ets & Sts).
  destruct (op_ok OPermute [constant bat_s] true ts Ets) as (bs & Ebs & Vbs).
  destruct (permute_ok _ _ _ _ _ Hn) as (tn & Etn & Stn).
  destruct (op_ok OPermute [constant bat_n] true tn Etn) as (bn & Ebn & Vbn).
  destruct (decide (h = 0%nat \/ w = 0%nat)) as [Hempty|Hfull].
  { unfold train_step, train_step_locals. cbv zeta.
    rewrite (bind_ok _ _ _ _ Ebs), (bind_ok _ _ _ _ Ebn).
    rewrite (bind_raise _ _ _ RuntimeError); [done|].
    apply no_grad_raise.
    rewrite (bind_raise _ _ _ RuntimeError); [done|].
    apply (forward_empty (params self) _ bn false B 6 h w Harch); [by rewrite Vbn|done]. }
  destruct (target_product self bn (constant bat_t) B h w Harch)
    as (qn & qt & a & b & c & Eqn & Eqt & Ea & Eb & Ec & Sc);
    [by rewrite Vbn|lia|lia|done|done|].
  assert (Ey : op OAdd [constant bat_r; c] false = Raise RuntimeError).
  { apply op_raise. cbn [map value constant apply]. unfold binop.
    rewrite Hr, Sc. unfold broadcast_shapes. cbn [reverse rev_append broadcast_rev].
    apply Nat.eqb_neq in HB, HB1, H1. by rewrite HB, HB1, H1. }
  unfold train_step, train_step_locals. cbv zeta.
  rewrite (bind_ok _ _ _ _ Ebs), (bind_ok _ _ _ _ Ebn).
  rewrite (bind_raise _ _ _ RuntimeError); [done|].
  apply no_grad_raise.
  rewrite (bind_ok _ _ _ _ Eqn), (bind_ok _ _ _ _ Eqt).
  rewrite (bind_raise _ _ _ RuntimeError); [done|].
  by rewrite (bind_ok _ _ _ _ Ea), (bind_ok _ _ _ _ Eb), (bind_ok _ _ _ _ Ec).
Qed.

(** X7: on an empty batch [train_step] returns, counts the step, and
    the loss it returns is the mean of no number, a NaN. *)
Theorem train_step_empty_batch self bat_s bat_a bat_t bat_n bat_r h w :
  well_formed (params self) (net self) ->
  batch_of 0 h w bat_s bat_a bat_t bat_n bat_r ->
  (0 < h)%nat -> (0 < w)%nat ->
  (h * w = width (params self) * height (params self))%nat ->
  exists self',
    train_step optimizer_step self bat_s bat_a bat_t bat_n bat_r
      = Ok (self', ((global_step self + 1)%Z, nan)).
Proof.
  intros Hwf Hb Hh Hw Hhw.
  destruct (train_step_locals_ok self _ _ _ _ _ 0 h w (proj1 Hwf) Hb Hh Hw Hhw) as [l Hl].
  destruct (loss_is_a_scalar_with_history _ _ _ _ _ _ _ Hl) as [[g Hg] _].
  destruct (loss_value _ _ _ _ _ _ _ _ _ _ Hl Hwf Hb) as (Lp & Ly & Hv).
  unfold train_step. rewrite Hl. simpl. rewrite Hg.
  destruct (optimizer_step (optimizer self) (net self) g) as [n o] eqn:Eo.
  rewrite Hv.
  destruct (data (value (q_pred l))); [|done].
  simpl. eauto.
Qed.

End Update_contract.

(** ** What the constructor keeps *)

Section Lifecycle_invariants.

Context {opt_state : Type} {interpreter : Interpreter}.
Implicit Types (self : DQN opt_state) (p : config) (fs : gmap string file).
Implicit Types (init : net_params) (opt : opt_state) (path : string).

Lemma load_param_shape sd name cur : shape (fst (load_param sd name cur)) = shape cur.
Proof.
  unfold load_param. destruct (sd !! name) as [t|]; [|done].
  unfold shape_eqb. by case_bool_decide.
Qed.

(** Whatever the dictionary holds, [load_state_dict] keeps the shape
    of every parameter. *)
Lemma load_state_dict_arch p n sd : arch p n -> arch p (fst (load_state_dict n sd)).
Proof.
  unfold arch, load_state_dict. intros (A1 & A2 & A3 & A4 & A5 & A6 & A7 & A8).
  pose proof (load_param_shape sd "conv1.weight" (conv1_weight n)) as L1.
  pose proof (load_param_shape sd "conv1.bias" (conv1_bias n)) as L2.
  pose proof (load_param_shape sd "conv2.weight" (conv2_weight n)) as L3.
  pose proof (load_param_shape sd "conv2.bias" (conv2_bias n)) as L4.
  pose proof (load_param_shape sd "fc3.weight" (fc3_weight n)) as L5.
  pose proof (load_param_shape sd "fc3.bias" (fc3_bias n)) as L6.
  pose proof (load_param_shape sd "fc4.weight" (fc4_weight n)) as L7.
  pose proof (load_param_shape sd "fc4.bias" (fc4_bias n)) as L8.
  destruct (load_param sd "conv1.weight" _), (load_param sd "conv1.bias" _),
    (load_param sd "conv2.weight" _), (load_param sd "conv2.bias" _),
    (load_param sd "fc3.weight" _), (load_param sd "fc3.bias" _),
    (load_param sd "fc4.weight" _), (load_param sd "fc4.bias" _).
  simpl in *. repeat split; congruence.
Qed.

(** The fields of the object after the [try] block. *)
Lemma load_checkpoint_fields fs path self :
  let self' := fst (load_checkpoint fs path self) in
  params self' = params self /\ optimizer self' = optimizer self /\
  (net self' = net self \/
   exists sd, fs !! path = Some (Checkpoint sd) /\
              net self' = fst (load_state_dict (net self) sd)).
Proof.
  unfold load_checkpoint, torch_load.
  destruct (fs !! path) as [[sd|]|]; simpl; [|tauto|tauto].
  assert (Hn : exists sd', Some (Checkpoint sd) = Some (Checkpoint sd') /\
                 fst (load_state_dict (net self) sd)
                 = fst (load_state_dict (net self) sd')) by eauto.
  destruct (load_state_dict (net self) sd) as [n [[]|]]; simpl in *.
  - destruct (second_to_last (split "_" path)) as [field|]; simpl.
    + destruct (int field); simpl; auto.
    + auto.
  - auto.
Qed.

(** X8: the constructor takes the configuration and the optimizer from
    its arguments whatever the file holds: a checkpoint never restores
    the state of the optimizer. *)
Theorem init_never_restores_optimizer p fs init opt :
  params (__init__ p fs init opt) = p /\ optimizer (__init__ p fs init opt) = opt.
Proof.
  unfold __init__. destruct (load_file p) as [path|]; [|done].
  case_bool_decide; [|done].
  destruct (load_checkpoint_fields fs path (Build_DQN p init opt 0)) as (Hp & Ho & _).
  done.
Qed.

(** X9: whatever the file holds, and whether the load returns or
    raises, the network of the constructed object has the shapes of
    the configured architecture. *)
Theorem init_keeps_architecture p fs init opt :
  arch p init -> arch p (net (__init__ p fs init opt)).
Proof.
  intros Harch. unfold __init__. destruct (load_file p) as [path|]; [|done].
  case_bool_decide; [|done].
  destruct (load_checkpoint_fields fs path (Build_DQN p init opt 0))
    as (_ & _ & [Hn|(sd & _ & Hn)]); rewrite Hn; simpl; [done|].
  by apply load_state_dict_arch.
Qed.

(** A file that [torch.load] rejects leaves the object as built. *)
Lemma init_unreadable_path p fs init opt path :
  load_file p = Some path -> fs !! path = Some Unreadable ->
  __init__ p fs init opt = Build_DQN p init opt 0.
Proof.
  intros Hp Hfs. rewrite (init_existing_file _ _ _ _ _ _ Hp Hfs).
  unfold load_checkpoint, torch_load. by rewrite Hfs.
Qed.

(** X10: a step count other than 0 after construction comes from a
    checkpoint that loaded in full: the parameters of the object are
    the state dictionary of the file, and the step is the
    second-to-last field of the path. *)
Theorem init_step_implies_loaded p fs init opt :
  global_step (__init__ p fs init opt) <> 0%Z ->
  exists path sd,
    load_file p = Some path /\ fs !! path = Some (Checkpoint sd) /\
    state_dict (net (__init__ p fs init opt)) = sd /\
    second_to_last (split "_" path) ≫= int
      = Ok (global_step (__init__ p fs init opt)).
Proof.
  intros Hstep.
  destruct (load_file p) as [path|] eqn:Hp;
    [|by rewrite init_no_load_file in Hstep].
  destruct (fs !! path) as [[sd|]|] eqn:Hfs;
    [|by rewrite (init_unreadable_path _ _ _ _ _ Hp Hfs) in Hstep
     |by rewrite (init_missing_file _ _ _ _ _ Hp Hfs) in Hstep].
  destruct (load_state_dict init sd) as [n r] eqn:El.
  destruct r as [[]|e].
  - rewrite (init_loaded _ _ _ _ _ _ _ Hp Hfs El) in *.
    exists path, sd. cbn [global_step net] in *.
    split; [done|]. split; [done|]. split; [by apply load_state_dict_ok in El|].
    by destruct (second_to_last (split "_" path) ≫= int) as [k|].
  - exfalso. apply Hstep.
    rewrite (init_existing_file _ _ _ _ _ _ Hp Hfs).
    unfold load_checkpoint, torch_load. rewrite Hfs. cbn [net]. by rewrite El.
Qed.

End Lifecycle_invariants.

(** ** Step counts written in decimal *)

Section Decimal_steps.

Context {opt_state : Type} {interpreter : Interpreter}.

Import DecimalString.

(** The bytes of a text as numbers. *)
Local Abbreviation codes s := (map N_of_ascii (list_ascii_of_string s)).

(** An ASCII character is its own code point. *)
Lemma code_points_ascii (c : ascii) (s : string) :
  (N_of_ascii c <? 0x80)%N = true ->
  code_points (String c s) = N_of_ascii c :: code_points s.
Proof. intros H. cbn [code_points]. by rewrite H. Qed.

Lemma uint_code_points (d : Decimal.uint) :
  code_points (NilEmpty.string_of_uint d) = codes (NilEmpty.string_of_uint d).
Proof.
  induction d; cbn [NilEmpty.string_of_uint]; [reflexivity|..];
    (rewrite code_points_ascii by reflexivity;
     cbn [list_ascii_of_string map]; by rewrite IHd).
Qed.

Lemma uint_codes_digits (d : Decimal.uint) :
  forallb is_digit (codes (NilEmpty.string_of_uint d)) = true.
Proof.
  induction d; cbn [NilEmpty.string_of_uint list_ascii_of_string map forallb];
    [reflexivity|..]; by rewrite IHd.
Qed.

Lemma uint_codes_length (d : Decimal.uint) :
  length (codes (NilEmpty.string_of_uint d))
  = String.length (NilEmpty.string_of_uint d).
Proof.
  induction d; cbn [NilEmpty.string_of_uint list_ascii_of_string map length String.length];
    [reflexivity|..]; by rewrite IHd.
Qed.

(** A text of ASCII digits, with or without a minus sign in front, is
    parsed as it is, and all of it counts as digits. *)
Lemma digits_ascii (cs : list N) :
  forallb is_digit cs = true ->
  forallb (fun ch => ch <? 128)%N cs = true /\ List.filter is_digit cs = cs.
Proof.
  induction cs as [|c cs IH]; [done|]. cbn [forallb List.filter].
  intros [Hc Hcs]%andb_prop. destruct (IH Hcs) as [IH1 IH2].
  rewrite Hc, IH1, IH2. split; [|done]. rewrite andb_true_r.
  unfold is_digit in Hc. apply andb_prop in Hc as [_ Hc%N.leb_le].
  apply N.ltb_lt. lia.
Qed.

Lemma to_ascii_digits (cs : list N) :
  forallb is_digit cs = true ->
  to_ascii cs = cs /\ to_ascii (45%N :: cs) = 45%N :: cs.
Proof.
  intros [H _]%digits_ascii. unfold to_ascii. cbn [forallb].
  by rewrite H.
Qed.

Lemma digits_digit (acc : Z) (b : bool) (c : N) (d : Z) (s : list N) :
  digit_of c = Some d -> digits acc b (c :: s) = digits (10 * acc + d) true s.
Proof. intros H. cbn [digits]. by rewrite H. Qed.

Lemma digits_of_uint (d : Decimal.uint) (acc : nat) :
  digits (Z.of_nat acc) true (codes (NilEmpty.string_of_uint d))
  = Some (Z.of_nat (Nat.of_uint_acc d acc)).
Proof.
  revert acc. induction d; intros acc;
    cbn [NilEmpty.string_of_uint Nat.of_uint_acc list_ascii_of_string map];
    [reflexivity|..];
    (erewrite digits_digit by (vm_compute; reflexivity);
     rewrite <- IHd; f_equal; rewrite Nat.tail_mul_spec; lia).
Qed.

(** The value of a decimal number in [nat] and in [N]. *)
Lemma of_uint_nat_N (d : Decimal.uint) : N.of_nat (Nat.of_uint d) = N.of_uint d.
Proof.
  unfold N.of_uint.
  rewrite DecimalNat.Unsigned.of_uint_alt, DecimalPos.Unsigned.of_uint_alt.
  induction (Decimal.rev d) as [|u IH|u IH|u IH|u IH|u IH|u IH|u IH|u IH|u IH|u IH];
    cbn [DecimalNat.Unsigned.of_lu DecimalPos.Unsigned.of_lu]; [reflexivity|..];
    rewrite <- IH; lia.
Qed.

(** The digits of a number start with a digit (no white space, no
    sign), and they parse to the number. *)
Lemma decimal_parses (d : Decimal.uint) :
  d <> Decimal.Nil ->
  let cs := codes (NilEmpty.string_of_uint d) in
  lstrip cs = cs /\ signed cs = (1%Z, cs) /\
  digits 0 false cs = Some (Z.of_N (N.of_uint d)).
Proof.
  intros Hd cs. rewrite <- of_uint_nat_N, nat_N_Z. unfold Nat.of_uint. subst cs.
  destruct d; [done|..];
    cbn [NilEmpty.string_of_uint list_ascii_of_string map];
    (split; [reflexivity|]; split; [reflexivity|];
     erewrite digits_digit by (vm_compute; reflexivity);
     match goal with |- context [digits ?a true _] =>
       change a with (Z.of_nat (Z.to_nat a)) end;
     rewrite digits_of_uint; reflexivity).
Qed.

(** A decimal rendering holds no underscore. *)
Lemma decimal_one_field (d : Decimal.uint) :
  split "_" (NilZero.string_of_uint d) = [NilZero.string_of_uint d].
Proof.
  assert (H : forall d, split "_" (NilEmpty.string_of_uint d)
                        = [NilEmpty.string_of_uint d]).
  { clear d. induction d; cbn [NilEmpty.string_of_uint split]; [done|..];
      (match goal with |- context [Ascii.eqb ?c ?u] =>
         change (Ascii.eqb c u) with false end;
       by rewrite IHd). }
  destruct d; try apply H. reflexivity.
Qed.

Lemma to_uint_not_nil (n : N) : N.to_uint n <> Decimal.Nil.
Proof. destruct n; [done|]. apply DecimalPos.Unsigned.to_uint_nonnil. Qed.

(** [int] reads back what [str] wrote. *)
Lemma int_str (z : Z) (s : string) : str z = Ok s -> int s = Ok z.
Proof.
  unfold str.
  pose proof (to_uint_not_nil (Z.abs_N z)) as Hnil.
  assert (Hs : NilZero.string_of_uint (N.to_uint (Z.abs_N z))
               = NilEmpty.string_of_uint (N.to_uint (Z.abs_N z)))
    by (by destruct (N.to_uint (Z.abs_N z))).
  rewrite Hs.
  destruct (decimal_parses _ Hnil) as (Hstrip & Hsign & Hdigits).
  rewrite DecimalN.Unsigned.of_to in Hdigits.
  pose proof (uint_codes_digits (N.to_uint (Z.abs_N z))) as Hall.
  destruct (to_ascii_digits _ Hall) as [Hto Hto'].
  destruct (digits_ascii _ Hall) as [_ Hfilter].
  pose proof (uint_codes_length (N.to_uint (Z.abs_N z))) as Hlen.
  pose proof (uint_code_points (N.to_uint (Z.abs_N z))) as Hcp.
  set (ds := NilEmpty.string_of_uint (N.to_uint (Z.abs_N z))) in *.
  destruct (andb _ _) eqn:Hlim; [done|]. intros [= <-].
  assert (Hshort : too_long (String.length ds) = false).
  { unfold too_long. destruct (Nat.ltb_spec 640 (String.length ds)) as [H640|]; [|done].
    rewrite <- andb_assoc in Hlim |- *. cbn [andb].
    apply andb_false_iff in Hlim as [Hlim|Hlim]; [|done].
    apply Nat.ltb_ge in Hlim. destruct (z <? 0)%Z; cbn [String.length] in Hlim; lia. }
  unfold int. destruct (Z.ltb_spec z 0) as [Hz|Hz].
  - rewrite code_points_ascii by reflexivity. rewrite Hcp.
    change (N_of_ascii "-") with 45%N. rewrite Hto'. cbn [lstrip].
    change (Py_ISSPACE 45) with false. cbv beta iota zeta. cbn [signed].
    rewrite Hdigits, Hfilter, Hlen, Hshort. f_equal. lia.
  - rewrite Hcp, Hto, Hstrip, Hsign, Hdigits, Hfilter, Hlen, Hshort. f_equal. lia.
Qed.

Lemma str_one_field (z : Z) (s : string) : str z = Ok s -> split "_" s = [s].
Proof.
  unfold str. destruct (andb _ _); [done|]. intros [= <-].
  destruct (z <? 0)%Z; [|apply decimal_one_field].
  cbn [split]. change (Ascii.eqb "-" "_") with false.
  by rewrite decimal_one_field.
Qed.

(** A field without separator in front of a separator is the first
    field. *)
Lemma split_first_field sep (a b : string) :
  split sep a = [a] -> split sep (a +:+ String sep b) = a :: split sep b.
Proof.
  induction a as [|c a IH]; intros Ha.
  - rewrite append_nil. cbn [split]. by rewrite Ascii.eqb_refl.
  - rewrite append_cons. cbn [split] in *.
    destruct (Ascii.eqb c sep); [done|].
    destruct (split sep a) as [|h [|h' t]] eqn:Es; simplify_eq.
    by rewrite IH.
Qed.

Lemma init_written_step
    (p : config) (fs : gmap string file) (init : net_params) (opt : opt_state)
    (path : string) (sd : gmap string tensor) (n : net_params)
    (pre suf step : string) (k : Z) :
  load_file p = Some path -> fs !! path = Some (Checkpoint sd) ->
  load_state_dict init sd = (n, Ok tt) ->
  str k = Ok step ->
  path = pre +:+ "_" +:+ step +:+ "_" +:+ suf ->
  split "_" suf = [suf] ->
  __init__ p fs init opt = Build_DQN p n opt k.
Proof.
  intros Hp Hfs Hl Hk -> Hsuf.
  rewrite (init_loaded _ _ _ _ _ _ _ Hp Hfs Hl). f_equal.
  change ("_" +:+ step +:+ "_" +:+ suf)
    with (String "_" (step +:+ String "_" suf)).
  assert (Hs : split "_" (String "_" (step +:+ String "_" suf))
               = [EmptyString; step; suf]).
  { cbn [split]. change (Ascii.eqb "_" "_") with true. cbv iota.
    by rewrite (split_first_field _ _ _ (str_one_field k step Hk)), Hsuf. }
  destruct (split_prefix_fields "_" pre (String "_" (step +:+ String "_" suf)))
    as [_ ->]; [by rewrite Hs|].
  rewrite Hs. unfold second_to_last. cbn [reverse rev_append].
  cbn [mbind result_bind]. by rewrite (int_str k step Hk).
Qed.

(** X11: for every step count [k] that [str] renders, a checkpoint
    that loads from a path ending in an underscore, [str(k)], an
    underscore and a last field without underscore is resumed at step
    [k]: [int] reads back what [str] wrote.  [str] renders every step
    count of up to 640 digits, and every step count when the
    interpreter sets no limit. *)
Theorem init_resumes_written_step
    (p : config) (fs : gmap string file) (init : net_params) (opt : opt_state)
    (path : string) (sd : gmap string tensor) (n : net_params)
    (pre suf step : string) (k : Z) :
  load_file p = Some path -> fs !! path = Some (Checkpoint sd) ->
  load_state_dict init sd = (n, Ok tt) ->
  str k = Ok step ->
  path = pre +:+ "_" +:+ step +:+ "_" +:+ suf ->
  split "_" suf = [suf] ->
  __init__ p fs init opt = Build_DQN p n opt k.
Proof. apply init_written_step. Qed.

(** X28: a trainer saved under a name that carries its step count as
    [str] renders it ([..._<step>_<field>]) is resumed by the
    constructor with its parameters and its step count; the optimizer
    is the fresh one. *)
Theorem save_then_resume
    (self : DQN opt_state) (p : config) (fs : gmap string file)
    (init : net_params) (opt : opt_state) (pre suf step : string) :
  str (global_step self) = Ok step ->
  let path := pre +:+ "_" +:+ step +:+ "_" +:+ suf in
  arch (params self) (net self) -> arch p init ->
  width p = width (params self) -> height p = height (params self) ->
  load_file p = Some path -> split "_" suf = [suf] ->
  __init__ p (save_ckpt self path fs) init opt
  = Build_DQN p (net self) opt (global_step self).
Proof.
  intros Hstep path Hself Hinit Hw Hh Hp Hsuf.
  apply (init_written_step p _ init opt path (state_dict (net self)) (net self)
           pre suf step (global_step self)); try done.
  - apply lookup_insert_eq.
  - by apply (arch_same_shapes (params self) p).
Qed.

End Decimal_steps.

(** *** The contracts on sample inputs *)

Section Contract_examples.

(** The files are read by CPython 3.11. *)
#[local] Existing Instance cpython_3_11.

Lemma forward_returns_action_values_witness :
  exists q,
    forward_value (uniform_net 1 1 zero half) (full [2; 6; 1; 1] zero) = Ok q /\
    shape q = [2; 4]%nat /\ length (data q) = 8%nat.
Proof.
  apply (forward_returns_action_values (sample_config None) _ _ 2 1 1);
    [apply uniform_net_well_formed | reflexivity | lia | lia | reflexivity].
Defined.

Lemma forward_rejects_other_shapes_witness :
  forward_value (uniform_net 1 1 zero half) (full [2; 5; 1; 1] zero) = Raise RuntimeError /\
  forward_value (uniform_net 1 1 zero half) (full [2; 6; 2; 1] zero) = Raise RuntimeError.
Proof.
  split.
  - apply (forward_rejects_other_shapes (sample_config None) _ _ 2 5 1 1);
      [apply uniform_net_arch | reflexivity | left; lia].
  - apply (forward_rejects_other_shapes (sample_config None) _ _ 2 6 2 1);
      [apply uniform_net_arch | reflexivity | right; simpl; lia].
Defined.

Lemma train_step_returns_witness :
  exists self' v,
    update no_update sample_trainer sample_batch = Ok (self', (1%Z, v)) /\
    params self' = sample_config None /\ global_step self' = 1%Z.
Proof.
  apply (train_step_returns no_update sample_trainer _ _ _ _ _ 2 1 1);
    [apply uniform_net_arch | apply sample_batch_shapes | lia | lia | reflexivity].
Defined.

Lemma train_step_rejects_reward_length_witness :
  train_step no_update sample_trainer
    (states sample_batch) (actions sample_batch) (terminals sample_batch)
    (next_states sample_batch) (Tensor [3] [of_Z 5; of_Z 7; of_Z 9])
  = Raise RuntimeError.
Proof.
  apply (train_step_rejects_reward_length no_update sample_trainer _ _ _ _ _ 2 3 1 1);
    first [apply uniform_net_arch | reflexivity | lia].
Defined.

Lemma train_step_empty_batch_witness :
  exists self',
    train_step no_update sample_trainer
      (full [0; 1; 1; 6] zero) (Tensor [0; 4] []) (Tensor [0] [])
      (full [0; 1; 1; 6] zero) (Tensor [0] [])
    = Ok (self', (1%Z, nan)).
Proof.
  apply (train_step_empty_batch no_update sample_trainer _ _ _ _ _ 1 1);
    [apply uniform_net_well_formed
    | unfold batch_of, wf; simpl; repeat split; reflexivity
    | lia | lia | reflexivity].
Defined.

Lemma init_keeps_architecture_witness :
  arch (sample_config (Some "saves/model_500_3"))
       (net (__init__ (sample_config (Some "saves/model_500_3"))
                      (one_checkpoint "saves/model_500_3" (uniform_net 2 1 one half))
                      (uniform_net 1 1 zero zero) tt)).
Proof. apply init_keeps_architecture. apply uniform_net_arch. Defined.

Lemma sample_resumed_step :
  __init__ (sample_config (Some "saves/model_7_0"))
           (one_checkpoint "saves/model_7_0" (uniform_net 1 1 one half))
           (uniform_net 1 1 zero zero) tt
  = Build_DQN (sample_config (Some "saves/model_7_0")) (uniform_net 1 1 one half) tt 7.
Proof.
  rewrite (init_loaded _ _ _ _ "saves/model_7_0" (state_dict (uniform_net 1 1 one half))
             (uniform_net 1 1 one half));
    [reflexivity | reflexivity | apply lookup_singleton_eq | apply uniform_net_loads].
Defined.

Lemma init_step_implies_loaded_witness :
  let self := __init__ (sample_config (Some "saves/model_7_0"))
                (one_checkpoint "saves/model_7_0" (uniform_net 1 1 one half))
                (uniform_net 1 1 zero zero) tt in
  exists path sd,
    load_file (sample_config (Some "saves/model_7_0")) = Some path /\
    one_checkpoint "saves/model_7_0" (uniform_net 1 1 one half) !! path
      = Some (Checkpoint sd) /\
    state_dict (net self) = sd /\
    second_to_last (split "_" path) ≫= int = Ok (global_step self).
Proof.
  intros self. apply init_step_implies_loaded.
  unfold self. rewrite sample_resumed_step. discriminate.
Defined.

Lemma init_resumes_written_step_witness :
  __init__ (sample_config (Some "saves/model-smallGrid_420_17"))
           (one_checkpoint "saves/model-smallGrid_420_17" (uniform_net 1 1 one half))
           (uniform_net 1 1 zero zero) tt
  = Build_DQN (sample_config (Some "saves/model-smallGrid_420_17"))
              (uniform_net 1 1 one half) tt 420.
Proof.
  apply (init_resumes_written_step _ _ _ tt "saves/model-smallGrid_420_17"
           (state_dict (uniform_net 1 1 one half)) _ "saves/model-smallGrid" "17"
           "420" 420);
    [reflexivity | apply lookup_singleton_eq | apply uniform_net_loads
    | reflexivity | reflexivity | reflexivity].
Defined.

(** A step field of more digits than the interpreter converts is not
    read back: with 4301 digits [int] raises, and the checkpoint is
    loaded with step 0. *)
Example long_step_field_is_not_resumed :
  let field := string_of_list_ascii (repeat "1"%char 4301) in
  let path := "saves/model_" +:+ field +:+ "_x" in
  int field = Raise ValueError /\
  __init__ (sample_config (Some path))
           (one_checkpoint path (uniform_net 1 1 one half))
           (uniform_net 1 1 zero zero) tt
  = Build_DQN (sample_config (Some path)) (uniform_net 1 1 one half) tt 0.
Proof.
  intros field path. split; [vm_compute; reflexivity|].
  assert (H : second_to_last (split "_" path) ≫= int = Raise ValueError)
    by (vm_compute; reflexivity).
  rewrite (init_loaded _ _ _ _ path (state_dict (uniform_net 1 1 one half))
             (uniform_net 1 1 one half));
    [by rewrite H | reflexivity | apply lookup_singleton_eq | apply uniform_net_loads].
Qed.

End Contract_examples.

(** * Keyboard agents *)

Section Keyboard_agents.

Import Keyboard.

Implicit Types (self : agent) (legal : list direction) (d : direction).

Lemma mem_spec {A} `{EqDecision A} (x : A) (l : list A) : mem x l = true <-> x ∈ l.
Proof. unfold mem. apply bool_decide_eq_true. Qed.

Lemma mem_nil {A} `{EqDecision A} (x : A) : mem x [] = false.
Proof. unfold mem. apply bool_decide_eq_false, not_elem_of_nil. Qed.

Lemma random_choice_in {A} (draw : nat) (l : list A) :
  l <> [] -> exists x, random_choice draw l = Ok x /\ x ∈ l.
Proof.
  intros Hl. unfold random_choice.
  destruct (lookup_lt_is_Some_2 l (draw `mod` length l)) as [x Hx].
  - apply Nat.mod_upper_bound. by destruct l.
  - rewrite Hx. eauto using list_elem_of_lookup_2.
Qed.

Lemma with_keys_fields self (ks : list string) :
  cls (with_keys self ks) = cls self /\ index (with_keys self ks) = index self /\
  lastMove (with_keys self ks) = lastMove self.
Proof. unfold with_keys. by destruct ks. Qed.

Lemma getMove_eq self legal :
  getMove self legal =
    if held self SOUTH && mem SOUTH legal then SOUTH
    else if held self NORTH && mem NORTH legal then NORTH
    else if held self EAST && mem EAST legal then EAST
    else if held self WEST && mem WEST legal then WEST
    else STOP.
Proof.
  unfold getMove, held. destruct (cls self); cbv zeta;
    rewrite ?orb_false_r;
    repeat match goal with
           | |- context [if ?b && mem ?d legal then _ else _] =>
               destruct (b && mem d legal)
           end; reflexivity.
Qed.

(** X13: whenever some action is legal, [getAction] returns a legal
    action and remembers it as the last move; the class and the index
    of the agent stay. *)
Theorem getAction_returns_legal_move self waiting pressed legal draw :
  legal <> [] ->
  exists self' move,
    getAction self waiting pressed legal draw = Ok (self', move) /\
    move ∈ legal /\ lastMove self' = move /\
    cls self' = cls self /\ index self' = index self.
Proof.
  intros Hl. unfold getAction.
  destruct (with_keys_fields self (waiting ++ pressed)) as (Hc & Hi & _). cbv zeta.
  match goal with
  | |- context [negb (mem ?m legal)] => destruct (mem m legal) eqn:Hm
  end; simpl.
  - apply mem_spec in Hm. eauto 10.
  - destruct (random_choice_in draw legal Hl) as (x & -> & Hx). simpl. eauto 10.
Qed.

(** X14: with no legal action, [getAction] raises the [IndexError] of
    [random.choice] on an empty list. *)
Theorem getAction_without_legal_action self waiting pressed draw :
  getAction self waiting pressed [] draw = Raise IndexError.
Proof.
  unfold getAction. cbv zeta. rewrite !mem_nil. by rewrite !andb_false_r.
Qed.

(** X15: among the direction keys that are held and whose direction is
    legal, [getMove] prefers south to north, north to east and east to
    west (the later test of the source wins); with no such key it
    returns [STOP]. *)
Theorem getMove_priority self legal :
  getMove self legal =
    if held self SOUTH && mem SOUTH legal then SOUTH
    else if held self NORTH && mem NORTH legal then NORTH
    else if held self EAST && mem EAST legal then EAST
    else if held self WEST && mem WEST legal then WEST
    else STOP.
Proof. apply getMove_eq. Qed.

(** X16: when the stop key is among the keys in effect and stopping
    is legal, [getAction] returns [STOP], whatever direction keys are
    held. *)
Theorem getAction_stop_key self waiting pressed legal draw :
  STOP_KEY (cls self) ∈ keys (with_keys self (waiting ++ pressed)) ->
  STOP ∈ legal ->
  exists self',
    getAction self waiting pressed legal draw = Ok (self', STOP) /\
    lastMove self' = STOP.
Proof.
  intros Hk%mem_spec Hs%mem_spec. unfold getAction.
  destruct (with_keys_fields self (waiting ++ pressed)) as (Hc & _ & _).
  cbv zeta. rewrite Hc, Hk, Hs. cbn [andb]. rewrite Hs. simpl. eauto.
Qed.

(** X17: when no held direction key is legal and the stop key does not
    apply, the agent repeats its last move as long as that move is
    legal. *)
Theorem getAction_keeps_moving self waiting pressed legal draw :
  let self1 := with_keys self (waiting ++ pressed) in
  (forall d, d <> STOP -> held self1 d && mem d legal = false) ->
  held self1 STOP && mem STOP legal = false ->
  lastMove self ∈ legal ->
  getAction self waiting pressed legal draw = Ok (self1, lastMove self).
Proof.
  intros self1 Hd Hs Hl.
  destruct (with_keys_fields self (waiting ++ pressed)) as (_ & _ & Hlast).
  fold self1 in Hlast.
  unfold getAction.
  fold self1.
  cbv zeta. rewrite getMove_eq.
  rewrite !Hd by done. rewrite Hlast.
  apply mem_spec in Hl. rewrite Hl. simpl.
  unfold held in Hs. rewrite Hs, Hl. simpl.
  f_equal. f_equal. rewrite <- Hlast. by destruct self1.
Qed.

End Keyboard_agents.

(** * The text display *)

Section Text_display.

Import TextDisplay.

Context {S : Type}.
Variable agentStates : S -> nat.
Variable _win _lose : S -> bool.
Variable DRAW_EVERY : Z.
Variable DISPLAY_MOVES : bool.
Variable sleep : option exception.

Local Notation "'initialize'" :=
  (initialize (S := S) sleep).
Local Notation "'update'" :=
  (update agentStates _win _lose DRAW_EVERY DISPLAY_MOVES sleep).
Local Notation "'updates'" :=
  (updates agentStates _win _lose DRAW_EVERY DISPLAY_MOVES sleep).

Lemma div_mod_add (a n m : Z) :
  (0 < m)%Z -> (a / m + (a `mod` m + n) / m = (a + n) / m)%Z.
Proof.
  intros Hm.
  replace (a + n)%Z with (a / m * m + (a `mod` m + n))%Z
    by (pose proof (Z.div_mod a m); lia).
  by rewrite Z.div_add_l by lia.
Qed.

(** The counters after a call that returns, in a game of [m]
    agents. *)
Lemma update_step (self self' : PacmanGraphics) (state : S) (out : list (event S)) (m : Z) :
  Z.of_nat (agentStates state) = m ->
  update self state = Returns (self', out) ->
  (0 <= agentCounter self < m)%Z ->
  agentCounter self' = ((agentCounter self + 1) `mod` m)%Z /\
  turn self' = (turn self + (agentCounter self + 1) / m)%Z /\
  (0 <= agentCounter self' < m)%Z.
Proof.
  intros Hm Hu Hc. unfold TextDisplay.update, pause in Hu. rewrite Hm in Hu.
  assert (Hpos : (0 < m)%Z) by lia.
  destruct (Z.eqb_spec m 0) as [|_]; [lia|].
  pose proof (Z.mod_pos_bound (agentCounter self + 1) m Hpos) as Hb.
  cbn [agentCounter turn] in Hu.
  assert (Hself : agentCounter self' = ((agentCounter self + 1) `mod` m)%Z /\
                  turn self' = (turn self
                     + if ((agentCounter self + 1) `mod` m =? 0)%Z then 1 else 0)%Z).
  { destruct (Z.eqb_spec ((agentCounter self + 1) `mod` m) 0) as [H0|H0].
    - destruct (DRAW_EVERY =? 0)%Z; [done|].
      destruct (_ `mod` DRAW_EVERY =? 0)%Z; [destruct sleep; [done|]|];
        injection Hu as <- _; cbn [agentCounter turn]; lia.
    - injection Hu as <- _. cbn [agentCounter turn]. lia. }
  destruct Hself as [-> ->]. split; [done|]. split; [|lia].
  destruct (Z.eq_dec (agentCounter self + 1)%Z m) as [E|E].
  - rewrite E, Z.mod_same, Z.div_same by lia. done.
  - rewrite Z.mod_small, Z.div_small by lia.
    destruct (Z.eqb_spec (agentCounter self + 1) 0); lia.
Qed.

Lemma updates_counters (self self' : PacmanGraphics) (states : list S)
    (out : list (event S)) (m : Z) :
  Forall (fun state => Z.of_nat (agentStates state) = m) states ->
  updates self states = Returns (self', out) ->
  (0 <= agentCounter self < m)%Z ->
  agentCounter self'
    = ((agentCounter self + Z.of_nat (length states)) `mod` m)%Z /\
  turn self'
    = (turn self + (agentCounter self + Z.of_nat (length states)) / m)%Z.
Proof.
  intros Hs. revert self out.
  induction Hs as [|state states Hm _ IH]; intros self out Hu Hc.
  - injection Hu as <- _. simpl.
    rewrite Z.add_0_r, Z.mod_small, Z.div_small by lia. lia.
  - cbn [TextDisplay.updates] in Hu.
    destruct (update self state) as [[self1 out1]|] eqn:E1; [|done].
    destruct (updates self1 states) as [[self2 out2]|] eqn:E2; [|done].
    injection Hu as <- _.
    destruct (update_step _ _ _ _ m Hm E1 Hc) as (C1 & T1 & B1).
    destruct (IH _ _ E2 B1) as (C2 & T2).
    rewrite C2, T2, C1, T1. cbn [length].
    replace (agentCounter self + Z.of_nat (Datatypes.S (length states)))%Z
      with ((agentCounter self + 1) + Z.of_nat (length states))%Z by lia.
    split.
    + by rewrite Zplus_mod_idemp_l.
    + rewrite <- (div_mod_add (agentCounter self + 1)) by lia. lia.
Qed.

(** When [time.sleep] returns and there are agents, a call returns
    unless [DRAW_EVERY] is 0. *)
Lemma update_returns (self : PacmanGraphics) (state : S) :
  sleep = None -> agentStates state <> 0%nat -> DRAW_EVERY <> 0%Z ->
  exists self' out, update self state = Returns (self', out).
Proof.
  intros -> Hm Hd. unfold TextDisplay.update, pause.
  destruct (Z.eqb_spec (Z.of_nat (agentStates state)) 0) as [|_]; [lia|].
  cbn [agentCounter turn].
  destruct (_ =? 0)%Z; [|eauto].
  destruct (Z.eqb_spec DRAW_EVERY 0) as [|_]; [done|].
  destruct (_ =? 0)%Z; eauto.
Qed.

Lemma updates_return (self : PacmanGraphics) (states : list S) :
  sleep = None -> Forall (fun state => agentStates state <> 0%nat) states ->
  DRAW_EVERY <> 0%Z ->
  exists self' out, updates self states = Returns (self', out).
Proof.
  intros Hsleep Hs Hd. revert self.
  induction Hs as [|state states Hm _ IH]; intros self; [by eexists _, _|].
  destruct (update_returns self state Hsleep Hm Hd) as (self1 & out1 & E1).
  destruct (IH self1) as (self2 & out2 & E2).
  cbn [TextDisplay.updates]. rewrite E1, E2. eauto.
Qed.



End Text_display.

Section Text_display_boards.

Import TextDisplay.

Context {S : Type}.
Variable agentStates : S -> nat.
Variable _win _lose : S -> bool.
Variable DISPLAY_MOVES : bool.
Variable sleep : option exception.

Local Notation "'update'" := (update agentStates _win _lose 1 DISPLAY_MOVES sleep).
Local Notation "'updates'" := (updates agentStates _win _lose 1 DISPLAY_MOVES sleep).
Local Notation "'final'" := (final _win _lose).

Lemma boards_app (out out' : list (event S)) :
  boards (out ++ out') = (boards out + boards out')%nat.
Proof. unfold boards. by rewrite List.filter_app, length_app. Qed.

Lemma update_boards (self self' : PacmanGraphics) (state : S) (out : list (event S)) :
  update self state = Returns (self', out) ->
  Z.of_nat (boards out)
  = (turn self' - turn self + if final state then 1 else 0)%Z.
Proof.
  unfold TextDisplay.update, TextDisplay.final, pause.
  destruct (Z.of_nat (agentStates state) =? 0)%Z; [done|].
  cbn [agentCounter turn].
  destruct (_ =? 0)%Z.
  - cbn [Z.eqb]. rewrite Z.mod_1_r. cbn [Z.eqb].
    destruct sleep; [done|].
    intros [= <- <-]. cbn [turn]. rewrite !boards_app.
    destruct DISPLAY_MOVES, (_win state || _lose state); unfold boards; simpl; lia.
  - intros [= <- <-]. cbn [turn].
    destruct (_win state || _lose state); unfold boards; simpl; lia.
Qed.

(** X20: with [DRAW_EVERY] at its value 1, a run of [update] prints
    the board once for every completed round and once more for every
    state that is won or lost; a state that is final on the move that
    completes a round is printed twice. *)
Theorem updates_print_boards
    (self self' : PacmanGraphics) (states : list S) (out : list (event S)) :
  updates self states = Returns (self', out) ->
  Z.of_nat (boards out)
  = (turn self' - turn self
     + Z.of_nat (length (List.filter final states)))%Z.
Proof.
  revert self out. induction states as [|state states IH]; intros self out.
  - intros [= <- <-]. unfold boards. simpl. lia.
  - cbn [TextDisplay.updates].
    destruct (update self state) as [[self1 out1]|] eqn:E1; [|done].
    destruct (updates self1 states) as [[self2 out2]|] eqn:E2; [|done].
    intros [= <- <-]. rewrite boards_app, Nat2Z.inj_add.
    rewrite (update_boards _ _ _ _ E1), (IH _ _ E2). cbn [List.filter].
    destruct (final state); simpl length; lia.
Qed.

End Text_display_boards.

(** * Maze layouts *)

Section Layouts.

Import Layout.

Implicit Types (g : Grid) (self : attributes) (text : list string).

(** ** Loops *)

Lemma flat_map_seq_ext {B} (f g : nat -> list B) (n : nat) :
  (forall k, (k < n)%nat -> f k = g k) ->
  flat_map f (seq 0 n) = flat_map g (seq 0 n).
Proof.
  intros H. rewrite !flat_map_concat_map. f_equal.
  apply map_ext_in. intros k Hk%in_seq. apply H. lia.
Qed.

(** A loop whose body computes [f] is a fold of [f]. *)
Lemma for_each_fold {A St} (l : list A) (body : A -> St -> result St)
    (f : St -> A -> St) (s : St) :
  (forall a s, a ∈ l -> body a s = Ok (f s a)) ->
  for_each l body s = Ok (fold_left f l s).
Proof.
  revert s. induction l as [|a l IH]; intros s H; simpl; [done|].
  rewrite H by left. simpl. apply IH. intros b s' Hb. apply H. by right.
Qed.

(** A loop that returns has run its body on every element, and a loop
    that raises has met an element on which its body raises. *)
Lemma for_each_ok_each {A St} (l : list A) (body : A -> St -> result St) (s s' : St) :
  for_each l body s = Ok s' ->
  forall a, a ∈ l -> exists s0 s1, body a s0 = Ok s1.
Proof.
  revert s. induction l as [|b l IH]; intros s H a Ha; [by apply elem_of_nil in Ha|].
  simpl in H. destruct (body b s) as [s1|] eqn:E; simpl in H; [|done].
  apply elem_of_cons in Ha as [->|Ha]; [eauto|]. by apply (IH s1).
Qed.

Lemma for_each_raise_each {A St} (l : list A) (body : A -> St -> result St)
    (s : St) (e : exn) :
  for_each l body s = Raise e -> exists a s0, a ∈ l /\ body a s0 = Raise e.
Proof.
  revert s. induction l as [|b l IH]; intros s H; [done|].
  simpl in H. destruct (body b s) as [s1|e'] eqn:E; simpl in H.
  - destruct (IH s1 H) as (a & s0 & Ha & Hr). exists a, s0. split; [by right|done].
  - injection H as ->. exists b, s. split; [by left|done].
Qed.

Lemma fold_left_flat_map {A B St} (f : St -> B -> St) (g : A -> list B)
    (l : list A) (s : St) :
  fold_left f (flat_map g l) s = fold_left (fun s a => fold_left f (g a) s) l s.
Proof.
  revert s. induction l as [|a l IH]; intros s; simpl; [done|].
  by rewrite fold_left_app, IH.
Qed.

Lemma fold_left_map {A B St} (f : St -> B -> St) (g : A -> B) (l : list A) (s : St) :
  fold_left f (map g l) s = fold_left (fun s a => f s (g a)) l s.
Proof. revert s. induction l as [|a l IH]; intros s; simpl; [done|]. by rewrite IH. Qed.

(** ** Characters *)

Lemma string_get_is_Some (s : string) (n : nat) :
  is_Some (String.get n s) <-> (n < String.length s)%nat.
Proof.
  revert n. induction s as [|c s IH]; intros n; simpl.
  - split; [by intros [? [=]]|lia].
  - destruct n as [|n]; [split; [lia|eauto]|]. rewrite IH. lia.
Qed.

Lemma cell_char_at text x y :
  char_at text (length text - 1 - y) x
  = match cell text x y with Some c => Ok c | None => Raise IndexError end.
Proof. done. Qed.

(** The cells of the grid have a character exactly when no line is
    shorter than the width. *)
Lemma cells_defined text w :
  (forall x y, (x < w)%nat -> (y < length text)%nat -> is_Some (cell text x y))
  <-> Forall (fun line => w <= String.length line)%nat text.
Proof.
  split.
  - intros H. apply Forall_lookup. intros i line Hi.
    destruct w as [|w]; [simpl; lia|].
    pose proof (lookup_lt_Some _ _ _ Hi) as Hlt.
    destruct (H w (length text - 1 - i)%nat) as [c Hc]; [lia|lia|].
    unfold cell in Hc.
    replace (length text - 1 - (length text - 1 - i))%nat with i in Hc by lia.
    rewrite Hi in Hc. simpl in Hc.
    assert (w < String.length line)%nat by (apply string_get_is_Some; eauto).
    simpl. lia.
  - intros H x y Hx Hy. unfold cell.
    destruct (lookup_lt_is_Some_2 text (length text - 1 - y)) as [line Hl]; [lia|].
    rewrite Hl. simpl. apply string_get_is_Some.
    rewrite Forall_lookup in H. specialize (H _ _ Hl). simpl in H. lia.
Qed.

(** ** Grids *)

Lemma new_grid_sized w h v : sized w h (new_grid w h v).
Proof.
  split; [apply length_replicate|].
  apply Forall_replicate, length_replicate.
Qed.

Lemma get_new_grid w h v x y :
  (x < w)%nat -> (y < h)%nat -> get (new_grid w h v) x y = Some v.
Proof.
  intros Hx Hy. unfold get, new_grid, Grid.
  rewrite lookup_replicate_2 by done. simpl. by rewrite lookup_replicate_2.
Qed.

Lemma set_sized w h g x y v : sized w h g -> sized w h (set g x y v).
Proof.
  intros [Hw Hh]. unfold set, Grid in *. split; [by rewrite length_alter|].
  apply Forall_alter; [done|]. intros column _ Hc. by rewrite length_insert.
Qed.

Lemma get_set w h g x y v x' y' :
  sized w h g -> (x < w)%nat -> (y < h)%nat ->
  get (set g x y v) x' y' = if decide (x' = x /\ y' = y) then Some v else get g x' y'.
Proof.
  intros [Hw Hh] Hx Hy. unfold get, set, Grid in *.
  destruct (decide (x' = x)) as [->|Hne].
  - destruct (lookup_lt_is_Some_2 g x) as [column Hc]; [lia|].
    rewrite list_lookup_alter_eq, Hc. simpl.
    assert (Hl : length column = h).
    { rewrite Forall_forall in Hh. apply Hh. by apply list_elem_of_lookup_2 in Hc. }
    destruct (decide (y' = y)) as [->|Hney].
    + rewrite decide_True by done. apply list_lookup_insert_eq. lia.
    + rewrite decide_False by tauto. by rewrite list_lookup_insert_ne.
  - rewrite decide_False by tauto. by rewrite list_lookup_alter_ne.
Qed.


(** ** The loops of [processLayoutText] *)

Lemma in_seq_lt (n i : nat) : i ∈ seq 0 n <-> (i < n)%nat.
Proof. rewrite list_elem_of_In, in_seq. lia. Qed.

(** On a text without short line the loops return the fold of [visit]
    over the cells. *)
Lemma process_cells_fold text w self :
  (forall x y, (x < w)%nat -> (y < length text)%nat -> is_Some (cell text x y)) ->
  process_cells text w (length text) self
  = Ok (fold_left (visit text) (cells w (length text)) self).
Proof.
  intros H. unfold process_cells, cells. rewrite fold_left_flat_map.
  apply for_each_fold. intros y s Hy%in_seq_lt.
  rewrite fold_left_map. apply for_each_fold. intros x s' Hx%in_seq_lt.
  rewrite cell_char_at. unfold visit. simpl.
  by destruct (H x y Hx Hy) as [c ->].
Qed.

(** Loops that return have found a character in every cell. *)
Lemma process_cells_ok_defined text w self self' :
  process_cells text w (length text) self = Ok self' ->
  forall x y, (x < w)%nat -> (y < length text)%nat -> is_Some (cell text x y).
Proof.
  intros H x y Hx Hy. unfold process_cells in H.
  destruct (for_each_ok_each _ _ _ _ H y) as (s0 & s1 & Hrow);
    [by apply in_seq_lt|].
  destruct (for_each_ok_each _ _ _ _ Hrow x) as (s2 & s3 & Hc);
    [by apply in_seq_lt|].
  rewrite cell_char_at in Hc. by destruct (cell text x y); [eauto|].
Qed.

(** They raise nothing but [IndexError]. *)
Lemma process_cells_raise text w h self e :
  process_cells text w h self = Raise e -> e = IndexError.
Proof.
  intros H. unfold process_cells in H.
  destruct (for_each_raise_each _ _ _ _ H) as (y & s0 & _ & Hrow).
  destruct (for_each_raise_each _ _ _ _ Hrow) as (x & s1 & _ & Hc).
  unfold char_at in Hc.
  destruct (text !! _ ≫= String.get x); simpl in Hc; congruence.
Qed.

(** ** What one character does *)

Lemma processLayoutChar_fields x y c self :
  let self' := processLayoutChar x y c self in
  walls self' = (if Ascii.eqb c "%" then set (walls self) x y true else walls self) /\
  food self' = (if Ascii.eqb c "." then set (food self) x y true else food self) /\
  capsules self' = capsules self ++ (if Ascii.eqb c "o" then [(x, y)] else []) /\
  agents self'
    = agents self ++ match agent_number c with Some i => [(i, (x, y))] | None => [] end /\
  numGhosts self'
    = (numGhosts self + match agent_number c with Some (S _) => 1 | _ => 0 end)%nat.
Proof.
  destruct self as [ws fd cs ags ng]. unfold processLayoutChar, agent_number.
  destruct (Ascii.eqb_spec c "%") as [->|_]; [simpl; by rewrite !app_nil_r, Nat.add_0_r|].
  destruct (Ascii.eqb_spec c ".") as [->|_]; [simpl; by rewrite !app_nil_r, Nat.add_0_r|].
  destruct (Ascii.eqb_spec c "o") as [->|_]; [simpl; by rewrite !app_nil_r, Nat.add_0_r|].
  destruct (Ascii.eqb_spec c "P") as [->|_]; [simpl; by rewrite !app_nil_r, Nat.add_0_r|].
  destruct (Ascii.eqb_spec c "G") as [->|_]; [simpl; by rewrite !app_nil_r|].
  case_bool_decide as Hd; simpl; [|by rewrite !app_nil_r, Nat.add_0_r].
  rewrite !app_nil_r. repeat split.
  rewrite !elem_of_cons, elem_of_nil in Hd.
  by destruct Hd as [->|[->|[->|[->|[]]]]].
Qed.


Lemma visit_fields text self p :
  let self' := visit text self p in
  walls self' = (if bool_decide (cell text p.1 p.2 = Some "%"%char)
                 then set (walls self) p.1 p.2 true else walls self) /\
  food self' = (if bool_decide (cell text p.1 p.2 = Some "."%char)
                then set (food self) p.1 p.2 true else food self) /\
  agents self' = agents self ++ agent_at text p /\
  numGhosts self'
    = (numGhosts self + length (List.filter is_ghost (agent_at text p)))%nat.
Proof.
  unfold visit, agent_at. destruct (cell text p.1 p.2) as [c|]; simpl.
  - destruct (processLayoutChar_fields p.1 p.2 c self) as (Hw & Hf & _ & Ha & Hn).
    rewrite Hw, Hf, Ha, Hn. clear Hw Hf Ha Hn. destruct p as [x y]. simpl.
    split; [|split; [|split]].
    + destruct (Ascii.eqb_spec c "%") as [->|Hne];
        [by rewrite bool_decide_eq_true_2|].
      rewrite bool_decide_eq_false_2; [done|congruence].
    + destruct (Ascii.eqb_spec c ".") as [->|Hne];
        [by rewrite bool_decide_eq_true_2|].
      rewrite bool_decide_eq_false_2; [done|congruence].
    + done.
    + by destruct (agent_number c) as [[|i]|].
  - rewrite ?bool_decide_eq_false_2 by done. by rewrite app_nil_r, Nat.add_0_r.
Qed.

(** ** The attributes after the loops *)

Lemma cells_in_range w h p : p ∈ cells w h <-> in_range w h p.
Proof.
  unfold cells, in_range. rewrite list_elem_of_In, in_flat_map. split.
  - intros (y & Hy%in_seq & Hp%in_map_iff). destruct Hp as (x & <- & Hx%in_seq).
    simpl. lia.
  - intros [Hx Hy]. exists p.2. split; [apply in_seq; lia|].
    apply in_map_iff. exists p.1. split; [by destruct p|apply in_seq; lia].
Qed.

(** A grid that [visit] sets at the cells of character [ch]. *)
Lemma grid_fold (sel : attributes -> Grid) (ch : ascii) text w h l self x y :
  (forall self p, sel (visit text self p)
     = if bool_decide (cell text p.1 p.2 = Some ch)
       then set (sel self) p.1 p.2 true else sel self) ->
  sized w h (sel self) -> Forall (in_range w h) l ->
  sized w h (sel (fold_left (visit text) l self)) /\
  get (sel (fold_left (visit text) l self)) x y
  = if bool_decide ((x, y) ∈ l /\ cell text x y = Some ch)
    then Some true else get (sel self) x y.
Proof.
  intros Hsel. revert self. induction l as [|p l IH]; intros self Hs Hl.
  - split; [done|]. rewrite bool_decide_eq_false_2; [done|].
    intros [[]%elem_of_nil _].
  - apply Forall_cons in Hl as [[Hpx Hpy] Hl]. cbn [fold_left].
    destruct p as [px py]. simpl in Hpx, Hpy.
    specialize (Hsel self (px, py)). simpl in Hsel.
    destruct (decide (cell text px py = Some ch)) as [Hc|Hc].
    + rewrite bool_decide_eq_true_2 in Hsel by done.
      destruct (IH (visit text self (px, py))) as [Hs2 Hg];
        [rewrite Hsel; by apply set_sized|done|].
      split; [done|]. rewrite Hg, Hsel, (get_set w h) by done.
      destruct (decide ((x, y) ∈ l /\ cell text x y = Some ch)) as [[Hin Hxy]|Hn].
      * rewrite !bool_decide_eq_true_2; [done| |done].
        split; [by right|done].
      * rewrite (bool_decide_eq_false_2 _ Hn).
        destruct (decide (x = px /\ y = py)) as [[-> ->]|Hne].
        -- rewrite bool_decide_eq_true_2; [done|]. split; [by left|done].
        -- rewrite bool_decide_eq_false_2; [done|].
           intros [[[= -> ->]|Hin]%elem_of_cons Hxy]; tauto.
    + rewrite bool_decide_eq_false_2 in Hsel by done.
      destruct (IH (visit text self (px, py))) as [Hs2 Hg];
        [by rewrite Hsel|done|].
      split; [done|]. rewrite Hg, Hsel.
      destruct (decide ((x, y) ∈ l /\ cell text x y = Some ch)) as [[Hin Hxy]|Hn].
      * rewrite !bool_decide_eq_true_2; [done| |done].
        split; [by right|done].
      * rewrite !bool_decide_eq_false_2; [done| |done].
        intros [[[= -> ->]|Hin]%elem_of_cons Hxy]; tauto.
Qed.

Lemma agents_fold text l self :
  agents (fold_left (visit text) l self) = agents self ++ flat_map (agent_at text) l /\
  numGhosts (fold_left (visit text) l self)
  = (numGhosts self + length (List.filter is_ghost (flat_map (agent_at text) l)))%nat.
Proof.
  revert self. induction l as [|p l IH]; intros self; simpl.
  - by rewrite app_nil_r, Nat.add_0_r.
  - destruct (IH (visit text self p)) as [-> ->].
    destruct (visit_fields text self p) as (_ & _ & -> & ->).
    rewrite List.filter_app, length_app, <- app_assoc. split; [done|lia].
Qed.


(** ** Sorting the agents *)

Lemma agent_le_iff (a b : nat * pos) :
  agent_le a b <->
  (a.1 < b.1 \/ a.1 = b.1 /\ (a.2.1 < b.2.1 \/ a.2.1 = b.2.1 /\ a.2.2 <= b.2.2))%nat.
Proof.
  unfold agent_le, agent_leb. destruct a as [i [x y]], b as [j [x' y']]. simpl.
  rewrite orb_true_iff, andb_true_iff, orb_true_iff, andb_true_iff.
  rewrite !Nat.ltb_lt, !Nat.eqb_eq, Nat.leb_le. done.
Qed.

Lemma agent_le_trans (a b c : nat * pos) : agent_le a b -> agent_le b c -> agent_le a c.
Proof. rewrite !agent_le_iff. lia. Qed.

Lemma agent_le_total (a b : nat * pos) : agent_le a b \/ agent_le b a.
Proof. rewrite !agent_le_iff. lia. Qed.

Lemma insert_agent_perm (a : nat * pos) l : insert_agent a l ≡ₚ a :: l.
Proof.
  induction l as [|b l IH]; simpl; [done|].
  destruct (agent_leb a b); [done|]. rewrite IH. apply Permutation_swap.
Qed.

Lemma sort_agents_perm l : sort_agents l ≡ₚ l.
Proof.
  induction l as [|a l IH]; simpl; [done|].
  by rewrite insert_agent_perm, IH.
Qed.

Lemma insert_ascending (a : nat * pos) l : ascending l -> ascending (insert_agent a l).
Proof.
  induction l as [|b l IH]; simpl; [done|]. intros [Hb Hl].
  destruct (agent_leb a b) eqn:E; simpl.
  - split; [|done]. apply Forall_cons. split; [done|].
    eapply Forall_impl; [exact Hb|]. intros c Hc. by apply (agent_le_trans a b c).
  - split; [|by apply IH]. rewrite insert_agent_perm. apply Forall_cons. split; [|done].
    destruct (agent_le_total a b) as [H|H]; [|done].
    unfold agent_le in H. congruence.
Qed.

Lemma sort_ascending l : ascending (sort_agents l).
Proof. induction l as [|a l IH]; simpl; [done|]. by apply insert_ascending. Qed.

Lemma ascending_lookup l (i j : nat) (a b : nat * pos) :
  ascending l -> (i < j)%nat -> l !! i = Some a -> l !! j = Some b -> agent_le a b.
Proof.
  revert i j. induction l as [|c l IH]; intros i j Hl Hij Hi Hj; [done|].
  destruct Hl as [Hc Hl]. destruct i as [|i], j as [|j]; try lia; simpl in *.
  - injection Hi as ->. rewrite Forall_forall in Hc. apply Hc.
    by apply list_elem_of_lookup_2 in Hj.
  - apply (IH i j); [done|lia|done|done].
Qed.

(** ** The constructor *)

Lemma flagged_eq (l : list (nat * pos)) :
  map (fun '(i, p) => (bool_decide (i = 0%nat), p)) l = map flagged l.
Proof. apply map_ext. by intros [i p]. Qed.

Lemma init_built first rest :
  let text := first :: rest in
  Forall (fun line => String.length first <= String.length line)%nat text ->
  __init__ text = Ok (built text (String.length first)).
Proof.
  intros text Hrect. unfold __init__, text at 1. cbv beta iota zeta. fold text.
  unfold processLayoutText.
  change (Attributes _ _ [] [] 0) with (empty (String.length first) (length text)).
  rewrite process_cells_fold by (by apply cells_defined).
  cbn [mbind result_bind]. by rewrite flagged_eq.
Qed.

Lemma init_inv text L :
  __init__ text = Ok L ->
  exists first rest,
    text = first :: rest /\
    Forall (fun line => String.length first <= String.length line)%nat text /\
    L = built text (String.length first).
Proof.
  intros H. destruct text as [|first rest]; [done|].
  exists first, rest. split; [done|].
  set (text := first :: rest) in *.
  assert (Hrect : Forall (fun line => String.length first <= String.length line)%nat text).
  { apply cells_defined.
    unfold __init__, text at 1 in H.
    cbv beta iota zeta in H. fold text in H.
    unfold processLayoutText in H.
    destruct (process_cells text _ _ _) as [self'|] eqn:E; [|done].
    by apply (process_cells_ok_defined _ _ _ _ E). }
  split; [done|]. pose proof (init_built first rest Hrect) as Hb.
  cbv zeta in Hb. fold text in Hb. rewrite Hb in H. by injection H.
Qed.


(** X21: the constructor returns exactly on a text that is not empty
    and has no line shorter than its first line (longer lines are cut
    at the width); on any other text it raises [IndexError]. *)
Theorem layout_needs_rectangular_text text :
  ((exists L, __init__ text = Ok L) <->
   exists first rest,
     text = first :: rest /\
     Forall (fun line => String.length first <= String.length line)%nat text) /\
  (forall e, __init__ text = Raise e -> e = IndexError).
Proof.
  split; [split|].
  - intros [L HL]. destruct (init_inv text L HL) as (first & rest & Ht & Hr & _).
    eauto.
  - intros (first & rest & -> & Hr). eexists. by apply init_built.
  - intros e H. destruct text as [|first rest]; [by injection H|].
    unfold __init__, processLayoutText in H.
    destruct (process_cells _ _ _ _) as [self'|e'] eqn:E; [done|].
    simpl in H. injection H as <-. by apply process_cells_raise in E.
Qed.

Lemma built_grid (sel : attributes -> Grid) (ch : ascii) text w x y :
  (forall self p, sel (visit text self p)
     = if bool_decide (cell text p.1 p.2 = Some ch)
       then set (sel self) p.1 p.2 true else sel self) ->
  sel (empty w (length text)) = new_grid w (length text) false ->
  sized w (length text) (sel (attrs (built text w))) /\
  ((x < w)%nat -> (y < length text)%nat ->
   get (sel (attrs (built text w))) x y = Some (bool_decide (cell text x y = Some ch))).
Proof.
  intros Hsel Hempty. unfold built. cbn [attrs].
  destruct (grid_fold sel ch text w (length text) (cells w (length text))
              (empty w (length text)) x y Hsel) as [Hs Hg].
  - rewrite Hempty. apply new_grid_sized.
  - apply Forall_forall. intros p. apply cells_in_range.
  - split; [done|]. intros Hx Hy. rewrite Hg, Hempty, get_new_grid by done.
    assert (Hin : (x, y) ∈ cells w (length text)) by (by apply cells_in_range).
    destruct (decide (cell text x y = Some ch)) as [Hc|Hc].
    + by rewrite !bool_decide_eq_true_2.
    + rewrite !bool_decide_eq_false_2; [done|done|tauto].
Qed.

Lemma walls_visit text self p :
  walls (visit text self p)
  = if bool_decide (cell text p.1 p.2 = Some "%"%char)
    then set (walls self) p.1 p.2 true else walls self.
Proof. by destruct (visit_fields text self p) as (H & _). Qed.

Lemma food_visit text self p :
  food (visit text self p)
  = if bool_decide (cell text p.1 p.2 = Some "."%char)
    then set (food self) p.1 p.2 true else food self.
Proof. by destruct (visit_fields text self p) as (_ & H & _). Qed.

(** X22: the grids of a layout follow the text upside down: cell
    [(x, y)] is a wall exactly when character [x] of line
    [height - 1 - y] is [%], and holds food exactly when it is a
    dot. *)
Theorem layout_walls_and_food text L x y :
  __init__ text = Ok L -> (x < width L)%nat -> (y < height L)%nat ->
  height L = length text /\
  get (walls (attrs L)) x y
    = Some (bool_decide (text !! (height L - 1 - y)%nat ≫= String.get x = Some "%"%char)) /\
  get (food (attrs L)) x y
    = Some (bool_decide (text !! (height L - 1 - y)%nat ≫= String.get x = Some "."%char)).
Proof.
  intros H Hx Hy. destruct (init_inv text L H) as (first & rest & _ & _ & ->).
  set (w := String.length first) in *.
  change (width (built text w)) with w in *.
  change (height (built text w)) with (length text) in *.
  split; [done|]. split.
  - by apply (built_grid walls "%" text _ x y (walls_visit text)).
  - by apply (built_grid food "." text _ x y (food_visit text)).
Qed.

Lemma built_agents text w :
  agents (attrs (built text w)) = flat_map (agent_at text) (cells w (length text)) /\
  numGhosts (attrs (built text w))
  = length (List.filter is_ghost (agents (attrs (built text w)))).
Proof.
  unfold built. cbn [attrs].
  destruct (agents_fold text (cells w (length text)) (empty w (length text))) as [Ha Hn].
  rewrite Hn, Ha. done.
Qed.

Lemma elem_of_agents text w (a : nat * pos) :
  a ∈ flat_map (agent_at text) (cells w (length text)) <->
  in_range w (length text) a.2 /\ cell text a.2.1 a.2.2 ≫= agent_number = Some a.1.
Proof.
  rewrite list_elem_of_In, in_flat_map. split.
  - intros (p & Hp & Ha). apply list_elem_of_In, cells_in_range in Hp.
    unfold agent_at in Ha. destruct (cell text p.1 p.2 ≫= agent_number) as [i|] eqn:E;
      [|done].
    destruct Ha as [<-|[]]. by simpl.
  - intros [Hr Hc]. exists a.2. split; [by apply list_elem_of_In, cells_in_range|].
    unfold agent_at. rewrite Hc. left. by destruct a.
Qed.

(** X23: [agentPositions] holds one pair for every character [P], [G],
    [1], [2], [3] or [4] of the text within the width, at the position
    of the character counted from the bottom line, flagged as Pacman
    exactly for [P]; and nothing else. *)
Theorem layout_agent_positions text L (flag : bool) (p : pos) :
  __init__ text = Ok L ->
  (flag, p) ∈ agentPositions L <->
  in_range (width L) (height L) p /\
  exists i, cell text p.1 p.2 ≫= agent_number = Some i /\ flag = bool_decide (i = 0%nat).
Proof.
  intros H. destruct (init_inv text L H) as (first & rest & _ & _ & ->).
  set (w := String.length first).
  change (width (built text w)) with w.
  change (height (built text w)) with (length text).
  change (agentPositions (built text w))
    with (map flagged (sort_agents (agents (attrs (built text w))))).
  destruct (built_agents text w) as [-> _].
  rewrite map_fmap, list_elem_of_fmap. split.
  - intros ([i q] & [= -> ->] & Ha). rewrite sort_agents_perm in Ha.
    apply elem_of_agents in Ha as [Hr Hc]. eauto.
  - intros (Hr & i & Hc & ->). exists (i, p). split; [done|].
    rewrite sort_agents_perm. by apply elem_of_agents.
Qed.

Lemma filter_length_perm {A} (f : A -> bool) (l l' : list A) :
  l ≡ₚ l' -> length (List.filter f l) = length (List.filter f l').
Proof.
  induction 1 as [|a l l' _ IH|a b l|l l' l'' _ IH1 _ IH2]; simpl.
  - done.
  - destruct (f a); simpl; by rewrite IH.
  - by destruct (f a), (f b).
  - by rewrite IH1.
Qed.

Lemma filter_length_map {A B} (f : B -> bool) (g : A -> B) (l : list A) :
  length (List.filter f (map g l)) = length (List.filter (fun a => f (g a)) l).
Proof.
  induction l as [|a l IH]; simpl; [done|]. destruct (f (g a)); simpl; by rewrite IH.
Qed.

(** X24: in [agentPositions] the pairs of Pacman come before the pairs
    of the ghosts, and [numGhosts] is the number of pairs that are not
    Pacman's. *)
Theorem layout_pacman_first text L :
  __init__ text = Ok L ->
  (forall (i j : nat) (a b : bool * pos),
     (i < j)%nat -> agentPositions L !! i = Some a -> agentPositions L !! j = Some b ->
     b.1 = true -> a.1 = true) /\
  getNumGhosts L = length (List.filter (fun a => negb a.1) (agentPositions L)).
Proof.
  intros H. destruct (init_inv text L H) as (first & rest & _ & _ & ->).
  set (w := String.length first). unfold getNumGhosts.
  change (agentPositions (built text w))
    with (map flagged (sort_agents (agents (attrs (built text w))))).
  destruct (built_agents text w) as [_ Hn]. split.
  - intros i j a b Hij Hi Hj Hb.
    rewrite map_fmap, list_lookup_fmap in Hi, Hj.
    destruct (sort_agents _ !! i) as [a0|] eqn:Ei; [|done].
    destruct (sort_agents _ !! j) as [b0|] eqn:Ej; [|done].
    simpl in Hi, Hj. injection Hi as <-. injection Hj as <-.
    pose proof (ascending_lookup _ i j a0 b0 (sort_ascending _) Hij Ei Ej) as Hle.
    apply agent_le_iff in Hle. unfold flagged in *. simpl in *.
    apply bool_decide_eq_true in Hb. apply bool_decide_eq_true. lia.
  - rewrite Hn, filter_length_map.
    rewrite (filter_length_perm _ _ _ (sort_agents_perm _)).
    f_equal. apply List.filter_ext. intros [i q]. unfold is_ghost, flagged. simpl.
    destruct (Nat.eqb_spec i 0) as [->|Hne]; [done|].
    by rewrite bool_decide_eq_false_2.
Qed.

(** The food list enumerates the dots of the text column by column,
    each column from the bottom line up. *)
Lemma built_food_list text w :
  asList (food (attrs (built text w)))
  = flat_map (fun x =>
      flat_map (fun y => if bool_decide (cell text x y = Some "."%char)
                         then [(x, y)] else [])
               (seq 0 (length text)))
      (seq 0 w).
Proof.
  pose proof (fun x y => built_grid food "." text w x y (food_visit text) eq_refl) as Hg.
  destruct (Hg 0%nat 0%nat) as [[Hw Hh] _].
  unfold asList. unfold Grid in *. rewrite Hw.
  apply flat_map_seq_ext. intros x Hx.
  destruct (lookup_lt_is_Some_2 (food (attrs (built text w))) x) as [column Hc]; [lia|].
  rewrite Hc. cbn [default]. unfold id.
  assert (Hl : length column = length text).
  { rewrite Forall_forall in Hh. apply Hh. by apply list_elem_of_lookup_2 in Hc. }
  rewrite Hl. apply flat_map_seq_ext. intros y Hy.
  destruct (Hg x y) as [_ Hget]. by rewrite Hget.
Qed.

(** X25: [food.asList()] holds exactly the positions of the dots of
    the text within the width, and [totalFood] is their number: the
    dots counted column by column. *)
Theorem layout_total_food text L :
  __init__ text = Ok L ->
  (forall p, p ∈ asList (food (attrs L)) <->
     in_range (width L) (height L) p /\ cell text p.1 p.2 = Some "."%char) /\
  totalFood L
  = length (flat_map (fun x =>
              flat_map (fun y => if bool_decide (cell text x y = Some "."%char)
                                 then [(x, y)] else [])
                       (seq 0 (height L)))
              (seq 0 (width L))).
Proof.
  intros H. destruct (init_inv text L H) as (first & rest & _ & _ & ->).
  set (w := String.length first).
  change (width (built text w)) with w.
  change (height (built text w)) with (length text).
  change (totalFood (built text w))
    with (length (asList (food (attrs (built text w))))).
  rewrite built_food_list. split; [|done].
  intros p. rewrite list_elem_of_In, in_flat_map. unfold in_range. split.
  - intros (x & Hx%in_seq & Hp%in_flat_map). destruct Hp as (y & Hy%in_seq & Hp).
    case_bool_decide as Hc; [|done]. destruct Hp as [<-|[]]. simpl. split; [lia|done].
  - intros [[Hx Hy] Hc]. exists p.1. split; [apply in_seq; lia|].
    apply in_flat_map. exists p.2. split; [apply in_seq; lia|].
    rewrite bool_decide_eq_true_2 by done. left. by destruct p.
Qed.

(** ** The furthest corner *)

Lemma fold_max {A} (key : A -> Z) (l : list A) (a : A) :
  let r := fold_left (fun best b => if (key best <? key b)%Z then b else best) l a in
  (r = a \/ r ∈ l) /\ (key a <= key r)%Z /\ forall b, b ∈ l -> (key b <= key r)%Z.
Proof.
  revert a. induction l as [|c l IH]; intros a; simpl.
  - split; [by left|]. split; [lia|]. intros b []%elem_of_nil.
  - destruct (IH (if (key a <? key c)%Z then c else a)) as (Hr & Hk & Hall).
    destruct (Z.ltb_spec (key a) (key c)).
    + split; [right; destruct Hr as [->|Hr]; [by left|by right]|].
      split; [lia|]. intros b [->|Hb]%elem_of_cons; [lia|by apply Hall].
    + split; [destruct Hr as [->|Hr]; [by left|right; by right]|].
      split; [lia|]. intros b [->|Hb]%elem_of_cons; [lia|by apply Hall].
Qed.

(** X26: whatever distance [manhattanDistance] computes,
    [getFurthestCorner] returns one of the four corners, and no corner
    is further from the given position. *)
Theorem furthest_corner_is_furthest
    (manhattanDistance : Z * Z -> Z * Z -> Z) (L : Layout) (pacPos : Z * Z) :
  exists c,
    getFurthestCorner manhattanDistance L pacPos = Ok c /\
    c ∈ corners L /\
    forall c', c' ∈ corners L ->
      (manhattanDistance c' pacPos <= manhattanDistance c pacPos)%Z.
Proof.
  unfold getFurthestCorner, corners, max_by. eexists. split; [reflexivity|].
  match goal with
  | |- context [fold_left ?f ?l ?a] =>
      destruct (fold_max (fun p => manhattanDistance p pacPos) l a) as (Hr & Hk & Hall)
  end.
  split.
  - destruct Hr as [->|Hr]; [by left|by right].
  - intros c' [->|Hc]%elem_of_cons; [done|by apply Hall].
Qed.

End Layouts.

(** * Key handling *)

Section Key_handling.

Import Keys.

Implicit Types (d : dict) (st : state) (k : string) (ev : event).

Lemma elem_of_assign d k k' : k ∈ assign d k' <-> k ∈ d \/ k = k'.
Proof.
  unfold assign. case_bool_decide as H.
  - split; [by left|]. by intros [?| ->].
  - rewrite elem_of_app, list_elem_of_singleton. done.
Qed.

Lemma elem_of_pop d k k' : k ∈ pop d k' <-> k ∈ d /\ k <> k'.
Proof.
  unfold pop. rewrite !list_elem_of_In, filter_In, negb_true_iff.
  by rewrite String.eqb_neq.
Qed.

Lemma NoDup_assign d k : NoDup d -> NoDup (assign d k).
Proof.
  intros Hd. unfold assign. case_bool_decide as H; [done|].
  apply NoDup_app. split; [done|]. split; [|apply NoDup_singleton].
  intros k' Hk' ->%list_elem_of_singleton. done.
Qed.

Lemma NoDup_pop d k : NoDup d -> NoDup (pop d k).
Proof.
  intros Hd. unfold pop. apply NoDup_ListNoDup, List.NoDup_filter.
  by apply NoDup_ListNoDup.
Qed.

Lemma mem_assign d k k' :
  bool_decide (k ∈ assign d k')
  = if bool_decide (k' = k) then true else bool_decide (k ∈ d).
Proof.
  destruct (decide (k' = k)) as [->|Hne].
  - rewrite (bool_decide_eq_true_2 (k = k)) by done.
    apply bool_decide_eq_true, elem_of_assign. by right.
  - rewrite (bool_decide_eq_false_2 (k' = k)) by done.
    apply bool_decide_ext. rewrite elem_of_assign.
    split; [intros [?|?]; [done|congruence]|by left].
Qed.

Lemma mem_pop d k k' :
  bool_decide (k ∈ pop d k')
  = if bool_decide (k' = k) then false else bool_decide (k ∈ d).
Proof.
  destruct (decide (k' = k)) as [->|Hne].
  - rewrite (bool_decide_eq_true_2 (k = k)) by done.
    apply bool_decide_eq_false. rewrite elem_of_pop. tauto.
  - rewrite (bool_decide_eq_false_2 (k' = k)) by done.
    apply bool_decide_ext. rewrite elem_of_pop.
    split; [by intros [? _]|intros ?; split; [done|congruence]].
Qed.

(** One event, seen from key [k]. *)
Lemma dispatch_key st ev k :
  bool_decide (k ∈ _keysdown (dispatch st ev))
    = down_after k (bool_decide (k ∈ _keysdown st)) ev /\
  bool_decide (k ∈ _keyswaiting (dispatch st ev))
    = waiting_after k (bool_decide (k ∈ _keyswaiting st)) ev.
Proof.
  destruct ev as [k'|k'| |]; simpl.
  - split; apply mem_assign.
  - split; [apply mem_pop|done].
  - split; by rewrite ?bool_decide_eq_false_2 by apply not_elem_of_nil.
  - done.
Qed.

(** X29: the two dictionaries follow the events key by key: after any
    sequence of events a key is in [_keysdown] exactly when its last
    press came after its last release and after the last change of
    focus, and in [_keyswaiting] exactly when it was pressed after the
    last change of focus; no key is listed twice. *)
Theorem dictionaries_follow_events st (evs : list event) k :
  NoDup (_keysdown st) -> NoDup (_keyswaiting st) ->
  let st' := fold_left dispatch evs st in
  bool_decide (k ∈ _keysdown st')
    = fold_left (down_after k) evs (bool_decide (k ∈ _keysdown st)) /\
  bool_decide (k ∈ _keyswaiting st')
    = fold_left (waiting_after k) evs (bool_decide (k ∈ _keyswaiting st)) /\
  NoDup (_keysdown st') /\ NoDup (_keyswaiting st').
Proof.
  revert st. induction evs as [|ev evs IH]; intros st Hd Hw; simpl; [done|].
  destruct (dispatch_key st ev k) as [<- <-]. apply IH.
  - destruct ev; simpl; [by apply NoDup_assign|by apply NoDup_pop|constructor|done].
  - destruct ev; simpl; [by apply NoDup_assign|done|constructor|done].
Qed.

Lemma waiting_without_focus k (evs : list event) (b : bool) :
  Focus ∉ evs ->
  fold_left (waiting_after k) evs b = b || bool_decide (KeyPress k ∈ evs).
Proof.
  revert b. induction evs as [|ev evs IH]; intros b Hf; cbn [fold_left].
  - rewrite bool_decide_eq_false_2 by apply not_elem_of_nil. by rewrite orb_false_r.
  - apply not_elem_of_cons in Hf as [Hne Hf]. rewrite IH by done.
    destruct ev as [k'|k'| |]; cbn [waiting_after]; [| | done |].
    + destruct (decide (k' = k)) as [->|E].
      * rewrite (bool_decide_eq_true_2 (k = k)) by done.
        rewrite (bool_decide_eq_true_2 (KeyPress k ∈ KeyPress k :: evs)) by left.
        by rewrite orb_true_r.
      * rewrite (bool_decide_eq_false_2 (k' = k)) by done.
        f_equal. apply bool_decide_ext. rewrite elem_of_cons.
        split; [by right|intros [[=]|?]; done].
    + f_equal. apply bool_decide_ext. rewrite elem_of_cons.
      split; [by right|intros [[=]|?]; done].
    + f_equal. apply bool_decide_ext. rewrite elem_of_cons.
      split; [by right|intros [[=]|?]; done].
Qed.

(** X30: no key press is lost between two polls: as long as the focus
    does not change, [keys_waiting()] returns, once each, the keys
    that waited before and the keys pressed since, whether they were
    released or not; a second call right after returns nothing. *)
Theorem keys_waiting_reports_every_press st (evs : list event) :
  Focus ∉ evs -> NoDup (_keyswaiting st) ->
  let '(keys, st') := keys_waiting (fold_left dispatch evs st) in
  (forall k, k ∈ keys <-> k ∈ _keyswaiting st \/ KeyPress k ∈ evs) /\
  NoDup keys /\
  (keys_waiting st').1 = [] /\
  _keysdown st' = _keysdown (fold_left dispatch evs st).
Proof.
  intros Hf Hw. unfold keys_waiting. cbn [fst].
  split; [|split; [|done]].
  - intros k.
    assert (Hk : bool_decide (k ∈ _keyswaiting (fold_left dispatch evs st))
                 = bool_decide (k ∈ _keyswaiting st) || bool_decide (KeyPress k ∈ evs)).
    { rewrite <- waiting_without_focus by done. clear Hw Hf.
      revert st. induction evs as [|ev evs IH]; intros st; simpl; [done|].
      destruct (dispatch_key st ev k) as [_ <-]. apply IH. }
    rewrite <- (bool_decide_spec (k ∈ _keyswaiting (fold_left dispatch evs st))), Hk.
    rewrite orb_True, !bool_decide_spec. done.
  - clear Hf. revert st Hw. induction evs as [|ev evs IH]; intros st Hw; simpl; [done|].
    apply IH. destruct ev; simpl; [by apply NoDup_assign|done|constructor|done].
Qed.

End Key_handling.

(** *** The agents, the display and the layouts on sample inputs *)

Section Samples.

Import Keyboard.

Lemma getAction_returns_legal_move_witness :
  exists self' move,
    getAction (__init__ KeyboardAgent 0) ["a"] [] [WEST; STOP] 0 = Ok (self', move) /\
    move ∈ [WEST; STOP] /\ lastMove self' = move /\
    cls self' = KeyboardAgent /\ index self' = 0%nat.
Proof.
  apply (getAction_returns_legal_move (__init__ KeyboardAgent 0) ["a"] [] [WEST; STOP] 0).
  discriminate.
Defined.

Lemma getAction_stop_key_witness :
  exists self',
    getAction (__init__ KeyboardAgent 0) ["q"; "a"] [] [WEST; STOP] 0 = Ok (self', STOP) /\
    lastMove self' = STOP.
Proof.
  apply (getAction_stop_key (__init__ KeyboardAgent 0) ["q"; "a"] [] [WEST; STOP] 0).
  - simpl. constructor.
  - simpl. repeat constructor.
Defined.

Lemma getAction_keeps_moving_witness :
  getAction (Agent KeyboardAgent2 1 EAST ["Left"]) [] [] [EAST; WEST; STOP] 0
  = Ok (Agent KeyboardAgent2 1 EAST ["Left"], EAST).
Proof.
  apply (getAction_keeps_moving (Agent KeyboardAgent2 1 EAST ["Left"]) [] []
           [EAST; WEST; STOP] 0).
  - intros d _. by destruct d.
  - reflexivity.
  - simpl. constructor.
Defined.

End Samples.

Section Display_samples.

Import TextDisplay.


Lemma updates_print_boards_witness :
  Z.of_nat (boards [Print false; Sleep; Print true; Sleep; Print true])
  = (2 - 0 + Z.of_nat (length (List.filter (final (fun b : bool => b) (fun _ => false))
                                           [false; false; false; true])))%Z.
Proof.
  apply (updates_print_boards (fun _ : bool => 2%nat) (fun b => b) (fun _ => false) false
           None (Build_PacmanGraphics 0 0) (Build_PacmanGraphics 2 0)
           [false; false; false; true]).
  reflexivity.
Defined.

(** With a negative [SLEEP_TIME] the first round that draws the board
    raises the [ValueError] of [time.sleep]: the counters are those of
    the new round and the board is printed. *)
Example update_with_negative_sleep_time :
  updates (fun _ : unit => 2%nat) (fun _ => false) (fun _ => false) 1 false
          (Some ValueError) (Build_PacmanGraphics 0 0) [tt; tt; tt]
  = Raises ValueError (Build_PacmanGraphics 1 0) [Print tt].
Proof. reflexivity. Qed.

End Display_samples.

Section Layout_samples.

Import Layout.

Lemma sample_layout : __init__ sample_text = Ok (built sample_text 4).
Proof. vm_compute. reflexivity. Defined.

Lemma layout_walls_and_food_witness :
  height (built sample_text 4) = 3%nat /\
  get (walls (attrs (built sample_text 4))) 1 1 = Some false /\
  get (food (attrs (built sample_text 4))) 1 1 = Some true.
Proof.
  apply (layout_walls_and_food sample_text (built sample_text 4) 1 1);
    [apply sample_layout | simpl; lia | simpl; lia].
Defined.

Lemma layout_agent_positions_witness :
  (true, (1%nat, 0%nat)) ∈ agentPositions (built sample_text 4).
Proof.
  apply (layout_agent_positions sample_text (built sample_text 4) true (1%nat, 0%nat)
           sample_layout).
  split; [split; simpl; lia|]. exists 0%nat. split; reflexivity.
Defined.

Lemma layout_pacman_first_witness :
  getNumGhosts (built sample_text 4)
  = length (List.filter (fun a => negb a.1) (agentPositions (built sample_text 4))).
Proof. apply (layout_pacman_first sample_text (built sample_text 4) sample_layout). Defined.

Lemma layout_total_food_witness : totalFood (built sample_text 4) = 1%nat.
Proof. apply (layout_total_food sample_text (built sample_text 4) sample_layout). Defined.

End Layout_samples.

Section More_samples.

(** The files are read by CPython 3.11. *)
#[local] Existing Instance cpython_3_11.

Lemma training_loop_returns_witness :
  exists run,
    train_steps no_update sample_trainer [sample_batch; sample_batch] = Ok run /\
    length run = 2%nat /\
    global_step (before sample_trainer run 2) = 2%Z.
Proof.
  apply (training_loop_returns no_update sample_trainer [sample_batch; sample_batch] 1 1);
    [ intros o n g H; exact H
    | apply uniform_net_arch | lia | lia | reflexivity
    | repeat constructor; exists 2%nat; apply sample_batch_shapes ].
Defined.

Lemma save_then_resume_witness :
  let self := Build_DQN (sample_config None) (uniform_net 1 1 one half) tt 420 in
  __init__ (sample_config (Some "saves/model_420_x"))
           (save_ckpt self "saves/model_420_x" ∅) (uniform_net 1 1 zero zero) tt
  = Build_DQN (sample_config (Some "saves/model_420_x")) (uniform_net 1 1 one half) tt 420.
Proof.
  intros self.
  apply (save_then_resume self (sample_config (Some "saves/model_420_x")) ∅
           (uniform_net 1 1 zero zero) tt "saves/model" "x" "420");
    first [apply uniform_net_arch | reflexivity].
Defined.

Import Keys.

Lemma dictionaries_follow_events_witness :
  let st' := fold_left dispatch [KeyPress "a"; KeyRelease "a"; KeyPress "d"]
                       (State [] [] false) in
  bool_decide ("a" ∈ _keysdown st') = false /\
  bool_decide ("a" ∈ _keyswaiting st') = true /\
  NoDup (_keysdown st') /\ NoDup (_keyswaiting st').
Proof.
  apply (dictionaries_follow_events (State [] [] false)
           [KeyPress "a"; KeyRelease "a"; KeyPress "d"] "a"); constructor.
Defined.

Lemma keys_waiting_reports_every_press_witness :
  let '(keys, st') :=
    keys_waiting (fold_left dispatch [KeyPress "a"; KeyRelease "a"; KeyPress "d"]
                            (State [] [] false)) in
  (forall k, k ∈ keys <->
     k ∈ [] \/ KeyPress k ∈ [KeyPress "a"; KeyRelease "a"; KeyPress "d"]) /\
  NoDup keys /\
  (keys_waiting st').1 = [] /\
  _keysdown st'
  = _keysdown (fold_left dispatch [KeyPress "a"; KeyRelease "a"; KeyPress "d"]
                         (State [] [] false)).
Proof.
  apply (keys_waiting_reports_every_press (State [] [] false)
           [KeyPress "a"; KeyRelease "a"; KeyPress "d"]).
  - apply (bool_decide_unpack _). vm_compute. exact I.
  - constructor.
Defined.

End More_samples.
